(** * yq-unity: the Unity YAML normalizer, decoder and node-graph helpers

    A shallow embedding of
      - pkg/yqlib/decoder_unity_yaml.go  (processReadStream, Init, Decode),
      - pkg/yqlib/unity_helpers.go       (ParseUnityGraphNodes and the query helpers),
      - cmd/unity_extract.go             (the unity-extract command),
    together with the parts of Go's [strings], [regexp], [bufio] and [io]
    packages those files call.  A Go string is a byte sequence: it is a
    [string] here, one [ascii] per byte. *)

From Stdlib Require Import Ascii String List ZArith Lia Bool.
From stdpp Require Import base option list strings gmap.

Local Open Scope Z_scope.

(** ** Bytes and byte strings *)

Definition LF : ascii := "010"%char.
Definition nl : string := String LF EmptyString.

Definition code (c : ascii) : N := N_of_ascii c.

Fixpoint take (n : nat) (s : string) : string :=
  match n, s with
  | S k, String c s' => String c (take k s')
  | _, _ => EmptyString
  end.

Fixpoint drop (n : nat) (s : string) : string :=
  match n, s with
  | S k, String _ s' => drop k s'
  | _, _ => s
  end.

(** [s[i:]], [s[:j]] and [s[i:j]] for indices the program keeps in range. *)
Definition slice_from (s : string) (i : Z) : string := drop (Z.to_nat i) s.
Definition slice_to (s : string) (j : Z) : string := take (Z.to_nat j) s.
Definition slice (s : string) (i j : Z) : string :=
  take (Z.to_nat (j - i)) (drop (Z.to_nat i) s).

Definition nonempty (s : string) : bool :=
  match s with EmptyString => false | String _ _ => true end.

(** ** Package strings *)

Module strs.

Definition HasPrefix (s pre : string) : bool := String.prefix pre s.

Fixpoint Contains (s substr : string) : bool :=
  HasPrefix s substr ||
  match s with
  | EmptyString => false
  | String _ s' => Contains s' substr
  end.

(** Index of the first occurrence, -1 when there is none. *)
Fixpoint Index (s substr : string) : Z :=
  if HasPrefix s substr then 0
  else match s with
       | EmptyString => -1
       | String _ s' => let r := Index s' substr in if r <? 0 then -1 else r + 1
       end.

(** Index of the last occurrence, -1 when there is none. *)
Fixpoint LastIndex (s substr : string) : Z :=
  match s with
  | EmptyString => if HasPrefix s substr then 0 else -1
  | String _ s' =>
      let r := LastIndex s' substr in
      if 0 <=? r then r + 1 else if HasPrefix s substr then 0 else -1
  end.

(** [split_go sep skip cur s]: [cur] is the piece being collected, [skip]
    counts the bytes of a separator that are still to be passed over. *)
Fixpoint split_go (sep : string) (skip : nat) (cur s : string) : list string :=
  match s with
  | EmptyString => [cur]
  | String c s' =>
      match skip with
      | S k => split_go sep k cur s'
      | O =>
          if HasPrefix s sep
          then cur :: split_go sep (String.length sep - 1) EmptyString s'
          else split_go sep 0 (cur +:+ String c EmptyString) s'
      end
  end.

(** Split on every non-overlapping occurrence of a non-empty separator,
    from the left.  (With an empty separator Go cuts after every UTF-8
    sequence; the program never does that and [Split] is the identity
    list there.) *)
Definition Split (s sep : string) : list string :=
  match sep with
  | EmptyString => [s]
  | String _ _ => split_go sep 0 EmptyString s
  end.

(** The pieces with [sep] put between them. *)
Fixpoint Join (elems : list string) (sep : string) : string :=
  match elems with
  | [] => EmptyString
  | [x] => x
  | x :: rest => x +:+ sep +:+ Join rest sep
  end.

(** [unicode.IsSpace], on the UTF-8 encoding of a rune: the six ASCII
    blanks, U+0085, U+00A0, U+1680, U+2000..U+200A, U+2028, U+2029,
    U+202F, U+205F and U+3000. *)
Definition isSpaceRune (s : string) : bool :=
  match s with
  | String a EmptyString =>
      let n := code a in ((9 <=? n) && (n <=? 13) || (n =? 32))%N
  | String a (String b EmptyString) =>
      ((code a =? 194) && ((code b =? 133) || (code b =? 160)))%N
  | String a (String b (String c EmptyString)) =>
      let x := code a in
      let y := code b in
      let z := code c in
      ((x =? 225) && (y =? 154) && (z =? 128)
       || (x =? 226) && (y =? 128)
          && ((128 <=? z) && (z <=? 138) || (z =? 168) || (z =? 169) || (z =? 175))
       || (x =? 226) && (y =? 129) && (z =? 159)
       || (x =? 227) && (y =? 128) && (z =? 128))%N
  | _ => false
  end.

(** Width in bytes of the white-space rune [s] starts with, 0 when it
    starts with none; [rev_space_width] is the same question asked of a
    reversed string, that is, about the rune a string ends with. *)
Definition space_width (s : string) : nat :=
  if isSpaceRune (take 1 s) then 1%nat
  else if isSpaceRune (take 2 s) then 2%nat
  else if isSpaceRune (take 3 s) then 3%nat
  else 0%nat.

Definition rev_space_width (r : string) : nat :=
  if isSpaceRune (String.rev (take 1 r)) then 1%nat
  else if isSpaceRune (String.rev (take 2 r)) then 2%nat
  else if isSpaceRune (String.rev (take 3 r)) then 3%nat
  else 0%nat.

Fixpoint trim_go (width : string -> nat) (skip : nat) (s : string) : string :=
  match s with
  | EmptyString => EmptyString
  | String _ s' =>
      match skip with
      | S k => trim_go width k s'
      | O =>
          match width s with
          | O => s
          | S k => trim_go width k s'
          end
      end
  end.

Definition TrimLeftSpace (s : string) : string := trim_go space_width 0 s.
Definition TrimRightSpace (s : string) : string :=
  String.rev (trim_go rev_space_width 0 (String.rev s)).

(** Leading and trailing white space removed, as defined by Unicode. *)
Definition TrimSpace (s : string) : string := TrimRightSpace (TrimLeftSpace s).

(** [strings.ToLower] restricted to the ASCII letters.  Go also lowers
    letters outside ASCII; the helpers below take the lowering function
    as a parameter and this one is used to run them on ASCII keys. *)
Definition lower_byte (c : ascii) : ascii :=
  let n := code c in
  if ((65 <=? n) && (n <=? 90))%N then ascii_of_N (n + 32) else c.

Fixpoint ToLowerASCII (s : string) : string :=
  match s with
  | EmptyString => EmptyString
  | String c s' => String (lower_byte c) (ToLowerASCII s')
  end.

End strs.

(** [utf8.ValidString]: the text is a sequence of well-formed UTF-8
    encodings (shortest form, no surrogates, at most U+10FFFF). *)
Definition cont_byte (lo hi : N) (c : ascii) : bool :=
  ((lo <=? code c) && (code c <=? hi))%N.

Fixpoint utf8_go (need : nat) (lo hi : N) (s : string) : bool :=
  match s with
  | EmptyString => match need with O => true | S _ => false end
  | String c s' =>
      match need with
      | S k => cont_byte lo hi c && utf8_go k 128 191 s'
      | O =>
          let n := code c in
          if (n <? 128)%N then utf8_go 0 128 191 s'
          else if ((194 <=? n) && (n <=? 223))%N then utf8_go 1 128 191 s'
          else if (n =? 224)%N then utf8_go 2 160 191 s'
          else if (n =? 237)%N then utf8_go 2 128 159 s'
          else if ((225 <=? n) && (n <=? 239))%N then utf8_go 2 128 191 s'
          else if (n =? 240)%N then utf8_go 3 144 191 s'
          else if ((241 <=? n) && (n <=? 243))%N then utf8_go 3 128 191 s'
          else if (n =? 244)%N then utf8_go 3 128 143 s'
          else false
      end
  end.

Definition ValidString (s : string) : bool := utf8_go 0 128 191 s.


(** ** Package regexp

    The patterns of the program as syntax trees, and a backtracking
    matcher for them.  Go returns the leftmost match and, among those, the
    one a backtracking engine finds first; that is what [run] computes.
    Repetition is only ever applied to a one-byte class in the program's
    patterns, so [Star] and [Plus] carry a byte predicate.  Matching on
    bytes agrees with Go's matching on runes for these patterns: their
    literals are ASCII, and no class tells the bytes of one multi-byte
    rune apart. *)

Module regexp.

Inductive re : Type :=
| Eps
| Bot                            (* ^ *)
| Lit (s : string)
| LitI (s : string)              (* a literal under the flag (?i) *)
| Star (p : ascii -> bool)       (* c*, greedy *)
| Plus (p : ascii -> bool)       (* c+, greedy *)
| Seq (r1 r2 : re)
| Alt (r1 r2 : re)               (* r1|r2, r1 preferred *)
| Opt (r : re)                   (* (?:r)?, greedy *)
| Cap (r : re).                  (* (r), a capturing group *)

Definition cat (rs : list re) : re := foldr Seq Eps rs.

(** \s, \d, [a-f0-9], . (no flag s: any byte but the line feed), [^'] *)
Definition space (c : ascii) : bool :=
  let n := code c in ((n =? 9) || (n =? 10) || (n =? 12) || (n =? 13) || (n =? 32))%N.
Definition digit (c : ascii) : bool :=
  let n := code c in ((48 <=? n) && (n <=? 57))%N.
Definition hexlow (c : ascii) : bool :=
  let n := code c in (digit c || (97 <=? n) && (n <=? 102))%N.
Definition dot (c : ascii) : bool := negb (Ascii.eqb c LF).
Definition not_quote (c : ascii) : bool := negb (Ascii.eqb c "'"%char).

(** One pattern byte under (?i): either case of an ASCII letter, and the
    two runes outside ASCII that fold to one, U+017F for s and U+212A
    for k.  The result is the text left after the match. *)
Definition fold_byte (c : ascii) (s : string) : option string :=
  match s with
  | EmptyString => None
  | String d s' =>
      if Ascii.eqb (strs.lower_byte c) (strs.lower_byte d) then Some s'
      else if Ascii.eqb (strs.lower_byte c) "s"%char
              && strs.HasPrefix s (String "197" (String "191" EmptyString))
      then Some (drop 2 s)
      else if Ascii.eqb (strs.lower_byte c) "k"%char
              && strs.HasPrefix s (String "226" (String "132" (String "170" EmptyString)))
      then Some (drop 3 s)
      else None
  end.

Fixpoint fold_lit (l s : string) : option string :=
  match l with
  | EmptyString => Some s
  | String c l' =>
      match fold_byte c s with
      | Some s' => fold_lit l' s'
      | None => None
      end
  end.

Section Run.
Context {R : Type}.

Fixpoint star (p : ascii -> bool) (k : string -> option R) (s : string) : option R :=
  match s with
  | String c s' =>
      if p c
      then match star p k s' with
           | Some x => Some x
           | None => k s
           end
      else k s
  | EmptyString => k s
  end.

(** [run n r s caps k]: match [r] at the front of [s], a suffix of a text
    of [n] bytes, then hand the rest of the text and the groups captured
    so far to [k]; when [k] fails the next way of matching [r] is tried. *)
Fixpoint run (n : nat) (r : re) (s : string) (caps : list string)
    (k : string -> list string -> option R) : option R :=
  match r with
  | Eps => k s caps
  | Bot => if (String.length s =? n)%nat then k s caps else None
  | Lit l => if strs.HasPrefix s l then k (drop (String.length l) s) caps else None
  | LitI l =>
      match fold_lit l s with
      | Some s' => k s' caps
      | None => None
      end
  | Star p => star p (fun s' => k s' caps) s
  | Plus p =>
      match s with
      | String c s' => if p c then star p (fun s'' => k s'' caps) s' else None
      | EmptyString => None
      end
  | Seq r1 r2 => run n r1 s caps (fun s' caps' => run n r2 s' caps' k)
  | Alt r1 r2 =>
      match run n r1 s caps k with
      | Some x => Some x
      | None => run n r2 s caps k
      end
  | Opt r1 =>
      match run n r1 s caps k with
      | Some x => Some x
      | None => k s caps
      end
  | Cap r1 =>
      run n r1 s caps
        (fun s' caps' => k s' (caps' ++ [take (String.length s - String.length s') s]))
  end.

End Run.

(** A match: where it starts, its text and the text of its groups. *)
Record found := Found { start : nat; whole : string; groups : list string }.

Definition match_here (n : nat) (r : re) (s : string) : option found :=
  run n r s []
    (fun s' caps =>
       Some (Found (n - String.length s)
                   (take (String.length s - String.length s') s) caps)).

Fixpoint find_go (n : nat) (r : re) (s : string) : option found :=
  match match_here n r s with
  | Some m => Some m
  | None =>
      match s with
      | String _ s' => find_go n r s'
      | EmptyString => None
      end
  end.

Definition find (r : re) (s : string) : option found := find_go (String.length s) r s.

Definition MatchString (r : re) (s : string) : bool := bool_decide (is_Some (find r s)).

(** The leftmost match and its groups; the nil slice when there is none. *)
Definition FindStringSubmatch (r : re) (s : string) : list string :=
  match find r s with
  | Some m => whole m :: groups m
  | None => []
  end.

(** All successive matches.  After a match the search resumes where it
    ended ([skip] counts its bytes).  None of the program's patterns
    matches the empty string; such a match is reported and the search
    moves one byte on. *)
Fixpoint all_go (n : nat) (r : re) (skip : nat) (s : string) : list found :=
  match s with
  | EmptyString =>
      match skip, match_here n r s with
      | O, Some m => [m]
      | _, _ => []
      end
  | String _ s' =>
      match skip with
      | S k => all_go n r k s'
      | O =>
          match match_here n r s with
          | Some m => m :: all_go n r (String.length (whole m) - 1) s'
          | None => all_go n r 0 s'
          end
      end
  end.

Definition find_all (r : re) (s : string) : list found := all_go (String.length s) r 0 s.

Definition FindAllStringIndex (r : re) (s : string) : list (Z * Z) :=
  map (fun m => (Z.of_nat (start m),
                 Z.of_nat (start m + String.length (whole m)))) (find_all r s).

Definition FindAllStringSubmatch (r : re) (s : string) : list (list string) :=
  map (fun m => whole m :: groups m) (find_all r s).

(** Every match replaced by [repl], a text without [$].  (A match of the
    empty string, which the program's patterns never have, is passed
    over.) *)
Fixpoint replace_go (n : nat) (r : re) (repl : string) (skip : nat) (s : string) : string :=
  match s with
  | EmptyString => EmptyString
  | String c s' =>
      match skip with
      | S k => replace_go n r repl k s'
      | O =>
          match match_here n r s with
          | Some m =>
              match String.length (whole m) with
              | O => String c (replace_go n r repl 0 s')
              | S k => repl +:+ replace_go n r repl k s'
              end
          | None => String c (replace_go n r repl 0 s')
          end
      end
  end.

Definition ReplaceAllString (r : re) (s repl : string) : string :=
  replace_go (String.length s) r repl 0 s.

End regexp.

(** ** Errors, package bufio and io.ReadAll *)

(** A non-nil Go [error]: the sentinel [io.EOF] or any other error, kept
    as its message.  A nil-able error is an [option error]. *)
Inductive error : Type :=
| EOF
| Errorf (msg : string).

Definition is_EOF (e : error) : bool :=
  match e with EOF => true | Errorf _ => false end.

Module bufio.

(** A buffered reader over a source that delivers the bytes [unread] and
    then reports [fault]: [EOF] at a clean end, another error when the
    source breaks. *)
Record Reader := mkReader { unread : string; fault : error }.

Definition NewReader (data : string) : Reader := mkReader data EOF.

(** The next [n] bytes without consuming them; fewer, with the reason,
    when the source ends first. *)
Definition Peek (n : nat) (rd : Reader) : string * option error :=
  if (n <=? String.length (unread rd))%nat
  then (take n (unread rd), None)
  else (unread rd, Some (fault rd)).

(** The text up to and including the first [delim], and what follows it. *)
Fixpoint cut (delim : ascii) (s : string) : option (string * string) :=
  match s with
  | EmptyString => None
  | String c s' =>
      if Ascii.eqb c delim then Some (String c EmptyString, s')
      else match cut delim s' with
           | Some (l, r) => Some (String c l, r)
           | None => None
           end
  end.

(** Read through the first [delim]; when the source ends before one is
    found, everything that was left and the reason. *)
Definition ReadString (delim : ascii) (rd : Reader) : string * option error * Reader :=
  match cut delim (unread rd) with
  | Some (line, rest) => (line, None, mkReader rest (fault rd))
  | None => (unread rd, Some (fault rd), mkReader EmptyString (fault rd))
  end.

End bufio.

(** [io.ReadAll]: a clean end is not an error. *)
Definition ReadAll (rd : bufio.Reader) : string * option error * bufio.Reader :=
  (bufio.unread rd,
   if is_EOF (bufio.fault rd) then None else Some (bufio.fault rd),
   bufio.mkReader EmptyString (bufio.fault rd)).

(** ** decoder_unity_yaml.go: processReadStream *)

Import regexp.

Definition commentLineRegEx : re := cat [Bot; Star space; Lit "#"].
Definition yamlDirectiveLineRegEx : re := cat [Bot; Star space; Lit "%YA"].
Definition tagDirectiveLineRegEx : re := cat [Bot; Star space; Lit "%TAG"].

Definition unityRefPattern : re :=
  cat [Lit "{fileID:"; Star space; Opt (Lit "-"); Plus digit;
       Opt (cat [Lit ","; Star space; Lit "guid:"; Star space; Plus hexlow;
                 Lit ","; Star space; Lit "type:"; Star space; Plus digit]);
       Lit "}"].
Definition unityTagPattern : re := cat [Lit "!u!"; Plus digit].

Definition unityNamespace : string := "tag:unity3d.com,2011:".
Definition docSeparator : string := "$yqDocSeparator$" +:+ nl.

(** The local variables of the loop: the flag and the two builders. *)
Record scan := Scan { isUnityYaml : bool; sb : string; contentBuffer : string }.

(** What the function returns: the text behind the new reader, the
    leading content and the error. *)
Record normalized := Normalized { stream : string; leadingOf : string; failure : option error }.

Definition write_sb (x : string) (st : scan) : scan :=
  Scan (isUnityYaml st) (sb st +:+ x) (contentBuffer st).
Definition write_content (x : string) (st : scan) : scan :=
  Scan (isUnityYaml st) (sb st) (contentBuffer st +:+ x).

(** One turn of the loop either goes round again or returns; both leave
    the reader somewhere. *)
Inductive outcome : Type :=
| Next (st : scan) (rd : bufio.Reader)
| Done (res : normalized) (rd : bufio.Reader).

Definition give_back (st : scan) (err : option error) (rd : bufio.Reader) : outcome :=
  Done (Normalized (contentBuffer st) (sb st) err) rd.

(** The test that ends most branches:
    [if errors.Is(err, io.EOF) { return ..., nil } else if err != nil { return ..., err }]. *)
Definition check (err : option error) (st : scan) (rd : bufio.Reader) : outcome :=
  match err with
  | Some EOF => give_back st None rd
  | Some e => give_back st (Some e) rd
  | None => Next st rd
  end.

Definition first_is_LF (peekBytes : string) : bool :=
  match peekBytes with
  | String c _ => Ascii.eqb c LF
  | EmptyString => false
  end.

(** The anchor kept from a Unity separator line, if it has one. *)
Definition anchor_of (restOfLine : string) : string :=
  if strs.Contains restOfLine "&"
  then match strs.Split restOfLine "&" with
       | _ :: part1 :: _ => " &" +:+ strs.TrimSpace part1
       | _ => EmptyString
       end
  else EmptyString.

Definition step (st : scan) (reader : bufio.Reader) : outcome :=
  let '(peekBytes, err) := bufio.Peek 4 reader in
  match err with
  | Some EOF => give_back st None reader
  | Some e => give_back st (Some e) reader
  | None =>
      if first_is_LF peekBytes then
        let '(line, err, reader) := bufio.ReadString LF reader in
        check err (write_content line (write_sb line st)) reader
      else if MatchString tagDirectiveLineRegEx peekBytes then
        let '(line, err, reader) := bufio.ReadString LF reader in
        let st := write_sb line st in
        if strs.Contains line unityNamespace
        then Next (Scan true (sb st) (contentBuffer st)) reader
        else check err (write_content line st) reader
      else if String.eqb peekBytes "--- " then
        let '(line, err, reader) := bufio.ReadString " " reader in
        if isUnityYaml st then
          let st := write_content "---" st in
          let '(restOfLine, _, reader) := bufio.ReadString LF reader in
          let st := write_content (anchor_of restOfLine) st in
          let st := write_content nl st in
          let st := write_sb (line +:+ restOfLine) st in
          check err st reader
        else
          check err (write_content docSeparator (write_sb docSeparator st)) reader
      else if String.eqb peekBytes ("---" +:+ nl) then
        let '(_, err, reader) := bufio.ReadString LF reader in
        check err (write_content docSeparator (write_sb docSeparator st)) reader
      else if MatchString commentLineRegEx peekBytes
              || MatchString yamlDirectiveLineRegEx peekBytes then
        let '(line, err, reader) := bufio.ReadString LF reader in
        check err (write_content line (write_sb line st)) reader
      else
        let '(restBytes, err, reader) := ReadAll reader in
        match err with
        | Some e => give_back st (Some e) reader
        | None =>
            let rest :=
              if isUnityYaml st
              then ReplaceAllString unityTagPattern
                     (ReplaceAllString unityRefPattern restBytes "null") EmptyString
              else restBytes in
            give_back (write_content rest st) None reader
        end
  end.

(** The loop.  Every turn that goes round again has consumed a byte, so
    one more turn than there are bytes is always enough ([loop_total]). *)
Fixpoint loop (fuel : nat) (st : scan) (reader : bufio.Reader)
    : option (normalized * bufio.Reader) :=
  match fuel with
  | O => None
  | S fuel' =>
      match step st reader with
      | Done res rd => Some (res, rd)
      | Next st' rd => loop fuel' st' rd
      end
  end.

Definition scan0 : scan := Scan false EmptyString EmptyString.

Definition processReadStream (reader : bufio.Reader) : option (normalized * bufio.Reader) :=
  loop (S (String.length (bufio.unread reader))) scan0 reader.

(** ** decoder_unity_yaml.go: the decoder session *)

(** Modelled from the spec: the internal node representation
    ([CandidateNode]) is declared outside the files at hand.  The spec
    speaks of a scalar node carrying the leading content as an attached
    comment, of header and trailing comments and of the document index a
    node is stamped with; those are the fields kept.  [NoKind] is the zero
    value of the kind. *)
Inductive Kind : Type := NoKind | SequenceNode | MappingNode | ScalarNode | AliasNode.

Record CandidateNode := mkCandidate {
  kind : Kind;
  Tag : string;
  Value : string;
  HeadComment : string;
  FootComment : string;
  LeadingContent : string;
  document : N
}.

(** The zero value with the document index set: [CandidateNode{document: i}]. *)
Definition candidate_at (i : N) : CandidateNode :=
  mkCandidate NoKind EmptyString EmptyString EmptyString EmptyString EmptyString i.

Definition with_LeadingContent (s : string) (node : CandidateNode) : CandidateNode :=
  mkCandidate (kind node) (Tag node) (Value node) (HeadComment node) (FootComment node)
    s (document node).

(** Modelled from the spec: the preferences type is declared elsewhere;
    the decoder reads one flag of it. *)
Record YamlPreferences := mkPrefs { LeadingContentPreProcessing : bool }.

(** What the decoder calls and the files at hand do not define: the YAML
    engine (gopkg.in/yaml.v3), the conversion of its nodes
    ([CandidateNode.UnmarshalYAML]) and [createScalarNode].  The decoder
    is written against this interface. *)
Class Collaborators := {
  Node : Type;                      (* yaml.Node, one decoded document *)
  AnchorMap : Type;                 (* map[string]*CandidateNode *)
  make_anchors : AnchorMap;
  (** the documents the engine finds in a stream, in order, and the error
      that ends them: [EOF] at a clean end, otherwise a parse error *)
  documents : string -> list Node * error;
  NodeHeadComment : Node -> string;
  NodeFootComment : Node -> string;
  (** [candidateNode.UnmarshalYAML(yamlNode.Content[0], anchorMap)] *)
  UnmarshalYAML : CandidateNode -> Node -> AnchorMap -> option error * CandidateNode * AnchorMap;
  (** Modelled from the spec: [createScalarNode(nil, stringValue)].  The
      spec calls the result for the empty string an empty scalar node:
      a scalar with that value, its other fields left open. *)
  createScalarNode_nil : string -> CandidateNode;
  createScalarNode_kind : forall s, kind (createScalarNode_nil s) = ScalarNode;
  createScalarNode_value : forall s, Value (createScalarNode_nil s) = s
}.

Section Decoder.
Context `{E : Collaborators}.

(** [yaml.Decoder]: the documents not handed out yet and the error that
    follows them, which it keeps reporting. *)
Record yamlDecoder := mkYaml { waiting : list Node; ending : error }.

Definition yaml_NewDecoder (text : string) : yamlDecoder :=
  mkYaml (fst (documents text)) (snd (documents text)).

Definition yaml_Decode (d : yamlDecoder) : (Node + error) * yamlDecoder :=
  match waiting d with
  | n :: rest => (inl n, mkYaml rest (ending d))
  | [] => (inr (ending d), d)
  end.

Record unityYamlDecoder := mkDecoder {
  decoder : yamlDecoder;
  prefs : YamlPreferences;
  leadingContent : string;
  bufferRead : string;
  anchorMap : AnchorMap;
  readAnything : bool;
  firstFile : bool;
  documentIndex : N               (* uint: it wraps at 2^64 *)
}.

Definition NewUnityYamlDecoder (p : YamlPreferences) : unityYamlDecoder :=
  mkDecoder (mkYaml [] EOF) p EmptyString EmptyString make_anchors false true 0%N.

(** [Init]: [None] only if the loop of [processReadStream] ran out of
    turns, which it does not ([processReadStream_total]). *)
Definition Init (dec : unityYamlDecoder) (reader : bufio.Reader)
    : option (option error * unityYamlDecoder) :=
  let dec := mkDecoder (decoder dec) (prefs dec) (leadingContent dec) EmptyString
               (anchorMap dec) (readAnything dec) (firstFile dec) (documentIndex dec) in
  match processReadStream reader with
  | None => None
  | Some (res, _) =>
      match failure res with
      | Some err => Some (Some err, dec)
      | None =>
          Some (None,
                mkDecoder (yaml_NewDecoder (stream res)) (prefs dec) (leadingOf res)
                  (bufferRead dec) make_anchors false false 0%N)
      end
  end.

Definition blankNodeWithComment (dec : unityYamlDecoder) : CandidateNode :=
  let node := createScalarNode_nil EmptyString in
  with_LeadingContent (leadingContent dec) node.

Definition with_decoder (d : yamlDecoder) (dec : unityYamlDecoder) : unityYamlDecoder :=
  mkDecoder d (prefs dec) (leadingContent dec) (bufferRead dec) (anchorMap dec)
    (readAnything dec) (firstFile dec) (documentIndex dec).
Definition with_readAnything (b : bool) (dec : unityYamlDecoder) : unityYamlDecoder :=
  mkDecoder (decoder dec) (prefs dec) (leadingContent dec) (bufferRead dec) (anchorMap dec)
    b (firstFile dec) (documentIndex dec).
Definition with_leadingContent (s : string) (dec : unityYamlDecoder) : unityYamlDecoder :=
  mkDecoder (decoder dec) (prefs dec) s (bufferRead dec) (anchorMap dec)
    (readAnything dec) (firstFile dec) (documentIndex dec).
Definition with_anchorMap (a : AnchorMap) (dec : unityYamlDecoder) : unityYamlDecoder :=
  mkDecoder (decoder dec) (prefs dec) (leadingContent dec) (bufferRead dec) a
    (readAnything dec) (firstFile dec) (documentIndex dec).
Definition with_documentIndex (i : N) (dec : unityYamlDecoder) : unityYamlDecoder :=
  mkDecoder (decoder dec) (prefs dec) (leadingContent dec) (bufferRead dec) (anchorMap dec)
    (readAnything dec) (firstFile dec) i.

(** [Decode]: the node or nil, the error or nil, and the session after
    the call. *)
Definition Decode (dec : unityYamlDecoder)
    : option CandidateNode * option error * unityYamlDecoder :=
  let '(got, d) := yaml_Decode (decoder dec) in
  let dec := with_decoder d dec in
  match got with
  | inr err =>
      if is_EOF err && nonempty (leadingContent dec) && negb (readAnything dec) then
        let dec := with_readAnything true dec in
        (Some (blankNodeWithComment dec), None, dec)
      else if is_EOF err && negb (LeadingContentPreProcessing (prefs dec))
              && negb (readAnything dec) then
        let dec := with_readAnything true dec in
        let dec := with_leadingContent (bufferRead dec) dec in
        if nonempty (leadingContent dec)
        then (Some (blankNodeWithComment dec), None, dec)
        else (None, Some err, dec)
      else (None, Some err, dec)
  | inl yamlNode =>
      let '(err, candidateNode, anchors) :=
        UnmarshalYAML (candidate_at (documentIndex dec)) yamlNode (anchorMap dec) in
      let dec := with_anchorMap anchors dec in
      match err with
      | Some e => (None, Some e, dec)
      | None =>
          let candidateNode :=
            mkCandidate (kind candidateNode) (Tag candidateNode) (Value candidateNode)
              (NodeHeadComment yamlNode +:+ HeadComment candidateNode)
              (NodeFootComment yamlNode +:+ FootComment candidateNode)
              (if nonempty (leadingContent dec) then leadingContent dec
               else LeadingContent candidateNode)
              (document candidateNode) in
          let dec := if nonempty (leadingContent dec)
                     then with_leadingContent EmptyString dec else dec in
          let dec := with_readAnything true dec in
          let dec := with_documentIndex ((documentIndex dec + 1) mod 2 ^ 64)%N dec in
          (Some candidateNode, None, dec)
      end
  end.

(** The results of [n] calls of [Decode] in a row, and the session after
    them. *)
Fixpoint decode_many (n : nat) (dec : unityYamlDecoder)
    : list (option CandidateNode * option error) * unityYamlDecoder :=
  match n with
  | O => ([], dec)
  | S n' =>
      let '(node, err, dec1) := Decode dec in
      let '(rest, dec2) := decode_many n' dec1 in
      ((node, err) :: rest, dec2)
  end.

End Decoder.

(** ** unity_helpers.go *)

(** [Properties] is a [map[string]interface{}]: the type [V] stands for
    what the interface values hold ([string] for every node the parser
    builds). *)
Record UnityGraphNode (V : Type) := mkNode {
  FileID : string;
  Name : string;
  ScriptType : string;
  Properties : gmap string V;
  SerializedData : string
}.
Arguments mkNode {V}.
Arguments FileID {V}.
Arguments Name {V}.
Arguments ScriptType {V}.
Arguments Properties {V}.
Arguments SerializedData {V}.

(** [if len(m) > 1 { x = m[1] }] on an [x] that starts empty. *)
Definition group1 (m : list string) : string :=
  match m with
  | _ :: g :: _ => g
  | _ => EmptyString
  end.

Definition fileIDPattern : re :=
  cat [Lit "!u!"; Plus digit; Star space; Lit "&"; Cap (cat [Opt (Lit "-"); Plus digit])].
Definition namePattern : re := cat [Lit "m_Name:"; Star space; Cap (Plus dot)].
Definition scriptPattern : re :=
  cat [Lit "m_Script:"; Star space; Lit "{fileID:"; Star space; Plus digit; Lit ",";
       Star space; Lit "guid:"; Star space; Cap (Plus hexlow)].
Definition serializedPattern : re :=
  cat [Lit "serializedData:"; Star space; Lit "'"; Cap (Star not_quote); Lit "'"].

(** The pattern [<key>:\s*(.+)] of a catalog entry. *)
Definition keyPattern (key : string) : re :=
  cat [Lit (key +:+ ":"); Star space; Cap (Plus dot)].

Definition catalog (keys : list string) : list (string * re) :=
  map (fun k => (k, keyPattern k)) keys.

Definition propertyPatterns : list (string * re) :=
  catalog ["Extents"; "GridCellSize"; "MinimumDistance"; "RoadPoseDistance";
           "Spacing"; "Jittering"; "EligibleForInjection"].

(** The loop over a pattern table: each pattern that matches sets its
    property.  The table is a Go map, ranged over in no fixed order; its
    keys are distinct, so the order does not show in the result. *)
Definition collect (patterns : list (string * re)) (doc : string) : gmap string string :=
  foldl (fun properties '(propName, pattern) =>
           match FindStringSubmatch pattern doc with
           | _ :: g :: _ => <[propName := strs.TrimSpace g]> properties
           | _ => properties
           end) ∅ patterns.

(** The body of the loop of [ParseUnityGraphNodes] past the blank-segment
    test: the node built from a segment, if it has a name. *)
Definition parseDocument (doc : string) : option (UnityGraphNode string) :=
  let fileID := group1 (FindStringSubmatch fileIDPattern doc) in
  let name :=
    match FindStringSubmatch namePattern doc with
    | _ :: g :: _ => strs.TrimSpace g
    | _ => EmptyString
    end in
  let scriptType := group1 (FindStringSubmatch scriptPattern doc) in
  let properties := collect propertyPatterns doc in
  let serializedData := group1 (FindStringSubmatch serializedPattern doc) in
  if nonempty name
  then Some (mkNode fileID name scriptType properties serializedData)
  else None.

Definition ParseUnityGraphNodes (content : string)
    : list (UnityGraphNode string) * option error :=
  let documents := strs.Split content "---" in
  (foldl (fun nodes doc =>
            if String.eqb (strs.TrimSpace doc) EmptyString then nodes
            else match parseDocument doc with
                 | Some node => nodes ++ [node]
                 | None => nodes
                 end) [] documents,
   None).

(** [typePattern] is the pattern as a tree; reading pattern text is not
    part of this development. *)
Definition FilterNodesByType {V} (nodes : list (UnityGraphNode V)) (typePattern : re)
    : list (UnityGraphNode V) :=
  foldl (fun filtered node =>
           if MatchString typePattern (Name node) then filtered ++ [node] else filtered)
        [] nodes.

(** (?i)(spawner|pose.*set) *)
Definition spawnerPattern : re :=
  Cap (Alt (LitI "spawner") (cat [LitI "pose"; Star dot; LitI "set"])).

Definition distanceWords : list string :=
  ["distance"; "extent"; "spacing"; "cell"; "radius"].

Section Lowering.
(** [strings.ToLower], which lowers every letter Unicode knows. *)
Variable ToLower : string -> string.

Definition distanceKey (key : string) : bool :=
  strs.Contains (ToLower key) "distance"
  || strs.Contains (ToLower key) "extent"
  || strs.Contains (ToLower key) "spacing"
  || strs.Contains (ToLower key) "cell"
  || strs.Contains (ToLower key) "radius".

(** The inner loop: the properties whose key passes the test. *)
Definition distanceProps {V} (props : gmap string V) : gmap string V :=
  filter (fun kv => distanceKey (fst kv) = true) props.

(** fmt.Sprintf("%s (%s)", node.Name, node.FileID) *)
Definition entryKey {V} (node : UnityGraphNode V) : string :=
  Name node +:+ " (" +:+ FileID node +:+ ")".

Definition ExtractSpawnerDistances {V} (nodes : list (UnityGraphNode V))
    : gmap string (gmap string V) :=
  let spawnerNodes := FilterNodesByType nodes spawnerPattern in
  foldl (fun spawnerDistances node =>
           if bool_decide (Properties node = ∅) then spawnerDistances
           else
             let props := distanceProps (Properties node) in
             if bool_decide (props = ∅) then spawnerDistances
             else <[entryKey node := props]> spawnerDistances)
        ∅ spawnerNodes.

End Lowering.

Fixpoint GetNodeByFileID {V} (nodes : list (UnityGraphNode V)) (fileID : string)
    : option (UnityGraphNode V) :=
  match nodes with
  | [] => None
  | node :: rest =>
      if String.eqb (FileID node) fileID then Some node else GetNodeByFileID rest fileID
  end.

(** [regexp.MustCompile(fmt.Sprintf(`\{fileID:\s*%s\}`, node.FileID))]: the
    id is pasted into the pattern text as it is.  An id made of digits and
    [-] (what [fileIDPattern] captures, or nothing) stands for itself
    there.  Any other id would be read as pattern syntax, which is outside
    this development: [None]. *)
Definition plain_id (id : string) : bool :=
  forallb (fun c => digit c || Ascii.eqb c "-"%char) (list_ascii_of_string id).

Definition referencePattern (id : string) : option re :=
  if plain_id id then Some (cat [Lit "{fileID:"; Star space; Lit id; Lit "}"]) else None.

(** The body of the loop over the matches: the ids found so far and the
    match [(from, to)]. *)
Definition connection (content : string) (connections : list string) (m : Z * Z)
    : list string :=
  let beforeMatch := slice_to content (fst m) in
  let lastDocStart := strs.LastIndex beforeMatch "---" in
  if 0 <=? lastDocStart then
    let nextDocStart := strs.Index (slice_from content (lastDocStart + 3)) "---" in
    let docContent :=
      if 0 <=? nextDocStart
      then slice content lastDocStart (lastDocStart + 3 + nextDocStart)
      else slice_from content lastDocStart in
    match FindStringSubmatch fileIDPattern docContent with
    | _ :: g :: _ => connections ++ [g]
    | _ => connections
    end
  else connections.

Definition GetNodeConnections {V} (content : string) (node : UnityGraphNode V)
    : option (list string) :=
  match referencePattern (FileID node) with
  | None => None
  | Some pattern =>
      let matches := FindAllStringIndex pattern content in
      Some (foldl (connection content) [] matches)
  end.

(** ** cmd/unity_extract.go *)

(** What a command does to the outside: it reads files and prints.  A
    print keeps its format (the Go literal, escapes as written) and its
    arguments apart.  Where the program ranges over a Go map to print, the
    order is Go's to choose; the events are listed in the order of the
    map's keys here. *)
Inductive arg : Type := str (s : string) | int (n : Z).

Inductive event : Type :=
| ReadFile (filename : string)
| Printf (format : string) (args : list arg)
| Println (args : list arg).

(** How a call ends: it returns an error or nil, or it panics. *)
Inductive exit : Type :=
| Return (err : option error)
| Panic (reason : string).

Definition message (e : error) : string :=
  match e with
  | EOF => "EOF"
  | Errorf msg => msg
  end.

(** The five patterns of [extractSpawners]. *)
Definition spawnerPatterns : list (string * re) :=
  catalog ["Extents"; "GridCellSize"; "MinimumDistance"; "RoadPoseDistance"; "Spacing"].

Definition print_properties (properties : gmap string string) : list event :=
  map (fun kv => Printf "  %s: %s\n" [str (fst kv); str (snd kv)]) (map_to_list properties).

(** The body of the loop of [extractSpawners], on the counter and what
    has been printed so far. *)
Definition spawnersBody (st : Z * list event) (doc : string) : Z * list event :=
  if strs.Contains doc "Spawner" && strs.Contains doc "m_Name:" then
    match FindStringSubmatch namePattern doc with
    | _ :: g :: _ =>
        let name := strs.TrimSpace g in
        let properties := collect spawnerPatterns doc in
        if bool_decide (properties = ∅) then st
        else (fst st + 1,
              snd st ++ [Printf "%s:\n" [str name]] ++ print_properties properties
                     ++ [Println []])
    | _ => st
    end
  else st.

Definition extractSpawners (content : string) : list event * exit :=
  let documents := strs.Split content "---" in
  let '(spawnerCount, out) := foldl spawnersBody (0, []) documents in
  (out ++ (if spawnerCount =? 0
           then [Println [str "No spawners with distance properties found"]]
           else [Printf "Total spawners found: %d\n" [int spawnerCount]]),
   Return None).

Definition nodesBody (st : Z * list event) (doc : string) : Z * list event :=
  if strs.Contains doc "m_Name:" then
    match FindStringSubmatch namePattern doc with
    | _ :: g :: _ => (fst st + 1, snd st ++ [Printf "- %s\n" [str (strs.TrimSpace g)]])
    | _ => st
    end
  else st.

Definition extractNodes (content : string) : list event * exit :=
  let documents := strs.Split content "---" in
  let '(nodeCount, out) := foldl nodesBody (0, []) documents in
  (out ++ [Printf "\nTotal nodes: %d\n" [int nodeCount]], Return None).

(** [regexp.MustCompile(fmt.Sprintf(`%s:\s*(.+)`, regexp.QuoteMeta(property)))]:
    quoted, the property stands for itself; the pattern text is rejected,
    and [MustCompile] panics, when it is not valid UTF-8. *)
Definition propertyPattern (property : string) : option re :=
  if ValidString property then Some (keyPattern property) else None.

Definition count_value (values : gmap string Z) (m : list string) : gmap string Z :=
  match m with
  | _ :: g :: _ =>
      let value := strs.TrimSpace g in
      <[value := default 0 (values !! value) + 1]> values
  | _ => values
  end.

Definition extractProperty (content property : string) : list event * exit :=
  match propertyPattern property with
  | None => ([], Panic "regexp: Compile: invalid UTF-8")
  | Some pattern =>
      let matches := FindAllStringSubmatch pattern content in
      match matches with
      | [] => ([Printf "Property '%s' not found\n" [str property]], Return None)
      | _ =>
          let values := foldl count_value ∅ matches in
          (Printf "Property '%s' values:\n" [str property]
             :: map (fun kv => Printf "  %s: %d occurrences\n" [str (fst kv); int (snd kv)])
                    (map_to_list values),
           Return None)
      end
  end.

(** [os.ReadFile] against a file system: the content of a file, or the
    error of the attempt. *)
Definition FileSystem : Type := string -> string + error.

(** [unityExtractFunc]; [propertyName] is the package variable the
    [--property] flag sets.  The command is registered with
    [cobra.MinimumNArgs(2)], so it is called with two arguments or more. *)
Definition unityExtractFunc (fs : FileSystem) (propertyName : string) (args : list string)
    : list event * exit :=
  match args with
  | extractType :: filename :: _ =>
      match fs filename with
      | inr err =>
          ([ReadFile filename],
           Return (Some (Errorf ("failed to read file: " +:+ message err))))
      | inl content =>
          let '(out, res) :=
            if String.eqb extractType "spawners" then extractSpawners content
            else if String.eqb extractType "nodes" then extractNodes content
            else if String.eqb extractType "property" then
              if String.eqb propertyName EmptyString
              then ([], Return (Some (Errorf "property extraction requires --property flag")))
              else extractProperty content propertyName
            else ([], Return (Some (Errorf ("unknown extraction type: " +:+ extractType))))
          in (ReadFile filename :: out, res)
      end
  | _ => ([], Panic "index out of range")
  end.

(** ** Notions the statements use *)

(** The lines of a text: what lies between its line feeds. *)
Fixpoint lines (s : string) : list string :=
  match s with
  | EmptyString => [EmptyString]
  | String c s' =>
      if Ascii.eqb c LF then EmptyString :: lines s'
      else match lines s' with
           | l :: ls => String c l :: ls
           | [] => [String c EmptyString]
           end
  end.



Definition mem (c : ascii) (s : string) : Prop := In c (list_ascii_of_string s).




(** The look-ahead is one of the five kinds [step] classifies; when it is
    not, the rest of the input is read in bulk. *)
Definition structural (peekBytes : string) : bool :=
  first_is_LF peekBytes
  || MatchString tagDirectiveLineRegEx peekBytes
  || String.eqb peekBytes "--- "
  || String.eqb peekBytes ("---" +:+ nl)
  || MatchString commentLineRegEx peekBytes
  || MatchString yamlDirectiveLineRegEx peekBytes.


(** The states the loop of [processReadStream] passes through. *)
Inductive reaches (st0 : scan) (rd0 : bufio.Reader) : scan -> bufio.Reader -> Prop :=
| reaches_start : reaches st0 rd0 st0 rd0
| reaches_next st rd st' rd' :
    reaches st0 rd0 st rd -> step st rd = Next st' rd' -> reaches st0 rd0 st' rd'.





(** The spec's words for [referencingDocumentIds]: the document around a
    position runs from the nearest separator token before it to the next
    token after that one, or to the end; its identity header is the first
    [!u!<digits> &<id>] in it. *)
Definition enclosingDocument (content : string) (pos : Z) : option string :=
  let d := strs.LastIndex (slice_to content pos) "---" in
  if d <? 0 then None
  else
    let n := strs.Index (slice_from content (d + 3)) "---" in
    Some (if n <? 0 then slice_from content d else slice content d (d + 3 + n)).

Definition identityHeader (doc : string) : option string :=
  match FindStringSubmatch fileIDPattern doc with
  | _ :: g :: _ => Some g
  | _ => None
  end.

Definition referencingId (content : string) (m : Z * Z) : option string :=
  match enclosingDocument content (fst m) with
  | Some doc => identityHeader doc
  | None => None
  end.

(** The name [ParseUnityGraphNodes] finds in a segment, empty when it
    finds none. *)
Definition segmentName (doc : string) : string :=
  match FindStringSubmatch namePattern doc with
  | _ :: g :: _ => strs.TrimSpace g
  | _ => EmptyString
  end.

(** The extraction kinds, and the two ways to misuse the command. *)
Definition known_kind (extractType : string) : bool :=
  existsb (String.eqb extractType) ["spawners"; "nodes"; "property"].

Definition misuse (propertyName extractType : string) : bool :=
  negb (known_kind extractType)
  || String.eqb extractType "property" && String.eqb propertyName EmptyString.

Definition is_ReadFile (ev : event) : bool :=
  match ev with ReadFile _ => true | _ => false end.

Definition failed (r : exit) : bool :=
  match r with Return (Some _) => true | _ => false end.

Definition spawnerKeys : list string := map fst spawnerPatterns.

(** Where an event of [extractSpawners] comes from: a heading is the name
    of a segment that has [Spawner] and [m_Name:] in it, a property line
    has a key of the catalog, and the rest is the blank line and the
    summary. *)
Definition spawner_event (content : string) (ev : event) : Prop :=
  (exists doc, In doc (strs.Split content "---")
     /\ strs.Contains doc "Spawner" = true /\ strs.Contains doc "m_Name:" = true
     /\ ev = Printf "%s:\n" [str (segmentName doc)])
  \/ (exists k v, In k spawnerKeys /\ ev = Printf "  %s: %s\n" [str k; str v])
  \/ ev = Println []
  \/ ev = Println [str "No spawners with distance properties found"]
  \/ (exists n, ev = Printf "Total spawners found: %d\n" [int n]).










(** An entry of the map of [ExtractSpawnerDistances] comes from a node of
    the list and is that node's qualifying properties, of which there are
    some. *)
Definition entry_of {V} (ToLower : string -> string) (spawnerNodes : list (UnityGraphNode V))
    (k : string) (props : gmap string V) : Prop :=
  props <> ∅
  /\ exists node, In node spawnerNodes /\ k = entryKey node
                  /\ props = distanceProps ToLower (Properties node).

(** The sentence about [referencingDocumentIds], taken at its word: as
    many ids as there are occurrences of the reference. *)
Definition one_id_per_occurrence {V} (content : string) (node : UnityGraphNode V) : Prop :=
  forall pattern ids,
    referencePattern (FileID node) = Some pattern ->
    GetNodeConnections content node = Some ids ->
    length ids = length (FindAllStringIndex pattern content).

(** The sentence about command misuse, taken at its word: the call fails
    and no file has been read. *)
Definition misuse_fails_unread (fs : FileSystem) (propertyName extractType filename : string)
    : Prop :=
  misuse propertyName extractType = true ->
  failed (snd (unityExtractFunc fs propertyName [extractType; filename])) = true
  /\ existsb is_ReadFile (fst (unityExtractFunc fs propertyName [extractType; filename])) = false.

(** A file system with one file in it. *)
Definition one_file (name content : string) : FileSystem :=
  fun filename =>
    if String.eqb filename name then inl content
    else inr (Errorf ("open " +:+ filename +:+ ": no such file or directory")).
(** ** Notions of the further properties *)

(** A result of the loop of [processReadStream], had the loop been
    entered with [lead] and [content] already in its two builders. *)
Definition carried (lead content : string) (r : normalized * bufio.Reader)
    : normalized * bufio.Reader :=
  (Normalized (content +:+ stream (fst r)) (lead +:+ leadingOf (fst r)) (failure (fst r)),
   snd r).

Definition shift (lead content : string) (o : outcome) : outcome :=
  match o with
  | Next st rd =>
      Next (Scan (isUnityYaml st) (lead +:+ sb st) (content +:+ contentBuffer st)) rd
  | Done res rd => let '(res', rd') := carried lead content (res, rd) in Done res' rd'
  end.

(** The loop of [processReadStream] with the dialect on and both builders
    empty: how the text after Unity's tag directive is processed. *)
Definition dialectStream (reader : bufio.Reader) : option (normalized * bufio.Reader) :=
  loop (S (String.length (bufio.unread reader))) (Scan true EmptyString EmptyString) reader.

(** A printable ASCII byte that is no blank. *)
Definition graphic (c : ascii) : bool := ((33 <=? code c) && (code c <=? 126))%N.

(** Collaborators to run the decoder on texts with documents in them:
    this engine takes every line that is not empty for a document, and a
    document is converted to a string scalar that holds the line. *)
Definition line_engine : Collaborators :=
  {| Node := string;
     AnchorMap := unit;
     make_anchors := tt;
     documents := fun text => (List.filter nonempty (lines text), EOF);
     NodeHeadComment := fun _ => EmptyString;
     NodeFootComment := fun _ => EmptyString;
     UnmarshalYAML := fun c n a =>
       (None,
        mkCandidate ScalarNode "!!str" n (HeadComment c) (FootComment c)
          (LeadingContent c) (document c),
        a);
     createScalarNode_nil := fun s =>
       mkCandidate ScalarNode "!!null" s EmptyString EmptyString EmptyString 0%N;
     createScalarNode_kind := fun _ => eq_refl;
     createScalarNode_value := fun _ => eq_refl |}.

(** Two sessions that go the same way whatever their preferences are:
    they agree on everything [Decode] reads but the preferences, their
    tee buffers are empty, and they may differ on whether something has
    been read only when there is neither leading content nor a document
    left. *)
Definition alike `{E : Collaborators} (d1 d2 : unityYamlDecoder) : Prop :=
  decoder d1 = decoder d2
  /\ anchorMap d1 = anchorMap d2
  /\ documentIndex d1 = documentIndex d2
  /\ leadingContent d1 = leadingContent d2
  /\ bufferRead d1 = EmptyString
  /\ bufferRead d2 = EmptyString
  /\ (readAnything d1 = readAnything d2
      \/ (leadingContent d1 = EmptyString /\ waiting (decoder d1) = [])).

(** A session with other preferences. *)
Definition with_prefs `{E : Collaborators} (p : YamlPreferences) (dec : unityYamlDecoder)
    : unityYamlDecoder :=
  mkDecoder (decoder dec) p (leadingContent dec) (bufferRead dec) (anchorMap dec)
    (readAnything dec) (firstFile dec) (documentIndex dec).

(** The last byte of a text. *)
Fixpoint last_byte (s : string) : option ascii :=
  match s with
  | EmptyString => None
  | String c EmptyString => Some c
  | String _ s' => last_byte s'
  end.

(** A decimal number with an optional minus sign: what [(-?\d+)]
    captures. *)
Definition all_digits (s : string) : bool := forallb digit (list_ascii_of_string s).

Definition signed_decimal (s : string) : bool :=
  match s with
  | EmptyString => false
  | String c d =>
      if Ascii.eqb c "-"%char then nonempty d && all_digits d else all_digits s
  end.

(** A pattern without a capturing group. *)
Fixpoint capture_free (r : re) : bool :=
  match r with
  | Cap _ => false
  | Seq r1 r2 | Alt r1 r2 => capture_free r1 && capture_free r2
  | Opt r1 => capture_free r1
  | _ => true
  end.

(** The value a catalog pattern finds for a key in a segment. *)
Definition propertyValue (key doc : string) : option string :=
  match FindStringSubmatch (keyPattern key) doc with
  | _ :: g :: _ => Some (strs.TrimSpace g)
  | _ => None
  end.

(** The name the command finds in a segment, if it finds one. *)
Definition listedName (doc : string) : option string :=
  match FindStringSubmatch namePattern doc with
  | _ :: g :: _ => Some (strs.TrimSpace g)
  | _ => None
  end.

(** What [extractSpawners] prints for a segment, if it prints anything:
    the heading, the property lines and a blank line. *)
Definition spawnerBlock (doc : string) : option (list event) :=
  if strs.Contains doc "Spawner" then
    match listedName doc with
    | Some name =>
        if bool_decide (collect spawnerPatterns doc = ∅) then None
        else Some ([Printf "%s:\n" [str name]]
                   ++ print_properties (collect spawnerPatterns doc) ++ [Println []])
    | None => None
    end
  else None.

(** The value of a match of [extractProperty], and how many of the
    matches have a given value. *)
Definition valueOf (m : list string) : option string :=
  match m with
  | _ :: g :: _ => Some (strs.TrimSpace g)
  | _ => None
  end.

Definition occurrences (v : string) (ms : list (list string)) : nat :=
  length (List.filter (fun m => bool_decide (valueOf m = Some v)) ms).

(** How a call of the command on a readable file ends. *)
Definition verdict (propertyName extractType : string) : exit :=
  if String.eqb extractType "spawners" || String.eqb extractType "nodes" then Return None
  else if String.eqb extractType "property" then
    if String.eqb propertyName EmptyString
    then Return (Some (Errorf "property extraction requires --property flag"))
    else if ValidString propertyName then Return None
         else Panic "regexp: Compile: invalid UTF-8"
  else Return (Some (Errorf ("unknown extraction type: " +:+ extractType))).

(** A pattern that does not ask where the text starts. *)
Fixpoint unanchored (r : re) : bool :=
  match r with
  | Bot => false
  | Seq r1 r2 | Alt r1 r2 => unanchored r1 && unanchored r2
  | Opt r1 | Cap r1 => unanchored r1
  | _ => true
  end.

(** The text does not go on with a byte of the class: a greedy
    repetition of the class stops in front of it. *)
Definition stops (p : ascii -> bool) (s : string) : bool :=
  match s with
  | String c _ => negb (p c)
  | EmptyString => true
  end.

Definition all_of (p : ascii -> bool) (s : string) : bool :=
  forallb p (list_ascii_of_string s).

(** ** The yq operators [unity_nodes] and [unity_spawners] *)

Module ops.

(** Modelled from the spec: the operators are handed a context with the
    matching nodes, each either a node whose associated filename is set or
    a node holding inline text.  Of a matching node they read the
    filename, the kind and the value. *)
Record Candidate := mkCandidate { filename : string; kind : Kind; Value : string }.

Section Operators.
(** What the operators build is made with two things the files at hand
    do not define: [createScalarNode(value, stringValue)], called on two
    strings, and the literal [&CandidateNode{Kind: MappingNode, Tag:
    "!!map", Content: ...}], here [mapNode] of the content. *)
Variable Out : Type.
Variable createScalarNode : string -> string -> Out.
Variable mapNode : list Out -> Out.
Variable fs : FileSystem.
Variable ToLower : string -> string.

(** The text an operator works on: the file of the candidate, or the
    value of a scalar, or nothing. *)
Definition content (candidate : Candidate) : string + error :=
  if nonempty (filename candidate) then
    match fs (filename candidate) with
    | inl fileBytes => inl fileBytes
    | inr err => inr (Errorf ("failed to read unity file: " +:+ message err))
    end
  else inl (match kind candidate with
            | ScalarNode => Value candidate
            | _ => EmptyString
            end).

(** A key and a value appended for every entry of a Go map, in the order
    of the keys here. *)
Definition entries (properties : gmap string string) : list Out :=
  flat_map (fun kv => [createScalarNode (fst kv) "!!str"; createScalarNode (snd kv) "!!str"])
           (map_to_list properties).

(** The key node and the properties node of a graph node. *)
Definition nodeEntry (node : UnityGraphNode string) : list Out :=
  [createScalarNode (Name node) "!!str";
   mapNode ((if nonempty (FileID node)
             then [createScalarNode "FileID" "!!str"; createScalarNode (FileID node) "!!str"]
             else [])
            ++ entries (Properties node))].

Definition graphNodesMap (text : string) : Out + error :=
  match ParseUnityGraphNodes text with
  | (_, Some err) => inr err
  | (nodes, None) => inl (mapNode (flat_map nodeEntry nodes))
  end.

Definition spawnerEntry (kv : string * gmap string string) : list Out :=
  [createScalarNode (fst kv) "!!str"; mapNode (entries (snd kv))].

Definition spawnerDistancesMap (text : string) : Out + error :=
  match ParseUnityGraphNodes text with
  | (_, Some err) => inr err
  | (nodes, None) =>
      inl (mapNode (flat_map spawnerEntry
                      (map_to_list (ExtractSpawnerDistances ToLower nodes))))
  end.

(** The loop over the matching nodes: the first error ends it and the
    results so far are dropped. *)
Fixpoint each (build : string -> Out + error) (matching : list Candidate) (results : list Out)
    : list Out + error :=
  match matching with
  | [] => inl results
  | candidate :: rest =>
      match content candidate with
      | inr err => inr err
      | inl text =>
          match build text with
          | inr err => inr err
          | inl mapNode => each build rest (results ++ [mapNode])
          end
      end
  end.

Definition unityGraphNodesOperator (matching : list Candidate) : list Out + error :=
  each graphNodesMap matching [].

Definition unitySpawnerDistancesOperator (matching : list Candidate) : list Out + error :=
  each spawnerDistancesMap matching [].

(** The text of a candidate whose file, if it has one, can be read. *)
Definition text (candidate : Candidate) : string :=
  match content candidate with
  | inl t => t
  | inr _ => EmptyString
  end.

Definition readable (candidate : Candidate) : Prop :=
  nonempty (filename candidate) = true -> exists t, fs (filename candidate) = inl t.

End Operators.

Arguments entries {Out}.
Arguments nodeEntry {Out}.
Arguments graphNodesMap {Out}.
Arguments spawnerEntry {Out}.
Arguments spawnerDistancesMap {Out}.
Arguments each {Out}.
Arguments unityGraphNodesOperator {Out}.
Arguments unitySpawnerDistancesOperator {Out}.

End ops.


(** * Properties *)

(** ** Byte strings *)

Arguments strs.HasPrefix : simpl never.

Lemma sapp_nil_l (s : string) : EmptyString +:+ s = s.
Proof. reflexivity. Qed.

Lemma sapp_cons (c : ascii) (s t : string) : String c s +:+ t = String c (s +:+ t).
Proof. reflexivity. Qed.

Lemma sapp_nil_r (s : string) : s +:+ EmptyString = s.
Proof. induction s as [|c s IH]; [reflexivity|]. rewrite sapp_cons, IH. reflexivity. Qed.

Lemma sapp_assoc (s t u : string) : (s +:+ t) +:+ u = s +:+ (t +:+ u).
Proof.
  induction s as [|c s IH]; [reflexivity|].
  rewrite !sapp_cons, IH. reflexivity.
Qed.

Lemma slength_app (s t : string) :
  String.length (s +:+ t) = (String.length s + String.length t)%nat.
Proof.
  induction s as [|c s IH]; [reflexivity|].
  rewrite sapp_cons. simpl. rewrite IH. reflexivity.
Qed.

Lemma take_drop (n : nat) (s : string) : take n s +:+ drop n s = s.
Proof.
  revert s. induction n as [|n IH]; intros [|c s]; try reflexivity.
  simpl. rewrite sapp_cons, IH. reflexivity.
Qed.

Lemma length_take (n : nat) (s : string) :
  String.length (take n s) = Nat.min n (String.length s).
Proof.
  revert s. induction n as [|n IH]; intros [|c s]; try reflexivity.
  simpl. rewrite IH. reflexivity.
Qed.

Lemma length_drop (n : nat) (s : string) :
  String.length (drop n s) = (String.length s - n)%nat.
Proof.
  revert s. induction n as [|n IH]; intros [|c s]; try reflexivity.
  simpl. apply IH.
Qed.

Lemma drop_app_length (s t : string) : drop (String.length s) (s +:+ t) = t.
Proof. induction s as [|c s IH]; [reflexivity|]. rewrite sapp_cons. simpl. exact IH. Qed.

Lemma take_app_length (s t : string) : take (String.length s) (s +:+ t) = s.
Proof.
  induction s as [|c s IH]; [destruct t; reflexivity|].
  rewrite sapp_cons. simpl. rewrite IH. reflexivity.
Qed.

Lemma nonempty_true (s : string) : nonempty s = true <-> s <> EmptyString.
Proof. destruct s; simpl; split; congruence. Qed.

Lemma eqb_empty (s : string) : String.eqb s EmptyString = negb (nonempty s).
Proof. destruct s; reflexivity. Qed.

Lemma HasPrefix_spec (s p : string) :
  strs.HasPrefix s p = true <-> exists r, s = p +:+ r.
Proof.
  unfold strs.HasPrefix. revert s.
  induction p as [|a p IH]; intros s; simpl.
  - split; [intros _; exists s; reflexivity | intros _; destruct s; reflexivity].
  - destruct s as [|b s]; simpl.
    + split; [discriminate | intros [r Hr]; rewrite sapp_cons in Hr; discriminate].
    + destruct (ascii_dec a b) as [->|Hne].
      * rewrite IH. split; intros [r Hr]; exists r.
        -- rewrite sapp_cons, Hr. reflexivity.
        -- rewrite sapp_cons in Hr. congruence.
      * split; [discriminate|]. intros [r Hr]. rewrite sapp_cons in Hr. congruence.
Qed.

Lemma HasPrefix_app (p r : string) : strs.HasPrefix (p +:+ r) p = true.
Proof. apply HasPrefix_spec. exists r. reflexivity. Qed.

Lemma HasPrefix_drop (s p : string) :
  strs.HasPrefix s p = true -> s = p +:+ drop (String.length p) s.
Proof.
  intros [r ->]%HasPrefix_spec. rewrite drop_app_length. reflexivity.
Qed.

Lemma HasPrefix_nil (s : string) : strs.HasPrefix s EmptyString = true.
Proof. apply HasPrefix_spec. exists s. reflexivity. Qed.

Lemma take_eq_prefix (n : nat) (s x : string) :
  take n s = x -> strs.HasPrefix s x = true.
Proof.
  intros <-. apply HasPrefix_spec. exists (drop n s). symmetry. apply take_drop.
Qed.

Lemma HasPrefix_take (n : nat) (s x : string) :
  strs.HasPrefix s x = true -> String.length x = n -> take n s = x.
Proof.
  intros [r ->]%HasPrefix_spec <-. apply take_app_length.
Qed.

Lemma Contains_prefix (s sub : string) :
  strs.HasPrefix s sub = true -> strs.Contains s sub = true.
Proof. intros H. destruct s; simpl; rewrite H; reflexivity. Qed.

Lemma Contains_cons (c : ascii) (s sub : string) :
  strs.Contains s sub = true -> strs.Contains (String c s) sub = true.
Proof. intros H. simpl. rewrite H. apply orb_true_r. Qed.

Lemma Contains_app_r (p s sub : string) :
  strs.Contains s sub = true -> strs.Contains (p +:+ s) sub = true.
Proof.
  intros H. induction p as [|c p IH]; [exact H|].
  rewrite sapp_cons. apply Contains_cons, IH.
Qed.

Lemma Contains_spec (s sub : string) :
  strs.Contains s sub = true <-> exists p r, s = p +:+ sub +:+ r.
Proof.
  split.
  - induction s as [|c s IH]; simpl; intros H.
    + rewrite orb_false_r in H. apply HasPrefix_spec in H as [r Hr].
      exists EmptyString, r. exact Hr.
    + apply orb_true_iff in H as [H|H].
      * apply HasPrefix_spec in H as [r Hr]. exists EmptyString, r. exact Hr.
      * destruct (IH H) as (p & r & ->). exists (String c p), r. reflexivity.
  - intros (p & r & ->). apply Contains_app_r, Contains_prefix, HasPrefix_app.
Qed.

Lemma mem_cons (c a : ascii) (s : string) : mem c (String a s) <-> a = c \/ mem c s.
Proof. reflexivity. Qed.

Lemma mem_app (c : ascii) (s t : string) : mem c (s +:+ t) <-> mem c s \/ mem c t.
Proof.
  induction s as [|a s IH].
  - rewrite sapp_nil_l. unfold mem at 2. simpl. tauto.
  - rewrite sapp_cons, !mem_cons, IH. tauto.
Qed.



(** ** The library models do what their names say *)

Lemma drop_drop (i j : nat) (s : string) : drop j (drop i s) = drop (i + j) s.
Proof.
  revert s. induction i as [|i IH]; intros s; [reflexivity|].
  destruct s as [|c s]; [destruct j; reflexivity|]. cbn [drop Nat.add]. apply IH.
Qed.

Lemma split_go_cons (sep : string) (skip : nat) (cur s : string) :
  exists x rest, strs.split_go sep skip cur s = x :: rest.
Proof.
  revert skip cur. induction s as [|c s IH]; intros skip cur; cbn [strs.split_go]; [eauto|].
  destruct skip; [|apply IH]. destruct (strs.HasPrefix (String c s) sep); [eauto|apply IH].
Qed.

Lemma split_go_Join (sep : string) (skip : nat) (cur s : string) :
  sep <> EmptyString ->
  strs.Join (strs.split_go sep skip cur s) sep = cur +:+ drop skip s.
Proof.
  intros Hsep. revert skip cur. induction s as [|c s IH]; intros skip cur; cbn [strs.split_go].
  - destruct skip; cbn; rewrite sapp_nil_r; reflexivity.
  - destruct skip as [|k]; [|apply IH].
    destruct (strs.HasPrefix (String c s) sep) eqn:Hp.
    + destruct (split_go_cons sep (String.length sep - 1) EmptyString s) as (x & rest & Hrest).
      cbn [strs.Join]. rewrite Hrest, <- Hrest, IH, sapp_nil_l. cbn [drop].
      apply HasPrefix_drop in Hp.
      destruct sep as [|a sep]; [contradiction|].
      cbn [String.length drop] in *.
      replace (S (String.length sep) - 1)%nat with (String.length sep) by lia.
      rewrite Hp. reflexivity.
    + rewrite IH. cbn [drop]. rewrite sapp_assoc. reflexivity.
Qed.

(** Joining what [Split] returns gives the text back. *)
Lemma Split_Join (s sep : string) : strs.Join (strs.Split s sep) sep = s.
Proof.
  unfold strs.Split. destruct sep as [|a sep]; [reflexivity|].
  rewrite split_go_Join by discriminate. reflexivity.
Qed.

Lemma star_some {R : Type} (p : ascii -> bool) (k : string -> option R) (s : string) (x : R) :
  star p k s = Some x -> exists i, k (drop i s) = Some x.
Proof.
  induction s as [|c s IH]; simpl; intros H; [exists 0%nat; exact H|].
  destruct (p c); [|exists 0%nat; exact H].
  destruct (star p k s) as [y|] eqn:Hs; [|exists 0%nat; exact H].
  injection H as <-. destruct (IH eq_refl) as [i Hi]. exists (S i). exact Hi.
Qed.


Lemma fold_byte_drop (c : ascii) (s s' : string) :
  fold_byte c s = Some s' -> exists i, s' = drop i s.
Proof.
  unfold fold_byte. destruct s as [|d s]; [discriminate|].
  destruct (Ascii.eqb (strs.lower_byte c) (strs.lower_byte d)); [intros [= <-]; exists 1%nat; reflexivity|].
  destruct (_ && _); [intros [= <-]; exists 2%nat; reflexivity|].
  destruct (_ && _); [intros [= <-]; exists 3%nat; reflexivity|discriminate].
Qed.

Lemma fold_lit_drop (l s s' : string) :
  fold_lit l s = Some s' -> exists i, s' = drop i s.
Proof.
  revert s. induction l as [|c l IH]; intros s; cbn [fold_lit].
  - intros [= <-]. exists 0%nat. reflexivity.
  - destruct (fold_byte c s) as [s1|] eqn:Hc; [|discriminate].
    intros H. apply fold_byte_drop in Hc as [i ->]. apply IH in H as [j ->].
    exists (i + j)%nat. apply drop_drop.
Qed.

(** Whatever way [run] succeeds, it has handed the continuation an end
    part of the text. *)
Lemma run_drop {R : Type} (r : re) :
  forall (n : nat) (s : string) (caps : list string)
         (k : string -> list string -> option R) (x : R),
    run n r s caps k = Some x ->
    exists i caps', k (drop i s) caps' = Some x.
Proof.
  induction r as [| |l|l|p|p|r1 IH1 r2 IH2|r1 IH1 r2 IH2|r1 IH1|r1 IH1];
    intros n s caps k x H; cbn [run] in H.
  - exists 0%nat, caps. exact H.
  - destruct (String.length s =? n)%nat; [|discriminate]. exists 0%nat, caps. exact H.
  - destruct (strs.HasPrefix s l); [|discriminate]. eauto.
  - destruct (fold_lit l s) as [s'|] eqn:Hl; [|discriminate].
    apply fold_lit_drop in Hl as [i ->]. eauto.
  - apply star_some in H as [i Hi]. eauto.
  - destruct s as [|c s]; [discriminate|]. destruct (p c); [|discriminate].
    apply star_some in H as [i Hi]. exists (S i), caps. exact Hi.
  - apply IH1 in H as (i & caps1 & H). apply IH2 in H as (j & caps2 & H).
    rewrite drop_drop in H. eauto.
  - destruct (run n r1 s caps k) eqn:H1; [injection H as <-; eapply IH1; eassumption|].
    eapply IH2; eassumption.
  - destruct (run n r1 s caps k) eqn:H1; [injection H as <-; eapply IH1; eassumption|].
    exists 0%nat, caps. exact H.
  - apply IH1 in H as (i & caps1 & H). eauto.
Qed.

Lemma find_go_some (n : nat) (r : re) (s : string) (m : found) :
  find_go n r s = Some m -> exists p q, s = p +:+ q /\ match_here n r q = Some m.
Proof.
  induction s as [|c s IH]; cbn [find_go]; intros H.
  - destruct (match_here n r EmptyString) eqn:Hm; [|discriminate].
    exists EmptyString, EmptyString. split; [reflexivity|]. congruence.
  - destruct (match_here n r (String c s)) eqn:Hm.
    + exists EmptyString, (String c s). split; [reflexivity|]. congruence.
    + destruct (IH H) as (p & q & -> & Hq). exists (String c p), q. split; [reflexivity|exact Hq].
Qed.

Lemma match_here_Lit (n : nat) (l : string) (r : re) (q : string) :
  strs.HasPrefix q l = false -> match_here n (Seq (Lit l) r) q = None.
Proof. intros H. unfold match_here. cbn [run]. rewrite H. reflexivity. Qed.

(** A pattern that begins with a literal finds nothing in a text the
    literal does not occur in. *)
Lemma find_needs_literal (l : string) (r : re) (s : string) :
  strs.Contains s l = false -> find (Seq (Lit l) r) s = None.
Proof.
  intros Hno. destruct (find (Seq (Lit l) r) s) as [m|] eqn:Hfind; [|reflexivity].
  exfalso. apply find_go_some in Hfind as (p & q & -> & Hq).
  destruct (strs.HasPrefix q l) eqn:Hp.
  - rewrite (Contains_app_r p q l (Contains_prefix _ _ Hp)) in Hno. discriminate.
  - rewrite (match_here_Lit _ _ _ _ Hp) in Hq. discriminate.
Qed.

Lemma all_go_none (n : nat) (r : re) (s : string) :
  (forall p q, s = p +:+ q -> match_here n r q = None) ->
  forall skip, all_go n r skip s = [].
Proof.
  induction s as [|c s IH]; intros Hnone skip; cbn [all_go].
  - rewrite (Hnone EmptyString EmptyString eq_refl). destruct skip; reflexivity.
  - assert (Htail : forall p q, s = p +:+ q -> match_here n r q = None).
    { intros p q ->. apply (Hnone (String c p) q). reflexivity. }
    destruct skip; [|apply IH, Htail].
    rewrite (Hnone EmptyString (String c s) eq_refl). apply IH, Htail.
Qed.

Lemma find_all_needs_literal (l : string) (r : re) (s : string) :
  strs.Contains s l = false -> find_all (Seq (Lit l) r) s = [].
Proof.
  intros Hno. apply all_go_none. intros p q ->. apply match_here_Lit.
  destruct (strs.HasPrefix q l) eqn:Hp; [|reflexivity].
  rewrite (Contains_app_r p q l (Contains_prefix _ _ Hp)) in Hno. discriminate.
Qed.

(** A match is a piece of the text, and [start] is where it begins. *)
Lemma find_position (r : re) (s : string) (m : found) :
  find r s = Some m ->
  exists p q, s = p +:+ whole m +:+ q /\ start m = String.length p.
Proof.
  unfold find. intros H. apply find_go_some in H as (p & q & Hs & Hm).
  unfold match_here in Hm. apply run_drop in Hm as (i & caps & Hm). injection Hm as <-.
  exists p, (drop (String.length q - String.length (drop i q)) q). cbn [start whole].
  rewrite take_drop. split; [exact Hs|]. rewrite Hs, slength_app. lia.
Qed.

(** ** The reader *)

Lemma cut_some (d : ascii) (s l r : string) :
  bufio.cut d s = Some (l, r) ->
  s = l +:+ r /\ exists l0, l = l0 +:+ String d EmptyString /\ ~ mem d l0.
Proof.
  revert l r. induction s as [|c s IH]; intros l r H; simpl in H; [discriminate|].
  destruct (Ascii.eqb c d) eqn:Hc.
  - apply Ascii.eqb_eq in Hc as ->. injection H as <- <-.
    split; [reflexivity|]. exists EmptyString. split; [reflexivity|]. intros [].
  - destruct (bufio.cut d s) as [[l1 r1]|] eqn:Hcut; [|discriminate].
    injection H as <- <-. destruct (IH l1 r1 eq_refl) as (-> & l0 & -> & Hl0).
    split; [reflexivity|]. exists (String c l0). split; [reflexivity|].
    rewrite mem_cons. intros [->|Hm]; [|exact (Hl0 Hm)].
    rewrite Ascii.eqb_refl in Hc. discriminate.
Qed.

Lemma cut_none (d : ascii) (s : string) : bufio.cut d s = None -> ~ mem d s.
Proof.
  induction s as [|c s IH]; simpl; intros H; [intros []|].
  destruct (Ascii.eqb c d) eqn:Hc; [discriminate|].
  destruct (bufio.cut d s) as [[l1 r1]|]; [discriminate|].
  rewrite mem_cons. intros [->|Hm]; [|exact (IH eq_refl Hm)].
  rewrite Ascii.eqb_refl in Hc. discriminate.
Qed.

Lemma cut_snoc (d : ascii) (l0 r : string) :
  ~ mem d l0 ->
  bufio.cut d (l0 +:+ String d r) = Some (l0 +:+ String d EmptyString, r).
Proof.
  induction l0 as [|c l0 IH]; intros Hm.
  - rewrite !sapp_nil_l. simpl. rewrite Ascii.eqb_refl. reflexivity.
  - rewrite !sapp_cons. simpl.
    destruct (Ascii.eqb c d) eqn:Hc.
    + apply Ascii.eqb_eq in Hc as ->. exfalso. apply Hm. left. reflexivity.
    + rewrite IH; [reflexivity|]. intros H. apply Hm. right. exact H.
Qed.

Lemma cut_not_mem (d : ascii) (s : string) : ~ mem d s -> bufio.cut d s = None.
Proof.
  induction s as [|c s IH]; intros Hm; [reflexivity|]. simpl.
  destruct (Ascii.eqb c d) eqn:Hc.
  - apply Ascii.eqb_eq in Hc as ->. exfalso. apply Hm. left. reflexivity.
  - rewrite IH; [reflexivity|]. intros H. apply Hm. right. exact H.
Qed.

Lemma cut_length (d : ascii) (s l r : string) :
  bufio.cut d s = Some (l, r) ->
  (String.length s = String.length l + String.length r /\ 0 < String.length l)%nat.
Proof.
  intros H. destruct (cut_some _ _ _ _ H) as (-> & l0 & -> & _).
  rewrite !slength_app. simpl. lia.
Qed.



(** A turn of the loop that goes round again has consumed a byte and
    left the source's fault alone. *)
Lemma step_progress (st st' : scan) (rd rd' : bufio.Reader) :
  step st rd = Next st' rd' ->
  (String.length (bufio.unread rd') < String.length (bufio.unread rd))%nat
  /\ bufio.fault rd' = bufio.fault rd.
Proof.
  unfold step, bufio.Peek.
  destruct (4 <=? String.length (bufio.unread rd))%nat eqn:Hlen;
    [|destruct (bufio.fault rd); discriminate].
  apply Nat.leb_le in Hlen.
  unfold bufio.ReadString, ReadAll, check, give_back.
  destruct (bufio.cut LF (bufio.unread rd)) as [[l r]|] eqn:HcutLF;
  destruct (bufio.cut " " (bufio.unread rd)) as [[l2 r2]|] eqn:Hcut2;
  repeat match goal with
         | |- context [if ?b then _ else _] => destruct b
         | |- context [match bufio.fault ?x with _ => _ end] => destruct (bufio.fault x) eqn:?
         | |- context [bufio.cut LF ?x] => destruct (bufio.cut LF x) as [[? ?]|] eqn:?
         end;
  simpl; intros H; try discriminate; injection H as <- <-; simpl;
  repeat match goal with
         | H : bufio.cut _ _ = Some _ |- _ => apply cut_length in H
         end;
  simpl in *; (split; [lia | reflexivity]).
Qed.

Lemma loop_total (fuel : nat) (st : scan) (rd : bufio.Reader) :
  (String.length (bufio.unread rd) < fuel)%nat -> is_Some (loop fuel st rd).
Proof.
  revert st rd. induction fuel as [|fuel IH]; intros st rd Hlt; [lia|].
  simpl. destruct (step st rd) as [st' rd'|res rd'] eqn:Hstep; [|eexists; reflexivity].
  apply IH. apply step_progress in Hstep as [? _]. lia.
Qed.

(** [processReadStream] returns, whatever it is given. *)
Lemma processReadStream_total (reader : bufio.Reader) :
  is_Some (processReadStream reader).
Proof. apply loop_total. lia. Qed.

Lemma loop_more (fuel fuel' : nat) (st : scan) (rd : bufio.Reader) (r : normalized * bufio.Reader) :
  loop fuel st rd = Some r -> (fuel <= fuel')%nat -> loop fuel' st rd = Some r.
Proof.
  revert fuel' st rd. induction fuel as [|fuel IH]; intros fuel' st rd H Hle; [discriminate|].
  destruct fuel' as [|fuel']; [lia|]. simpl in *.
  destruct (step st rd); [|exact H]. apply IH; [exact H | lia].
Qed.

Lemma loop_agree (f1 f2 : nat) (st : scan) (rd : bufio.Reader) (r1 r2 : normalized * bufio.Reader) :
  loop f1 st rd = Some r1 -> loop f2 st rd = Some r2 -> r1 = r2.
Proof.
  intros H1 H2.
  apply (loop_more _ (Nat.max f1 f2)) in H1; [|lia].
  apply (loop_more _ (Nat.max f1 f2)) in H2; [|lia].
  congruence.
Qed.

Lemma reaches_loop (st0 st : scan) (rd0 rd : bufio.Reader) :
  reaches st0 rd0 st rd ->
  forall fuel r, loop fuel st rd = Some r -> exists fuel', loop fuel' st0 rd0 = Some r.
Proof.
  induction 1 as [|st rd st' rd' _ IH Hstep]; intros fuel r Hr; [exists fuel; exact Hr|].
  apply (IH (S fuel)). simpl. rewrite Hstep. exact Hr.
Qed.

(** The result of the whole run is the result of the loop from any state
    it passes through. *)
Lemma reaches_result (reader rd : bufio.Reader) (st : scan) (fuel : nat)
    (r : normalized * bufio.Reader) :
  reaches scan0 reader st rd -> loop fuel st rd = Some r -> processReadStream reader = Some r.
Proof.
  intros Hreach Hr. destruct (reaches_loop _ _ _ _ Hreach _ _ Hr) as [fuel' Hfuel'].
  destruct (processReadStream_total reader) as [r0 Hr0].
  rewrite Hr0. f_equal. exact (loop_agree _ _ _ _ _ _ Hr0 Hfuel').
Qed.

Lemma reaches_fault (st0 st : scan) (rd0 rd : bufio.Reader) :
  reaches st0 rd0 st rd -> bufio.fault rd = bufio.fault rd0.
Proof.
  induction 1 as [|st rd st' rd' _ IH Hstep]; [reflexivity|].
  apply step_progress in Hstep as [_ ->]. exact IH.
Qed.

(** ** Lines and tag directives *)










(** ** Patterns anchored at the start *)

Lemma match_here_Bot (n : nat) (r : re) (s : string) :
  String.length s <> n -> match_here n (Seq Bot r) s = None.
Proof.
  intros Hne. unfold match_here. cbn [run].
  destruct (Nat.eqb_spec (String.length s) n); [contradiction|reflexivity].
Qed.

Lemma find_go_Bot (n : nat) (r : re) (s : string) :
  (String.length s < n)%nat -> find_go n (Seq Bot r) s = None.
Proof.
  induction s as [|c s IH]; intros Hlt; cbn [find_go];
    rewrite match_here_Bot by lia; [reflexivity|].
  apply IH. simpl in Hlt. lia.
Qed.

(** [^\s*<l>] matches a text only if [l] stands in it after some bytes. *)
Lemma anchored_match (l s : string) :
  MatchString (cat [Bot; Star space; Lit l]) s = true ->
  exists i, strs.HasPrefix (drop i s) l = true.
Proof.
  unfold MatchString, find. intros H. apply bool_decide_eq_true in H as [m Hm].
  change (cat [Bot; Star space; Lit l]) with (Seq Bot (cat [Star space; Lit l])) in Hm.
  assert (Hhere : match_here (String.length s) (Seq Bot (cat [Star space; Lit l])) s = Some m).
  { destruct s as [|c s]; cbn [find_go] in Hm.
    - destruct (match_here _ _ EmptyString); [exact Hm|discriminate].
    - destruct (match_here _ _ (String c s)); [exact Hm|].
      rewrite find_go_Bot in Hm by (simpl; lia). discriminate. }
  unfold match_here in Hhere. cbn [run cat foldr] in Hhere.
  rewrite Nat.eqb_refl in Hhere. apply star_some in Hhere as [i Hi].
  exists i. destruct (strs.HasPrefix (drop i s) l); [reflexivity|discriminate].
Qed.

Lemma length_prefix (s p : string) :
  strs.HasPrefix s p = true -> (String.length p <= String.length s)%nat.
Proof. intros [r ->]%HasPrefix_spec. rewrite slength_app. lia. Qed.

Lemma length_eq_prefix (s p : string) :
  strs.HasPrefix s p = true -> String.length p = String.length s -> s = p.
Proof.
  intros [r ->]%HasPrefix_spec Hlen. rewrite slength_app in Hlen.
  destruct r; [apply sapp_nil_r | simpl in Hlen; lia].
Qed.

(** In four bytes there is no room for anything before [%TAG]. *)
Lemma tag_peek (peekBytes : string) :
  String.length peekBytes = 4%nat ->
  MatchString tagDirectiveLineRegEx peekBytes = true -> peekBytes = "%TAG".
Proof.
  intros Hlen [i Hi]%anchored_match.
  pose proof (length_prefix _ _ Hi) as Hle. rewrite length_drop in Hle. simpl in Hle.
  assert (i = 0%nat) as -> by lia.
  destruct peekBytes; simpl in Hi; apply length_eq_prefix in Hi; auto.
Qed.

(** ** One turn with the dialect off *)

Lemma peek_prefix (r x : string) :
  (4 <= String.length r)%nat -> String.length x = 4%nat ->
  strs.HasPrefix r x = true -> take 4 r = x.
Proof. intros _ Hlen H. apply HasPrefix_take; assumption. Qed.




Lemma eqb_neq (s t : string) : String.eqb s t = false <-> s <> t.
Proof. destruct (String.eqb_spec s t); split; congruence. Qed.



(** ** The whole run with the dialect off *)




(** The look-aheads [--- ] and [---\n] are none of the kinds tested
    before them. *)
Lemma separator_peeks :
  first_is_LF "--- " = false
  /\ MatchString tagDirectiveLineRegEx "--- " = false
  /\ first_is_LF ("---" +:+ nl) = false
  /\ MatchString tagDirectiveLineRegEx ("---" +:+ nl) = false
  /\ String.eqb ("---" +:+ nl) "--- " = false.
Proof. repeat split; vm_compute; reflexivity. Qed.



(** What a turn leaves unread is the end of what it found unread. *)
Lemma step_suffix (st st' : scan) (rd rd' : bufio.Reader) :
  step st rd = Next st' rd' -> exists c, bufio.unread rd = c +:+ bufio.unread rd'.
Proof.
  unfold step, bufio.Peek.
  destruct (4 <=? String.length (bufio.unread rd))%nat eqn:Hlen;
    [|destruct (bufio.fault rd); discriminate].
  unfold bufio.ReadString, ReadAll, check, give_back.
  destruct (bufio.cut LF (bufio.unread rd)) as [[l r]|] eqn:HcutLF;
  destruct (bufio.cut " " (bufio.unread rd)) as [[l2 r2]|] eqn:Hcut2;
  repeat match goal with
         | |- context [if ?b then _ else _] => destruct b
         | |- context [match bufio.fault ?x with _ => _ end] => destruct (bufio.fault x) eqn:?
         | |- context [bufio.cut LF ?x] => destruct (bufio.cut LF x) as [[? ?]|] eqn:?
         end;
  simpl; intros H; try discriminate; injection H as <- <-; simpl;
  repeat match goal with
         | H : bufio.cut _ _ = Some _ |- _ => apply cut_some in H as [? _]
         end;
  simpl in *; subst;
  first [ eexists; eassumption
        | eexists; symmetry; apply sapp_nil_r
        | eexists; rewrite <- sapp_assoc; reflexivity
        | match goal with
          | H : bufio.unread _ = _ |- _ =>
              rewrite H; eexists; rewrite <- sapp_assoc; reflexivity
          end ].
Qed.

Lemma reaches_suffix (st0 st : scan) (rd0 rd : bufio.Reader) :
  reaches st0 rd0 st rd -> exists consumed, bufio.unread rd0 = consumed +:+ bufio.unread rd.
Proof.
  induction 1 as [|st rd st' rd' _ [consumed IH] Hstep]; [exists EmptyString; reflexivity|].
  apply step_suffix in Hstep as [c Hc]. exists (consumed +:+ c).
  rewrite IH, Hc. symmetry. apply sapp_assoc.
Qed.

(** ** The Normalizer on input without the tag directive *)

Lemma Contains_app_l (s t sub : string) :
  strs.Contains s sub = true -> strs.Contains (s +:+ t) sub = true.
Proof.
  intros (p & r & ->)%Contains_spec. apply Contains_spec.
  exists p, (r +:+ t). rewrite !sapp_assoc. reflexivity.
Qed.

Lemma Contains_app_false (s t sub : string) :
  strs.Contains (s +:+ t) sub = false ->
  strs.Contains s sub = false /\ strs.Contains t sub = false.
Proof.
  intros H. split.
  - destruct (strs.Contains s sub) eqn:Hs; [|reflexivity].
    rewrite (Contains_app_l _ t _ Hs) in H. discriminate.
  - destruct (strs.Contains t sub) eqn:Ht; [|reflexivity].
    rewrite (Contains_app_r s _ _ Ht) in H. discriminate.
Qed.




(** ** The round trip of standard input *)











(** A look-ahead that starts with [#] is a comment's, and none of the
    kinds tested before it. *)
Lemma comment_peek (x : string) :
  String.length x = 3%nat ->
  first_is_LF (String "#" x) = false
  /\ MatchString tagDirectiveLineRegEx (String "#" x) = false
  /\ String.eqb (String "#" x) "--- " = false
  /\ String.eqb (String "#" x) ("---" +:+ nl) = false
  /\ MatchString commentLineRegEx (String "#" x) = true.
Proof.
  intros Hlen. repeat split; try reflexivity.
  - destruct (MatchString tagDirectiveLineRegEx (String "#" x)) eqn:Htag; [|reflexivity].
    apply tag_peek in Htag; [discriminate|]. cbn. rewrite Hlen. reflexivity.
  - unfold MatchString, find. apply bool_decide_eq_true.
    cbn [find_go]. unfold match_here at 1. cbn [commentLineRegEx cat foldr run star].
    rewrite Nat.eqb_refl. change (space "#"%char) with false. cbv iota.
    replace (strs.HasPrefix (String "#" x) "#") with true
      by (symmetry; apply (HasPrefix_app "#" x)).
    eauto.
Qed.

(** The turn that reads a comment line. *)
Lemma step_comment (st : scan) (c t : string) :
  ~ mem LF c -> (2 <= String.length c + String.length t)%nat ->
  step st (bufio.mkReader ("#" +:+ c +:+ nl +:+ t) EOF)
  = Next (write_content ("#" +:+ c +:+ nl) (write_sb ("#" +:+ c +:+ nl) st))
         (bufio.mkReader t EOF).
Proof.
  intros Hc Hlen.
  change ("#" +:+ c +:+ nl +:+ t) with (String "#" (c +:+ String LF t)).
  assert (Hrest : String.length (c +:+ String LF t)
                  = S (String.length c + String.length t)).
  { rewrite slength_app. cbn [String.length]. lia. }
  unfold step, bufio.Peek. cbn [bufio.unread bufio.fault String.length].
  rewrite Hrest.
  replace (4 <=? S (S (String.length c + String.length t)))%nat with true
    by (symmetry; apply Nat.leb_le; lia).
  change (take 4 (String "#" (c +:+ String LF t)))
    with (String "#" (take 3 (c +:+ String LF t))).
  destruct (comment_peek (take 3 (c +:+ String LF t))) as (H1 & H2 & H3 & H4 & H5).
  { rewrite length_take, Hrest. lia. }
  rewrite H1, H2, H3, H4, H5. cbn [orb].
  unfold bufio.ReadString. cbn [bufio.unread bufio.fault].
  change (String "#" (c +:+ String LF t)) with (String "#" c +:+ String LF t).
  rewrite cut_snoc; [reflexivity|].
  rewrite mem_cons. intros [Hm|Hm]; [discriminate Hm|exact (Hc Hm)].
Qed.

Lemma short_tail_returns (reader rd : bufio.Reader) (st : scan) :
  reaches scan0 reader st rd -> bufio.fault reader = EOF ->
  (String.length (bufio.unread rd) < 4)%nat ->
  bufio.Peek 4 rd = (bufio.unread rd, Some EOF)
  /\ processReadStream reader = Some (Normalized (contentBuffer st) (sb st) None, rd).
Proof.
  intros Hreach Hclean Hshort.
  pose proof (reaches_fault _ _ _ _ Hreach) as Hfault. rewrite Hclean in Hfault.
  assert (Hpeek : bufio.Peek 4 rd = (bufio.unread rd, Some EOF)).
  { unfold bufio.Peek. apply Nat.leb_gt in Hshort. rewrite Hshort, Hfault. reflexivity. }
  split; [exact Hpeek|].
  apply (reaches_result _ rd st 1 _ Hreach).
  cbn [loop]. unfold step. rewrite Hpeek. reflexivity.
Qed.

(** C9.  While the Normalizer is still classifying (in any state its loop
    passes through), if fewer than four bytes are left unread, whether
    they end in a line feed or not, the look-ahead of four bytes reports
    the end of the stream and the call returns without an error: the
    output and the leading content are what had been built up to there,
    and the last bytes of the input stay unread in the reader.  So a
    comment line followed by a last line of fewer than four bytes
    normalizes to the comment line alone. *)
Theorem short_tail_is_left_unread :
  (forall input st rd,
     reaches scan0 (bufio.NewReader input) st rd ->
     (String.length (bufio.unread rd) < 4)%nat ->
     bufio.Peek 4 rd = (bufio.unread rd, Some EOF)
     /\ processReadStream (bufio.NewReader input)
        = Some (Normalized (contentBuffer st) (sb st) None, rd)
     /\ exists consumed, input = consumed +:+ bufio.unread rd)
  /\ (forall c t,
        ~ mem LF c -> (2 <= String.length c + String.length t)%nat ->
        (String.length t < 4)%nat ->
        processReadStream (bufio.NewReader ("#" +:+ c +:+ nl +:+ t))
        = Some (Normalized ("#" +:+ c +:+ nl) ("#" +:+ c +:+ nl) None,
                bufio.mkReader t EOF)).
Proof.
  split.
  - intros input st rd Hreach Hshort.
    destruct (short_tail_returns _ _ _ Hreach eq_refl Hshort) as [Hpeek Hrun].
    split; [exact Hpeek|]. split; [exact Hrun|exact (reaches_suffix _ _ _ _ Hreach)].
  - intros c t Hc Hlen Hshort.
    assert (Hreach : reaches scan0 (bufio.NewReader ("#" +:+ c +:+ nl +:+ t))
                       (write_content ("#" +:+ c +:+ nl) (write_sb ("#" +:+ c +:+ nl) scan0))
                       (bufio.mkReader t EOF)).
    { eapply reaches_next; [apply reaches_start|]. apply step_comment; assumption. }
    exact (proj2 (short_tail_returns _ _ _ Hreach eq_refl Hshort)).
Qed.

Lemma short_tail_is_left_unread_witness :
  let input := "# c" +:+ nl +:+ "ab" in
  let st := Scan false ("# c" +:+ nl) ("# c" +:+ nl) in
  let rd := bufio.mkReader "ab" EOF in
  reaches scan0 (bufio.NewReader input) st rd
  /\ (String.length (bufio.unread rd) < 4)%nat
  /\ ~ mem LF " c"
  /\ processReadStream (bufio.NewReader input)
     = Some (Normalized ("# c" +:+ nl) ("# c" +:+ nl) None, rd)
  /\ processReadStream (bufio.NewReader ("#" +:+ " c" +:+ nl +:+ "ab"))
     = Some (Normalized ("#" +:+ " c" +:+ nl) ("#" +:+ " c" +:+ nl) None, rd).
Proof.
  intros input st rd.
  assert (Hreach : reaches scan0 (bufio.NewReader input) st rd).
  { eapply reaches_next; [apply reaches_start|]. vm_compute. reflexivity. }
  assert (Hshort : (String.length (bufio.unread rd) < 4)%nat) by (cbn; lia).
  assert (Hc : ~ mem LF " c") by (unfold mem; cbn; intuition discriminate).
  split; [exact Hreach|]. split; [exact Hshort|]. split; [exact Hc|]. split.
  - apply (proj1 short_tail_is_left_unread input st rd Hreach Hshort).
  - apply (proj2 short_tail_is_left_unread " c" "ab" Hc); cbn; lia.
Defined.

(** ** The decoder session *)

Section DecoderProperties.
Context `{E : Collaborators}.

(** Once a call has returned something, an exhausted engine's error is
    passed on and the session stays as it is: no node is made up. *)
Lemma Decode_after_read (dec : unityYamlDecoder) :
  readAnything dec = true -> waiting (decoder dec) = [] ->
  Decode dec = (None, Some (ending (decoder dec)), dec).
Proof.
  intros Hread Hnone. unfold Decode, yaml_Decode. rewrite Hnone.
  destruct dec as [d p lc br am ra ff di]. cbn in *. subst ra.
  rewrite !andb_false_r. reflexivity.
Qed.

Lemma decode_many_exhausted (n : nat) (dec : unityYamlDecoder) :
  readAnything dec = true -> waiting (decoder dec) = [] ->
  decode_many n dec = (replicate n (None, Some (ending (decoder dec))), dec).
Proof.
  intros Hread Hnone. induction n as [|n IH]; [reflexivity|].
  cbn [decode_many]. rewrite (Decode_after_read dec Hread Hnone), IH. reflexivity.
Qed.




End DecoderProperties.



(** ** Trimming keeps the letters *)

Lemma mem_rev_app (c : ascii) (s acc : string) :
  mem c (String.rev_app s acc) <-> mem c s \/ mem c acc.
Proof.
  revert acc. induction s as [|a s IH]; intros acc; cbn [String.rev_app].
  - unfold mem at 2. simpl. tauto.
  - rewrite IH, !mem_cons. tauto.
Qed.

Lemma mem_rev (c : ascii) (s : string) : mem c (String.rev s) <-> mem c s.
Proof. unfold String.rev. rewrite mem_rev_app. unfold mem at 2. simpl. tauto. Qed.

Lemma trim_go_keeps (width : string -> nat) (c : ascii) :
  (forall s k, width s = S k -> ~ mem c (take (S k) s)) ->
  forall s skip, ~ mem c (take skip s) -> mem c s -> mem c (strs.trim_go width skip s).
Proof.
  intros Hwidth. induction s as [|a s IH]; intros skip Hskip Hin; [exact Hin|].
  cbn [strs.trim_go]. destruct skip as [|k].
  - destruct (width (String a s)) as [|k] eqn:Hw; [exact Hin|].
    specialize (Hwidth _ _ Hw). cbn [take] in Hwidth. rewrite mem_cons in Hwidth, Hin.
    apply IH; [tauto|]. destruct Hin as [->|Hin]; [tauto|exact Hin].
  - cbn [take] in Hskip. rewrite mem_cons in Hskip, Hin.
    apply IH; [tauto|]. destruct Hin as [->|Hin]; [tauto|exact Hin].
Qed.

(** No white-space rune has the byte [m] in its encoding. *)
Lemma isSpaceRune_no_m (s : string) : strs.isSpaceRune s = true -> ~ mem "m"%char s.
Proof.
  destruct s as [|a [|b [|c [|d s]]]]; try discriminate; intros Hsp Hm;
    unfold mem in Hm; cbn in Hm;
    repeat match type of Hm with
           | _ \/ _ => destruct Hm as [Hm|Hm]
           | False => contradiction
           end;
    subst; cbn in Hsp;
    rewrite ?andb_false_r, ?orb_false_r, ?andb_false_l, ?orb_false_l in Hsp;
    try discriminate.
Qed.

Lemma space_width_clear (s : string) (k : nat) :
  strs.space_width s = S k -> ~ mem "m"%char (take (S k) s).
Proof.
  unfold strs.space_width.
  destruct (strs.isSpaceRune (take 1 s)) eqn:H1;
    [intros [= <-]; exact (isSpaceRune_no_m _ H1)|].
  destruct (strs.isSpaceRune (take 2 s)) eqn:H2;
    [intros [= <-]; exact (isSpaceRune_no_m _ H2)|].
  destruct (strs.isSpaceRune (take 3 s)) eqn:H3;
    [intros [= <-]; exact (isSpaceRune_no_m _ H3)|discriminate].
Qed.

Lemma rev_space_width_clear (s : string) (k : nat) :
  strs.rev_space_width s = S k -> ~ mem "m"%char (take (S k) s).
Proof.
  unfold strs.rev_space_width.
  destruct (strs.isSpaceRune (String.rev (take 1 s))) eqn:H1;
    [intros [= <-] Hm; apply (isSpaceRune_no_m _ H1), mem_rev, Hm|].
  destruct (strs.isSpaceRune (String.rev (take 2 s))) eqn:H2;
    [intros [= <-] Hm; apply (isSpaceRune_no_m _ H2), mem_rev, Hm|].
  destruct (strs.isSpaceRune (String.rev (take 3 s))) eqn:H3;
    [intros [= <-] Hm; apply (isSpaceRune_no_m _ H3), mem_rev, Hm|discriminate].
Qed.

Lemma TrimSpace_keeps_m (s : string) : mem "m"%char s -> mem "m"%char (strs.TrimSpace s).
Proof.
  intros Hm. unfold strs.TrimSpace, strs.TrimRightSpace, strs.TrimLeftSpace.
  apply mem_rev, (trim_go_keeps _ _ rev_space_width_clear); [intros []|].
  apply mem_rev, (trim_go_keeps _ _ space_width_clear); [intros []|exact Hm].
Qed.

(** A segment of white space only has no name in it. *)
Lemma blank_segment_has_no_name (doc : string) :
  String.eqb (strs.TrimSpace doc) EmptyString = true ->
  FindStringSubmatch namePattern doc = [].
Proof.
  intros Hblank%String.eqb_eq. unfold FindStringSubmatch.
  change namePattern with (Seq (Lit "m_Name:") (cat [Star space; Cap (Plus dot)])).
  rewrite find_needs_literal; [reflexivity|].
  destruct (strs.Contains doc "m_Name:") eqn:Hc; [|reflexivity]. exfalso.
  apply Contains_spec in Hc as (p & r & ->).
  assert (Hm : mem "m"%char (strs.TrimSpace (p +:+ "m_Name:" +:+ r))).
  { apply TrimSpace_keeps_m. apply mem_app. right. left. reflexivity. }
  rewrite Hblank in Hm. exact Hm.
Qed.

(** ** ParseUnityGraphNodes *)

Lemma parseDocument_name (doc : string) :
  parseDocument doc
  = if nonempty (segmentName doc)
    then Some (mkNode (group1 (FindStringSubmatch fileIDPattern doc))
                      (segmentName doc)
                      (group1 (FindStringSubmatch scriptPattern doc))
                      (collect propertyPatterns doc)
                      (group1 (FindStringSubmatch serializedPattern doc)))
    else None.
Proof. reflexivity. Qed.

Lemma parse_loop (docs : list string) (nodes : list (UnityGraphNode string)) :
  foldl (fun nodes doc =>
           if String.eqb (strs.TrimSpace doc) EmptyString then nodes
           else match parseDocument doc with
                | Some node => nodes ++ [node]
                | None => nodes
                end) nodes docs
  = nodes ++ omap parseDocument docs.
Proof.
  revert nodes. induction docs as [|doc docs IH]; intros nodes; cbn [foldl omap list_omap].
  - symmetry. apply List.app_nil_r.
  - rewrite IH. destruct (String.eqb (strs.TrimSpace doc) EmptyString) eqn:Hblank.
    + rewrite parseDocument_name. unfold segmentName.
      rewrite (blank_segment_has_no_name doc Hblank). reflexivity.
    + destruct (parseDocument doc); [|reflexivity].
      rewrite <- List.app_assoc. reflexivity.
Qed.

Lemma parseDocument_named (doc : string) (node : UnityGraphNode string) :
  parseDocument doc = Some node -> Name node <> EmptyString.
Proof.
  rewrite parseDocument_name. destruct (nonempty (segmentName doc)) eqn:Hname; [|discriminate].
  intros [= <-]. cbn. apply nonempty_true, Hname.
Qed.

(** C4.  [ParseUnityGraphNodes] is a function of the text alone and
    returns nil for its error on every text.  Its nodes are, in order,
    those of the segments between the [---] tokens that have a name: a
    segment whose name field is missing or blank gives no node, so no node
    has an empty name; a segment with a name gives a node whatever else is
    missing from it, the fields whose pattern finds nothing being left
    empty (and the properties it lacks being absent from the map). *)
Theorem parse_never_fails_and_skips_unnamed (content : string) :
  snd (ParseUnityGraphNodes content) = None
  /\ fst (ParseUnityGraphNodes content) = omap parseDocument (strs.Split content "---")
  /\ Forall (fun node => Name node <> EmptyString) (fst (ParseUnityGraphNodes content))
  /\ (forall doc,
        parseDocument doc
        = if nonempty (segmentName doc)
          then Some (mkNode (group1 (FindStringSubmatch fileIDPattern doc))
                            (segmentName doc)
                            (group1 (FindStringSubmatch scriptPattern doc))
                            (collect propertyPatterns doc)
                            (group1 (FindStringSubmatch serializedPattern doc)))
          else None)
  /\ group1 [] = EmptyString.
Proof.
  assert (Hnodes : fst (ParseUnityGraphNodes content)
                   = omap parseDocument (strs.Split content "---")).
  { unfold ParseUnityGraphNodes. cbn [fst]. rewrite parse_loop. reflexivity. }
  split; [reflexivity|]. split; [exact Hnodes|]. split; [|split; [exact parseDocument_name|reflexivity]].
  rewrite Hnodes. apply Forall_forall. intros node Hin.
  apply list_elem_of_omap in Hin as (doc & _ & Hdoc).
  exact (parseDocument_named doc node Hdoc).
Qed.

(** A text with a headless segment, a nameless one and a blank one. *)
Example parse_partial_segments :
  map (fun node => (FileID node, Name node, ScriptType node))
      (fst (ParseUnityGraphNodes
              ("m_Name: Loose" +:+ nl +:+ "--- !u!114 &7" +:+ nl +:+ "m_Name:  " +:+ nl
               +:+ "---" +:+ nl +:+ " " +:+ nl +:+ "--- !u!114 &-9" +:+ nl
               +:+ "  m_Name: Rock" +:+ nl)))
  = [(EmptyString, "Loose", EmptyString); ("-9", "Rock", EmptyString)].
Proof. vm_compute. reflexivity. Qed.

(** ** FilterNodesByType and ExtractSpawnerDistances *)

Lemma filter_loop {V} (pattern : re) (nodes filtered : list (UnityGraphNode V)) :
  foldl (fun filtered node =>
           if MatchString pattern (Name node) then filtered ++ [node] else filtered)
        filtered nodes
  = filtered ++ List.filter (fun node => MatchString pattern (Name node)) nodes.
Proof.
  revert filtered. induction nodes as [|node nodes IH]; intros filtered; cbn [foldl List.filter].
  - symmetry. apply List.app_nil_r.
  - rewrite IH. destruct (MatchString pattern (Name node)); [|reflexivity].
    rewrite <- List.app_assoc. reflexivity.
Qed.

(** [FilterNodesByType] keeps the nodes whose name matches, in order. *)
Lemma FilterNodesByType_filter {V} (nodes : list (UnityGraphNode V)) (pattern : re) :
  FilterNodesByType nodes pattern
  = List.filter (fun node => MatchString pattern (Name node)) nodes.
Proof. unfold FilterNodesByType. rewrite filter_loop. reflexivity. Qed.

Section Distances.
Variable ToLower : string -> string.
Context {V : Type}.

Lemma distanceKey_word (key : string) :
  distanceKey ToLower key = true ->
  exists w, In w distanceWords /\ strs.Contains (ToLower key) w = true.
Proof.
  unfold distanceKey, distanceWords. intros H.
  repeat (apply orb_true_iff in H as [H|H]);
    eexists; (split; [|exact H]); cbn; tauto.
Qed.

Lemma distances_loop (spawnerNodes done : list (UnityGraphNode V))
    (acc : gmap string (gmap string V)) :
  (forall k props, acc !! k = Some props -> entry_of ToLower (done ++ spawnerNodes) k props) ->
  forall k props,
    foldl (fun spawnerDistances node =>
             if bool_decide (Properties node = ∅) then spawnerDistances
             else
               let props := distanceProps ToLower (Properties node) in
               if bool_decide (props = ∅) then spawnerDistances
               else <[entryKey node := props]> spawnerDistances)
          acc spawnerNodes !! k = Some props ->
    entry_of ToLower (done ++ spawnerNodes) k props.
Proof.
  revert done acc. induction spawnerNodes as [|node rest IH]; intros done acc Hacc k props;
    cbn [foldl]; [apply Hacc|].
  replace (done ++ node :: rest) with ((done ++ [node]) ++ rest)
    by (rewrite <- List.app_assoc; reflexivity).
  apply IH. clear k props. intros k props Hk.
  rewrite <- List.app_assoc. cbn [app].
  destruct (bool_decide (Properties node = ∅)); [apply Hacc, Hk|].
  cbv zeta in Hk.
  destruct (bool_decide_reflect (distanceProps ToLower (Properties node) = ∅)) as [|Hne];
    [apply Hacc, Hk|].
  destruct (decide (k = entryKey node)) as [->|Hother].
  - rewrite lookup_insert_eq in Hk. injection Hk as <-.
    split; [exact Hne|]. exists node. split; [|split; reflexivity].
    apply in_or_app. right. left. reflexivity.
  - rewrite lookup_insert_ne in Hk by congruence. apply Hacc, Hk.
Qed.

(** C5.  Every entry of the map [ExtractSpawnerDistances] returns is the
    set of qualifying properties of a node of the list whose name matches
    the spawner pattern: each of its keys, lowered, contains one of
    [distance], [extent], [spacing], [cell], [radius], and it is not
    empty.  A node whose qualifying properties are empty contributes
    nothing: a key is absent from the map when every matched node that
    would be filed under it has none. *)
Theorem spawner_distances_keep_distance_keys (nodes : list (UnityGraphNode V)) :
  (forall k props,
     ExtractSpawnerDistances ToLower nodes !! k = Some props ->
     (forall key v, props !! key = Some v ->
                    exists w, In w distanceWords /\ strs.Contains (ToLower key) w = true)
     /\ props <> ∅
     /\ exists node, In node nodes /\ MatchString spawnerPattern (Name node) = true
                     /\ k = entryKey node
                     /\ props = distanceProps ToLower (Properties node))
  /\ (forall k,
        (forall node, In node nodes -> MatchString spawnerPattern (Name node) = true ->
                      k = entryKey node -> distanceProps ToLower (Properties node) = ∅) ->
        ExtractSpawnerDistances ToLower nodes !! k = None).
Proof.
  assert (Hentry : forall k props,
            ExtractSpawnerDistances ToLower nodes !! k = Some props ->
            props <> ∅
            /\ exists node, In node nodes /\ MatchString spawnerPattern (Name node) = true
                            /\ k = entryKey node
                            /\ props = distanceProps ToLower (Properties node)).
  { intros k props Hk. unfold ExtractSpawnerDistances in Hk. cbv zeta in Hk.
    apply (distances_loop _ []) in Hk as (Hne & node & Hin & Hkey & Hprops).
    - split; [exact Hne|]. exists node. cbn [app] in Hin.
      rewrite FilterNodesByType_filter in Hin. apply filter_In in Hin as [Hin Hmatch].
      repeat split; assumption.
    - intros k' props' Hk'. rewrite lookup_empty in Hk'. discriminate. }
  split.
  - intros k props Hk. destruct (Hentry k props Hk) as (Hne & node & Hin & Hmatch & Hkey & Hprops).
    split; [|split; [exact Hne|exists node; repeat split; assumption]].
    intros key v Hkey'. apply distanceKey_word.
    rewrite Hprops in Hkey'. unfold distanceProps in Hkey'.
    apply map_lookup_filter_Some in Hkey' as [_ Hq]. exact Hq.
  - intros k Hnone. destruct (ExtractSpawnerDistances ToLower nodes !! k) as [props|] eqn:Hk;
      [|reflexivity].
    exfalso. destruct (Hentry k props Hk) as (Hne & node & Hin & Hmatch & Hkey & Hprops).
    apply Hne. rewrite Hprops. exact (Hnone node Hin Hmatch Hkey).
Qed.

End Distances.

Lemma spawner_distances_keep_distance_keys_witness :
  let nodes :=
    [mkNode "1" "Grid Spawner" EmptyString
       (<["GridCellSize" := "5"]> (<["Jittering" := "1"]> (∅ : gmap string string)))
       EmptyString;
     mkNode "2" "pose set A" EmptyString
       (<["Jittering" := "1"]> (∅ : gmap string string)) EmptyString;
     mkNode "3" "Rock" EmptyString
       (<["Extents" := "3"]> (∅ : gmap string string)) EmptyString] in
  ExtractSpawnerDistances strs.ToLowerASCII nodes !! "Grid Spawner (1)"
  = Some (<["GridCellSize" := "5"]> ∅)
  /\ (exists w, In w distanceWords
                /\ strs.Contains (strs.ToLowerASCII "GridCellSize") w = true)
  /\ ExtractSpawnerDistances strs.ToLowerASCII nodes !! "pose set A (2)" = None.
Proof.
  intros nodes.
  destruct (spawner_distances_keep_distance_keys strs.ToLowerASCII nodes) as [Hsome Hnone].
  assert (Hgrid : ExtractSpawnerDistances strs.ToLowerASCII nodes !! "Grid Spawner (1)"
                  = Some (<["GridCellSize" := "5"]> ∅)) by (vm_compute; reflexivity).
  split; [exact Hgrid|]. split.
  - destruct (Hsome _ _ Hgrid) as [Hkeys _].
    apply (Hkeys "GridCellSize" "5"). vm_compute. reflexivity.
  - apply Hnone. intros node [<-|[<-|[<-|[]]]] _ Hkey;
      first [discriminate Hkey | vm_compute; reflexivity].
Defined.

(** ** GetNodeConnections *)

Lemma drop_nil (j : nat) : drop j EmptyString = EmptyString.
Proof. destruct j; reflexivity. Qed.

(** [LastIndex] is the index of the last occurrence: nothing occurs
    after it. *)
Lemma LastIndex_spec (s sub : string) :
  (strs.LastIndex s sub = -1
   /\ forall j, strs.HasPrefix (drop j s) sub = false)
  \/ (0 <= strs.LastIndex s sub
      /\ strs.HasPrefix (drop (Z.to_nat (strs.LastIndex s sub)) s) sub = true
      /\ forall j, (Z.to_nat (strs.LastIndex s sub) < j <= String.length s)%nat ->
                   strs.HasPrefix (drop j s) sub = false).
Proof.
  induction s as [|c s IH]; cbn [strs.LastIndex].
  - destruct (strs.HasPrefix EmptyString sub) eqn:Hp.
    + right. split; [lia|]. split; [exact Hp|]. cbn. intros j Hj. lia.
    + left. split; [reflexivity|]. intros j. rewrite drop_nil. exact Hp.
  - destruct IH as [[Hr Hnone]|(Hr & Hat & Hlast)].
    + rewrite Hr. cbn [Z.leb Z.compare].
      destruct (strs.HasPrefix (String c s) sub) eqn:Hp.
      * right. split; [lia|]. split; [exact Hp|].
        intros [|j] Hj; [cbn in Hj; lia|]. apply Hnone.
      * left. split; [reflexivity|]. intros [|j]; [exact Hp|apply Hnone].
    + destruct (Z.leb_spec 0 (strs.LastIndex s sub)) as [_|Hneg]; [|lia].
      right. split; [lia|].
      replace (Z.to_nat (strs.LastIndex s sub + 1)) with (S (Z.to_nat (strs.LastIndex s sub)))
        by lia.
      split; [exact Hat|].
      intros [|j] Hj; [lia|]. apply Hlast. cbn in Hj. lia.
Qed.

(** [Index] is the index of the first occurrence: nothing occurs before
    it. *)
Lemma Index_spec (s sub : string) :
  (strs.Index s sub = -1
   /\ forall j, strs.HasPrefix (drop j s) sub = false)
  \/ (0 <= strs.Index s sub
      /\ strs.HasPrefix (drop (Z.to_nat (strs.Index s sub)) s) sub = true
      /\ forall j, (j < Z.to_nat (strs.Index s sub))%nat ->
                   strs.HasPrefix (drop j s) sub = false).
Proof.
  induction s as [|c s IH]; cbn [strs.Index].
  - destruct (strs.HasPrefix EmptyString sub) eqn:Hp.
    + right. split; [lia|]. split; [exact Hp|]. cbn. intros j Hj. lia.
    + left. split; [reflexivity|]. intros j. rewrite drop_nil. exact Hp.
  - destruct (strs.HasPrefix (String c s) sub) eqn:Hp.
    + right. split; [lia|]. split; [exact Hp|]. cbn. intros j Hj. lia.
    + cbv zeta. destruct IH as [[Hr Hnone]|(Hr & Hat & Hfirst)].
      * rewrite Hr. cbn [Z.ltb Z.compare]. left. split; [reflexivity|].
        intros [|j]; [exact Hp|apply Hnone].
      * destruct (Z.ltb_spec (strs.Index s sub) 0) as [Hneg|_]; [lia|].
        right. split; [lia|].
        replace (Z.to_nat (strs.Index s sub + 1)) with (S (Z.to_nat (strs.Index s sub)))
          by lia.
        split; [exact Hat|].
        intros [|j] Hj; [exact Hp|]. apply Hfirst. lia.
Qed.

Lemma connection_referencingId (content : string) (connections : list string) (m : Z * Z) :
  connection content connections m
  = connections ++ match referencingId content m with
                   | Some id => [id]
                   | None => []
                   end.
Proof.
  unfold connection, referencingId, enclosingDocument, identityHeader. cbv zeta.
  destruct (Z.leb_spec 0 (strs.LastIndex (slice_to content (fst m)) "---")) as [Hd|Hd];
    destruct (Z.ltb_spec (strs.LastIndex (slice_to content (fst m)) "---") 0) as [Hd'|Hd'];
    try lia; [|symmetry; apply List.app_nil_r].
  set (d := strs.LastIndex (slice_to content (fst m)) "---").
  destruct (Z.leb_spec 0 (strs.Index (slice_from content (d + 3)) "---")) as [Hn|Hn];
    destruct (Z.ltb_spec (strs.Index (slice_from content (d + 3)) "---") 0) as [Hn'|Hn'];
    try lia;
    match goal with
    | |- context [FindStringSubmatch fileIDPattern ?x] =>
        destruct (FindStringSubmatch fileIDPattern x) as [|w [|g rest]]
    end; try reflexivity; symmetry; apply List.app_nil_r.
Qed.

Lemma connections_loop (content : string) (ms : list (Z * Z)) (connections : list string) :
  foldl (connection content) connections ms
  = connections ++ omap (referencingId content) ms.
Proof.
  revert connections. induction ms as [|m ms IH]; intros connections; cbn [foldl omap list_omap].
  - symmetry. apply List.app_nil_r.
  - rewrite IH, connection_referencingId.
    destruct (referencingId content m); rewrite <- List.app_assoc; reflexivity.
Qed.

Lemma length_omap_le {A B} (f : A -> option B) (l : list A) :
  (length (omap f l) <= length l)%nat.
Proof.
  induction l as [|x l IH]; cbn [omap list_omap length]; [lia|].
  destruct (f x); cbn [length]; lia.
Qed.

Lemma length_omap_all {A B} (f : A -> option B) (l : list A) :
  Forall (fun x => is_Some (f x)) l -> length (omap f l) = length l.
Proof.
  induction 1 as [|x l [y Hy] _ IH]; cbn [omap list_omap length]; [reflexivity|].
  rewrite Hy. cbn [length]. rewrite IH. reflexivity.
Qed.

(** C2, as amended.  For a node whose id is digits and [-], the result
    of [GetNodeConnections] lists, in the order of the occurrences of
    [{fileID: <id>}] in the text and without removing duplicates, the
    identity header of the document around each occurrence, for those
    occurrences that have one: an occurrence with no [---] before it, or
    whose document has no identity header, gives no id.  So there are at
    most as many ids as occurrences, and exactly as many when every
    occurrence sits in a document with a header.  The document around a
    position starts at the last [---] before it (none occurs between the
    two) and runs to the first [---] past that token, or to the end of the
    text when there is none. *)
Theorem connections_follow_enclosing_headers {V} (content : string)
    (node : UnityGraphNode V) (pattern : re) :
  referencePattern (FileID node) = Some pattern ->
  exists ids,
    GetNodeConnections content node = Some ids
    /\ ids = omap (referencingId content) (FindAllStringIndex pattern content)
    /\ (length ids <= length (FindAllStringIndex pattern content))%nat
    /\ (Forall (fun m => is_Some (referencingId content m))
               (FindAllStringIndex pattern content) ->
        length ids = length (FindAllStringIndex pattern content))
    /\ (forall pos doc,
          enclosingDocument content pos = Some doc ->
          let before := slice_to content pos in
          let d := strs.LastIndex before "---" in
          let after := slice_from content (d + 3) in
          let n := strs.Index after "---" in
          0 <= d
          /\ strs.HasPrefix (slice_from before d) "---" = true
          /\ (forall j, (Z.to_nat d < j <= String.length before)%nat ->
                        strs.HasPrefix (drop j before) "---" = false)
          /\ (n = -1 /\ doc = slice_from content d
                     /\ (forall j, strs.HasPrefix (drop j after) "---" = false)
              \/ 0 <= n /\ doc = slice content d (d + 3 + n)
                        /\ strs.HasPrefix (slice_from after n) "---" = true
                        /\ (forall j, (j < Z.to_nat n)%nat ->
                                      strs.HasPrefix (drop j after) "---" = false))).
Proof.
  intros Hpattern. unfold GetNodeConnections. rewrite Hpattern. cbv zeta.
  eexists. split; [reflexivity|]. rewrite connections_loop. cbn [app].
  split; [reflexivity|]. split; [apply length_omap_le|]. split; [apply length_omap_all|].
  intros pos doc Hdoc. cbv zeta. unfold enclosingDocument in Hdoc. cbv zeta in Hdoc.
  destruct (LastIndex_spec (slice_to content pos) "---") as [[Hnone _]|(Hd & Hat & Hlast)];
    [rewrite Hnone in Hdoc; discriminate|].
  destruct (Z.ltb_spec (strs.LastIndex (slice_to content pos) "---") 0) as [Hneg|_]; [lia|].
  split; [exact Hd|]. split; [exact Hat|]. split; [exact Hlast|].
  set (d := strs.LastIndex (slice_to content pos) "---") in *.
  destruct (Index_spec (slice_from content (d + 3)) "---") as [[Hn Hnone]|(Hn & Hnext & Hfirst)].
  - left. rewrite Hn in Hdoc. cbn [Z.ltb Z.compare] in Hdoc. injection Hdoc as <-.
    repeat split; assumption.
  - right. destruct (Z.ltb_spec (strs.Index (slice_from content (d + 3)) "---") 0) as [Hneg|_];
      [lia|].
    injection Hdoc as <-. repeat split; assumption.
Qed.

Lemma connections_follow_enclosing_headers_witness :
  let content :=
    "--- !u!114 &11" +:+ nl +:+ "  next: {fileID: 22}" +:+ nl
    +:+ "--- !u!114 &22" +:+ nl +:+ "  a: {fileID: 22}" +:+ nl +:+ "  b: {fileID:22}" +:+ nl
    +:+ "---" +:+ nl +:+ "  c: {fileID: 22}" +:+ nl in
  let node := mkNode "22" "Rock" EmptyString (∅ : gmap string string) EmptyString in
  referencePattern (FileID node)
  = Some (cat [Lit "{fileID:"; Star space; Lit "22"; Lit "}"])
  /\ length (FindAllStringIndex (cat [Lit "{fileID:"; Star space; Lit "22"; Lit "}"]) content)
     = 4%nat
  /\ GetNodeConnections content node = Some ["11"; "22"; "22"].
Proof.
  intros content node.
  assert (Hpattern : referencePattern (FileID node)
                     = Some (cat [Lit "{fileID:"; Star space; Lit "22"; Lit "}"]))
    by reflexivity.
  split; [exact Hpattern|]. split; [vm_compute; reflexivity|].
  destruct (connections_follow_enclosing_headers content node _ Hpattern)
    as (ids & Hids & Heq & _).
  rewrite Hids, Heq. vm_compute. reflexivity.
Defined.

(** C2 as stated fails: a reference in a document that no [---] precedes
    is an occurrence and gives no id. *)
Lemma reference_before_first_separator :
  ~ one_id_per_occurrence
      ("m_Name: A" +:+ nl +:+ "ref: {fileID: 5}" +:+ nl
       +:+ "--- !u!1 &5" +:+ nl +:+ "m_Name: B" +:+ nl)
      (mkNode "5" "B" EmptyString (∅ : gmap string string) EmptyString).
Proof.
  intros H.
  specialize (H (cat [Lit "{fileID:"; Star space; Lit "5"; Lit "}"]) [] eq_refl).
  assert (Hids : GetNodeConnections
                   ("m_Name: A" +:+ nl +:+ "ref: {fileID: 5}" +:+ nl
                    +:+ "--- !u!1 &5" +:+ nl +:+ "m_Name: B" +:+ nl)
                   (mkNode "5" "B" EmptyString (∅ : gmap string string) EmptyString)
                 = Some []) by (vm_compute; reflexivity).
  specialize (H Hids). vm_compute in H. discriminate.
Qed.

(** ** The unity-extract command *)

Lemma collect_keys (patterns : list (string * re)) (doc : string) (k : string) :
  is_Some (collect patterns doc !! k) -> In k (map fst patterns).
Proof.
  unfold collect.
  assert (Hgen : forall (done : list (string * re)) (acc : gmap string string),
            (forall k, is_Some (acc !! k) -> In k (map fst (done ++ patterns))) ->
            is_Some (foldl (fun properties '(propName, pattern) =>
                              match FindStringSubmatch pattern doc with
                              | _ :: g :: _ => <[propName := strs.TrimSpace g]> properties
                              | _ => properties
                              end) acc patterns !! k) ->
            In k (map fst (done ++ patterns))).
  { induction patterns as [|[name pattern] rest IH]; intros done acc Hacc; cbn [foldl];
      [apply Hacc|].
    replace (done ++ (name, pattern) :: rest) with ((done ++ [(name, pattern)]) ++ rest)
      by (rewrite <- List.app_assoc; reflexivity).
    apply IH. intros k' Hk'. rewrite <- List.app_assoc. cbn [app].
    destruct (FindStringSubmatch pattern doc) as [|w [|g more]]; try (apply Hacc, Hk').
    destruct (decide (k' = name)) as [->|Hne].
    - rewrite map_app. apply in_or_app. right. left. reflexivity.
    - rewrite lookup_insert_ne in Hk' by congruence. apply Hacc, Hk'. }
  apply (Hgen [] ∅). intros k' [v Hk']. rewrite lookup_empty in Hk'. discriminate.
Qed.

Lemma print_properties_events (content : string) (properties : gmap string string) :
  (forall k, is_Some (properties !! k) -> In k spawnerKeys) ->
  forall ev, In ev (print_properties properties) -> spawner_event content ev.
Proof.
  intros Hkeys ev Hin. unfold print_properties in Hin.
  apply in_map_iff in Hin as ([k v] & <- & Hkv).
  right. left. exists k, v. split; [|reflexivity].
  apply Hkeys. exists v. apply elem_of_map_to_list. apply list_elem_of_In. exact Hkv.
Qed.

Lemma spawnersBody_events (content doc : string) (st : Z * list event) :
  In doc (strs.Split content "---") ->
  (forall ev, In ev (snd st) -> spawner_event content ev) ->
  forall ev, In ev (snd (spawnersBody st doc)) -> spawner_event content ev.
Proof.
  intros Hdoc Hst ev. unfold spawnersBody.
  destruct (strs.Contains doc "Spawner") eqn:Hsp; [|apply Hst].
  destruct (strs.Contains doc "m_Name:") eqn:Hname; [|apply Hst]. cbn [andb].
  destruct (FindStringSubmatch namePattern doc) as [|w [|g more]] eqn:Hfind; try apply Hst.
  cbv zeta. destruct (bool_decide (collect spawnerPatterns doc = ∅)); [apply Hst|].
  cbn [snd]. intros Hin.
  apply in_app_or in Hin as [Hin|Hin]; [apply Hst, Hin|].
  apply in_app_or in Hin as [[<-|[]]|Hin].
  - left. exists doc. repeat split; try assumption.
    unfold segmentName. rewrite Hfind. reflexivity.
  - apply in_app_or in Hin as [Hin|[<-|[]]].
    + apply (print_properties_events content _ (collect_keys spawnerPatterns doc) ev Hin).
    + right. right. left. reflexivity.
Qed.

Lemma spawners_loop_events (content : string) (docs : list string) (st : Z * list event) :
  (forall doc, In doc docs -> In doc (strs.Split content "---")) ->
  (forall ev, In ev (snd st) -> spawner_event content ev) ->
  forall ev, In ev (snd (foldl spawnersBody st docs)) -> spawner_event content ev.
Proof.
  revert st. induction docs as [|doc docs IH]; intros st Hdocs Hst; cbn [foldl]; [exact Hst|].
  apply IH.
  - intros d Hd. apply Hdocs. right. exact Hd.
  - apply spawnersBody_events; [apply Hdocs; left; reflexivity|exact Hst].
Qed.

(** C10.  Whatever [extractSpawners] prints comes under one of these
    heads: the name of a segment that contains [Spawner] and [m_Name:]
    (both case-sensitive), a property line whose key is one of [Extents],
    [GridCellSize], [MinimumDistance], [RoadPoseDistance], [Spacing], a
    blank line, or a summary line.  So there is a text with two nodes that
    [ExtractSpawnerDistances] lists, one named with a lower-case
    [spawner] and one a pose set, for which the command prints that it
    found no spawner. *)
Theorem cli_spawners_stricter_than_helper :
  (forall content ev, In ev (fst (extractSpawners content)) -> spawner_event content ev)
  /\ spawnerKeys
     = ["Extents"; "GridCellSize"; "MinimumDistance"; "RoadPoseDistance"; "Spacing"]
  /\ exists content,
       ExtractSpawnerDistances strs.ToLowerASCII (fst (ParseUnityGraphNodes content))
       = <["grid spawner (11)" := <["GridCellSize" := "5"]> ∅]>
           (<["Pose Set A (22)" := <["Extents" := "150"]> ∅]> ∅)
       /\ fst (extractSpawners content)
          = [Println [str "No spawners with distance properties found"]].
Proof.
  split; [|split; [reflexivity|]].
  - intros content ev. unfold extractSpawners.
    destruct (foldl spawnersBody (0, []) (strs.Split content "---")) as [spawnerCount out] eqn:Hloop.
    cbn [fst]. intros Hin. apply in_app_or in Hin as [Hin|Hin].
    + apply (spawners_loop_events content (strs.Split content "---") (0, [])).
      * auto.
      * intros ev' [].
      * rewrite Hloop. exact Hin.
    + destruct (spawnerCount =? 0); destruct Hin as [<-|[]].
      * right. right. right. left. reflexivity.
      * right. right. right. right. eexists. reflexivity.
  - exists ("--- !u!114 &11" +:+ nl +:+ "MonoBehaviour:" +:+ nl
            +:+ "  m_Name: grid spawner" +:+ nl +:+ "  GridCellSize: 5" +:+ nl
            +:+ "--- !u!114 &22" +:+ nl +:+ "MonoBehaviour:" +:+ nl
            +:+ "  m_Name: Pose Set A" +:+ nl +:+ "  Extents: 150" +:+ nl).
    split; vm_compute; reflexivity.
Qed.

Lemma cli_spawners_stricter_than_helper_witness :
  let content :=
    "--- !u!114 &22" +:+ nl +:+ "  m_Name: Rock Spawner" +:+ nl +:+ "  Extents: 150" +:+ nl in
  In (Printf "%s:\n" [str "Rock Spawner"]) (fst (extractSpawners content))
  /\ spawner_event content (Printf "%s:\n" [str "Rock Spawner"]).
Proof.
  intros content.
  assert (Hin : In (Printf "%s:\n" [str "Rock Spawner"]) (fst (extractSpawners content)))
    by (vm_compute; left; reflexivity).
  split; [exact Hin|].
  exact (proj1 cli_spawners_stricter_than_helper content _ Hin).
Defined.

(** C3, as amended.  When the extraction kind is not one of the three,
    or it is [property] and the property flag is empty, the command fails
    with an error; it reads the input file first, and that read is all it
    does to the outside.  The error names the misuse when the file could
    be read, and the failed read otherwise. *)
Theorem misuse_fails_after_reading (fs : FileSystem)
    (propertyName extractType filename : string) (rest : list string) :
  misuse propertyName extractType = true ->
  unityExtractFunc fs propertyName (extractType :: filename :: rest)
  = ([ReadFile filename],
     Return (Some (match fs filename with
                   | inr err => Errorf ("failed to read file: " +:+ message err)
                   | inl _ =>
                       if known_kind extractType
                       then Errorf "property extraction requires --property flag"
                       else Errorf ("unknown extraction type: " +:+ extractType)
                   end))).
Proof.
  unfold misuse, known_kind. cbn [existsb unityExtractFunc]. intros Hmis.
  destruct (fs filename) as [content|err]; [|reflexivity].
  destruct (String.eqb extractType "spawners") eqn:H1;
    [apply String.eqb_eq in H1; subst; discriminate Hmis|].
  destruct (String.eqb extractType "nodes") eqn:H2;
    [apply String.eqb_eq in H2; subst; discriminate Hmis|].
  destruct (String.eqb extractType "property") eqn:H3; cbn [orb negb andb] in *.
  - rewrite Hmis. reflexivity.
  - reflexivity.
Qed.

Lemma misuse_fails_after_reading_witness :
  misuse EmptyString "bogus" = true
  /\ unityExtractFunc (one_file "a.asset" "m_Name: A") EmptyString ["bogus"; "a.asset"]
     = ([ReadFile "a.asset"], Return (Some (Errorf "unknown extraction type: bogus"))).
Proof.
  split; [reflexivity|].
  exact (misuse_fails_after_reading (one_file "a.asset" "m_Name: A")
           EmptyString "bogus" "a.asset" [] eq_refl).
Defined.

(** C3 as stated fails: with a kind that does not exist the file has
    been read by the time the error is returned. *)
Lemma unknown_kind_reads_the_file :
  ~ misuse_fails_unread (one_file "a.asset" "m_Name: A") EmptyString "bogus" "a.asset".
Proof. intros H. destruct (H eq_refl) as [_ Hread]. vm_compute in Hread. discriminate. Qed.

(** A property whose [<name>:] occurs nowhere has no match. *)
Lemma absent_property_no_match (content property : string) :
  strs.Contains content (property +:+ ":") = false ->
  FindAllStringSubmatch (keyPattern property) content = [].
Proof.
  intros Hno. unfold FindAllStringSubmatch, keyPattern.
  change (cat [Lit (property +:+ ":"); Star space; Cap (Plus dot)])
    with (Seq (Lit (property +:+ ":")) (cat [Star space; Cap (Plus dot)])).
  rewrite (find_all_needs_literal _ _ _ Hno). reflexivity.
Qed.

(** An unknown kind is an error, whatever else holds. *)
Lemma misuse_after_read_helper (fs : FileSystem) (flag extractType file : string)
    (args : list string) :
  known_kind extractType = false ->
  snd (unityExtractFunc fs flag (extractType :: file :: args))
  = Return (Some (match fs file with
                  | inr err => Errorf ("failed to read file: " +:+ message err)
                  | inl _ => Errorf ("unknown extraction type: " +:+ extractType)
                  end)).
Proof.
  intros Hkind. unfold known_kind in Hkind. cbn [existsb] in Hkind.
  repeat (apply orb_false_iff in Hkind as [? Hkind]).
  cbn [unityExtractFunc]. destruct (fs file) as [content|err]; [|reflexivity].
  repeat match goal with H : String.eqb _ _ = false |- _ => rewrite H; clear H end.
  reflexivity.
Qed.

(** C8.  With a readable file and a property name (valid UTF-8, as a
    pattern text has to be) that matches nothing in it, [extractProperty]
    prints the not-found message and returns nil, and so does the
    command; whereas with a kind that is none of the three the command
    returns an error, whatever the file and the flag. *)
Theorem property_not_found_is_soft (fs : FileSystem) (propertyName filename content : string)
    (rest : list string) :
  fs filename = inl content ->
  nonempty propertyName = true ->
  ValidString propertyName = true ->
  FindAllStringSubmatch (keyPattern propertyName) content = [] ->
  extractProperty content propertyName
  = ([Printf "Property '%s' not found\n" [str propertyName]], Return None)
  /\ unityExtractFunc fs propertyName ("property" :: filename :: rest)
     = ([ReadFile filename; Printf "Property '%s' not found\n" [str propertyName]],
        Return None)
  /\ (forall fs' flag extractType file args,
        known_kind extractType = false ->
        failed (snd (unityExtractFunc fs' flag (extractType :: file :: args))) = true).
Proof.
  intros Hfile Hflag Hvalid Hnone.
  assert (Hprop : extractProperty content propertyName
                  = ([Printf "Property '%s' not found\n" [str propertyName]], Return None)).
  { unfold extractProperty, propertyPattern. rewrite Hvalid, Hnone. reflexivity. }
  split; [exact Hprop|]. split.
  - cbn [unityExtractFunc]. rewrite Hfile. cbn.
    rewrite eqb_empty, Hflag, Hprop. reflexivity.
  - intros fs' flag extractType file args Hkind.
    rewrite (misuse_after_read_helper fs' flag extractType file args Hkind). reflexivity.
Qed.

Lemma property_not_found_is_soft_witness :
  let content := "--- !u!114 &11" +:+ nl +:+ "  m_Name: Grid" +:+ nl +:+ "  Extents: 150" +:+ nl in
  one_file "a.asset" content "a.asset" = inl content
  /\ FindAllStringSubmatch (keyPattern "Spacing") content = []
  /\ unityExtractFunc (one_file "a.asset" content) "Spacing" ["property"; "a.asset"]
     = ([ReadFile "a.asset"; Printf "Property '%s' not found\n" [str "Spacing"]], Return None).
Proof.
  intros content.
  assert (Hnone : FindAllStringSubmatch (keyPattern "Spacing") content = [])
    by (apply absent_property_no_match; vm_compute; reflexivity).
  split; [reflexivity|]. split; [exact Hnone|].
  exact (proj1 (proj2 (property_not_found_is_soft (one_file "a.asset" content)
                         "Spacing" "a.asset" content [] eq_refl eq_refl eq_refl Hnone))).
Defined.

(** * More of the code *)

(** ** processReadStream: what every run does *)

(** A turn that returns: the error is the source's fault unless that is
    a clean end, fewer than four bytes stay unread, and they are the end
    of what the turn found. *)
Lemma step_done (st : scan) (rd rd' : bufio.Reader) (res : normalized) :
  step st rd = Done res rd' ->
  failure res = (if is_EOF (bufio.fault rd) then None else Some (bufio.fault rd))
  /\ (String.length (bufio.unread rd') < 4)%nat
  /\ exists c, bufio.unread rd = c +:+ bufio.unread rd'.
Proof.
  unfold step, bufio.Peek.
  destruct (4 <=? String.length (bufio.unread rd))%nat eqn:Hlen.
  2:{ apply Nat.leb_gt in Hlen.
      destruct (bufio.fault rd) eqn:Hf; cbn [give_back]; intros [= <- <-]; cbn; rewrite ?Hf;
        (split; [reflexivity|]); (split; [exact Hlen|]); exists EmptyString; reflexivity. }
  unfold bufio.ReadString, ReadAll, check, give_back.
  destruct (bufio.cut LF (bufio.unread rd)) as [[l r]|] eqn:HcutLF;
  destruct (bufio.cut " " (bufio.unread rd)) as [[l2 r2]|] eqn:Hcut2;
  repeat match goal with
         | |- context [if ?b then _ else _] => destruct b eqn:?
         | |- context [match bufio.fault ?x with _ => _ end] => destruct (bufio.fault x) eqn:?
         | |- context [bufio.cut LF ?x] => destruct (bufio.cut LF x) as [[? ?]|] eqn:?
         end;
  simpl; intros H; try discriminate; injection H as <- <-; simpl;
  try discriminate;
  (split; [try reflexivity; try congruence|]);
  (split; [simpl; lia|]);
  eexists; symmetry; apply sapp_nil_r.
Qed.

Lemma loop_done (fuel : nat) (st : scan) (rd rd' : bufio.Reader) (res : normalized) :
  loop fuel st rd = Some (res, rd') ->
  failure res = (if is_EOF (bufio.fault rd) then None else Some (bufio.fault rd))
  /\ (String.length (bufio.unread rd') < 4)%nat
  /\ exists c, bufio.unread rd = c +:+ bufio.unread rd'.
Proof.
  revert st rd. induction fuel as [|fuel IH]; intros st rd H; [discriminate|].
  cbn [loop] in H. destruct (step st rd) as [st1 rd1|res1 rd1] eqn:Hstep.
  - destruct (IH _ _ H) as (Hfail & Hshort & c & Hc).
    destruct (step_progress _ _ _ _ Hstep) as [_ Hfault].
    destruct (step_suffix _ _ _ _ Hstep) as [c0 Hc0].
    rewrite Hfault in Hfail. repeat split; [exact Hfail|exact Hshort|].
    exists (c0 +:+ c). rewrite Hc0, Hc. symmetry. apply sapp_assoc.
  - injection H as <- <-. exact (step_done _ _ _ _ Hstep).
Qed.

(** X1.  [processReadStream] returns on every reader, and it returns an
    error exactly when the source broke: a clean end of input is never an
    error, any other fault of the source is handed back as it is. *)
Theorem read_stream_fails_with_the_source (reader : bufio.Reader) :
  exists res rd,
    processReadStream reader = Some (res, rd)
    /\ failure res
       = (if is_EOF (bufio.fault reader) then None else Some (bufio.fault reader)).
Proof.
  destruct (processReadStream_total reader) as [[res rd] H].
  exists res, rd. split; [exact H|]. exact (proj1 (loop_done _ _ _ _ _ H)).
Qed.

(** X2.  Whatever the mode, [processReadStream] consumes its source up to
    a tail of fewer than four bytes: what it leaves unread is the end of
    the input, and at most three bytes long. *)
Theorem read_stream_leaves_a_short_tail (reader : bufio.Reader) :
  exists res rd consumed,
    processReadStream reader = Some (res, rd)
    /\ bufio.unread reader = consumed +:+ bufio.unread rd
    /\ (String.length (bufio.unread rd) < 4)%nat.
Proof.
  destruct (processReadStream_total reader) as [[res rd] H].
  destruct (loop_done _ _ _ _ _ H) as (_ & Hshort & c & Hc).
  exists res, rd, c. auto.
Qed.

Lemma step_shift (u : bool) (lead content s c : string) (rd : bufio.Reader) :
  step (Scan u (lead +:+ s) (content +:+ c)) rd = shift lead content (step (Scan u s c) rd).
Proof.
  unfold step, bufio.Peek.
  destruct (4 <=? String.length (bufio.unread rd))%nat;
    [|destruct (bufio.fault rd); reflexivity].
  unfold bufio.ReadString, ReadAll, check, give_back, write_content, write_sb.
  cbn [isUnityYaml sb contentBuffer].
  destruct (bufio.cut LF (bufio.unread rd)) as [[l r]|];
  destruct (bufio.cut " " (bufio.unread rd)) as [[l2 r2]|];
  repeat match goal with
         | |- context [if ?b then _ else _] => destruct b
         | |- context [match bufio.fault ?x with _ => _ end] => destruct (bufio.fault x)
         | |- context [bufio.cut LF ?x] => destruct (bufio.cut LF x) as [[? ?]|]
         end;
  cbn; rewrite ?sapp_assoc; reflexivity.
Qed.

Lemma loop_shift (fuel : nat) (u : bool) (lead content s c : string) (rd : bufio.Reader) :
  loop fuel (Scan u (lead +:+ s) (content +:+ c)) rd
  = option_map (carried lead content) (loop fuel (Scan u s c) rd).
Proof.
  revert u s c rd. induction fuel as [|fuel IH]; intros u s c rd; [reflexivity|].
  cbn [loop]. rewrite step_shift.
  destruct (step (Scan u s c) rd) as [[u1 s1 c1] rd1|res1 rd1]; cbn; [apply IH|reflexivity].
Qed.

(** ** The dialect flag *)

Lemma step_flag (st st' : scan) (rd rd' : bufio.Reader) :
  step st rd = Next st' rd' ->
  isUnityYaml st' = isUnityYaml st
  \/ (isUnityYaml st' = true
      /\ strs.HasPrefix (bufio.unread rd) "%TAG" = true
      /\ strs.Contains (fst (fst (bufio.ReadString LF rd))) unityNamespace = true
      /\ sb st' = sb st +:+ fst (fst (bufio.ReadString LF rd))
      /\ contentBuffer st' = contentBuffer st
      /\ rd' = snd (bufio.ReadString LF rd)).
Proof.
  unfold step, bufio.Peek.
  destruct (4 <=? String.length (bufio.unread rd))%nat eqn:Hlen;
    [|destruct (bufio.fault rd); discriminate].
  apply Nat.leb_le in Hlen.
  destruct (first_is_LF (take 4 (bufio.unread rd))).
  { destruct (bufio.ReadString LF rd) as [[line err] reader].
    destruct err as [[|]|]; cbn; intros [= <- <-]. left. reflexivity. }
  destruct (MatchString tagDirectiveLineRegEx (take 4 (bufio.unread rd))) eqn:Htag.
  { apply tag_peek in Htag; [|rewrite length_take; lia].
    apply take_eq_prefix in Htag.
    destruct (bufio.ReadString LF rd) as [[line err] reader]. cbn [fst snd].
    destruct (strs.Contains line unityNamespace) eqn:Hns.
    - intros [= <- <-]. right. cbn. repeat split; assumption.
    - destruct err as [[|]|]; cbn; intros [= <- <-]. left. reflexivity. }
  destruct (String.eqb (take 4 (bufio.unread rd)) "--- ").
  { destruct (bufio.ReadString " " rd) as [[line err] reader].
    destruct (isUnityYaml st) eqn:Hu.
    - destruct (bufio.ReadString LF reader) as [[restOfLine err2] reader2].
      destruct err as [[|]|]; cbn; intros [= <- <-]. left. cbn. auto.
    - destruct err as [[|]|]; cbn; intros [= <- <-]. left. cbn. auto. }
  destruct (String.eqb (take 4 (bufio.unread rd)) ("---" +:+ nl)).
  { destruct (bufio.ReadString LF rd) as [[line err] reader].
    destruct err as [[|]|]; cbn; intros [= <- <-]. left. reflexivity. }
  destruct (_ || _).
  { destruct (bufio.ReadString LF rd) as [[line err] reader].
    destruct err as [[|]|]; cbn; intros [= <- <-]. left. reflexivity. }
  destruct (ReadAll rd) as [[restBytes err] reader]. destruct err; discriminate.
Qed.

(** X3.  The dialect flag latches.  Once a run of the loop has it on it
    stays on; and the one turn that switches it on is the turn that finds
    [%TAG] at the look-ahead and the namespace [tag:unity3d.com,2011:] on
    that line.  The line goes to the leading content and not to the
    stream. *)
Theorem dialect_flag_latches (st0 st st' : scan) (rd0 rd rd' : bufio.Reader) :
  reaches st0 rd0 st rd ->
  step st rd = Next st' rd' ->
  (isUnityYaml st0 = true -> isUnityYaml st' = true)
  /\ (isUnityYaml st = false -> isUnityYaml st' = true ->
      strs.HasPrefix (bufio.unread rd) "%TAG" = true
      /\ strs.Contains (fst (fst (bufio.ReadString LF rd))) unityNamespace = true
      /\ sb st' = sb st +:+ fst (fst (bufio.ReadString LF rd))
      /\ contentBuffer st' = contentBuffer st
      /\ rd' = snd (bufio.ReadString LF rd)).
Proof.
  intros Hreach Hstep. split.
  - intros Hon.
    assert (Hst : isUnityYaml st = true).
    { clear Hstep. induction Hreach as [|s r s' r' _ IH Hs]; [exact Hon|].
      destruct (step_flag _ _ _ _ Hs) as [->|[-> _]]; auto. }
    destruct (step_flag _ _ _ _ Hstep) as [->|[-> _]]; auto.
  - intros Hoff Hon.
    destruct (step_flag _ _ _ _ Hstep) as [Heq|(_ & H)]; [congruence|exact H].
Qed.

Lemma dialect_flag_latches_witness :
  let line := "%TAG !u! tag:unity3d.com,2011:" +:+ nl in
  let rest := "--- !u!1 &1" +:+ nl in
  let st := Scan false ("%YAML 1.1" +:+ nl) ("%YAML 1.1" +:+ nl) in
  let st' := Scan true ("%YAML 1.1" +:+ nl +:+ line) ("%YAML 1.1" +:+ nl) in
  reaches scan0 (bufio.NewReader ("%YAML 1.1" +:+ nl +:+ line +:+ rest))
          st (bufio.NewReader (line +:+ rest))
  /\ step st (bufio.NewReader (line +:+ rest)) = Next st' (bufio.NewReader rest)
  /\ contentBuffer st' = contentBuffer st
  /\ sb st' = sb st +:+ line.
Proof.
  intros line rest st st'.
  assert (Hreach : reaches scan0 (bufio.NewReader ("%YAML 1.1" +:+ nl +:+ line +:+ rest))
                     st (bufio.NewReader (line +:+ rest))).
  { eapply reaches_next; [apply reaches_start|]. vm_compute. reflexivity. }
  assert (Hstep : step st (bufio.NewReader (line +:+ rest)) = Next st' (bufio.NewReader rest))
    by (vm_compute; reflexivity).
  split; [exact Hreach|]. split; [exact Hstep|].
  destruct (proj2 (dialect_flag_latches _ _ _ _ _ _ Hreach Hstep) eq_refl eq_refl)
    as (_ & _ & Hsb & Hcb & _).
  split; [exact Hcb|exact Hsb].
Defined.

(** ** Splitting and trimming *)

Lemma split_go_none (sep cur s : string) :
  strs.Contains s sep = false -> strs.split_go sep 0 cur s = [cur +:+ s].
Proof.
  revert cur. induction s as [|c s IH]; intros cur H; cbn [strs.split_go].
  - rewrite sapp_nil_r. reflexivity.
  - cbn [strs.Contains] in H. apply orb_false_iff in H as [Hp Hc].
    rewrite Hp, IH by exact Hc. rewrite sapp_assoc. reflexivity.
Qed.

Lemma Split_none (s sep : string) : strs.Contains s sep = false -> strs.Split s sep = [s].
Proof.
  intros H. unfold strs.Split. destruct sep; [reflexivity|].
  rewrite split_go_none by exact H. reflexivity.
Qed.

Lemma HasPrefix_char (c d : ascii) (s : string) :
  strs.HasPrefix (String c s) (String d EmptyString) = Ascii.eqb c d.
Proof.
  unfold strs.HasPrefix. cbn [String.prefix].
  destruct (ascii_dec d c) as [->|Hne].
  - rewrite Ascii.eqb_refl. destruct s; reflexivity.
  - symmetry. apply Ascii.eqb_neq. congruence.
Qed.

Lemma Contains_char (d : ascii) (s : string) :
  strs.Contains s (String d EmptyString) = false <-> ~ mem d s.
Proof.
  induction s as [|c s IH]; cbn [strs.Contains].
  - split; [intros _ []|reflexivity].
  - rewrite HasPrefix_char, orb_false_iff, IH, mem_cons.
    destruct (Ascii.eqb_spec c d); intuition (try discriminate; try congruence).
Qed.

(** A text cut at the first occurrence of a one-byte separator. *)
Lemma split_go_char (d : ascii) (t s cur : string) :
  ~ mem d t ->
  strs.split_go (String d EmptyString) 0 cur (t +:+ String d s)
  = (cur +:+ t) :: strs.split_go (String d EmptyString) 0 EmptyString s.
Proof.
  revert cur. induction t as [|c t IH]; intros cur Hm.
  - rewrite sapp_nil_l, sapp_nil_r. cbn [strs.split_go].
    rewrite HasPrefix_char, Ascii.eqb_refl. reflexivity.
  - rewrite sapp_cons. cbn [strs.split_go]. rewrite HasPrefix_char.
    rewrite mem_cons in Hm.
    destruct (Ascii.eqb_spec c d) as [->|_]; [tauto|].
    rewrite IH by tauto. rewrite sapp_assoc. reflexivity.
Qed.

Lemma rev_app_app (s t acc : string) :
  String.rev_app (s +:+ t) acc = String.rev_app t (String.rev_app s acc).
Proof.
  revert acc. induction s as [|c s IH]; intros acc; [reflexivity|].
  rewrite sapp_cons. cbn [String.rev_app]. apply IH.
Qed.

Lemma rev_snoc (s : string) (d : ascii) :
  String.rev (s +:+ String d EmptyString) = String d (String.rev s).
Proof. unfold String.rev. rewrite rev_app_app. reflexivity. Qed.

Lemma rev_app_rev_app (s a b : string) :
  String.rev_app (String.rev_app s a) b = String.rev_app a (s +:+ b).
Proof.
  revert a. induction s as [|c s IH]; intros a; [reflexivity|].
  cbn [String.rev_app]. rewrite IH. reflexivity.
Qed.

Lemma rev_rev (s : string) : String.rev (String.rev s) = s.
Proof. unfold String.rev. rewrite rev_app_rev_app. cbn. apply sapp_nil_r. Qed.

Lemma graphic_code (c : ascii) : graphic c = true -> (33 <= code c <= 126)%N.
Proof. unfold graphic. intros [?%N.leb_le ?%N.leb_le]%andb_true_iff. lia. Qed.

(** A text that starts with a graphic byte starts with no white space,
    and one that ends with a graphic byte ends with none. *)
Lemma space_width_graphic (c : ascii) (s : string) :
  graphic c = true -> strs.space_width (String c s) = 0%nat.
Proof.
  intros Hg%graphic_code.
  assert (H13 : (code c <=? 13)%N = false) by (apply N.leb_gt; lia).
  assert (H32 : (code c =? 32)%N = false) by (apply N.eqb_neq; lia).
  assert (H194 : (code c =? 194)%N = false) by (apply N.eqb_neq; lia).
  assert (H225 : (code c =? 225)%N = false) by (apply N.eqb_neq; lia).
  assert (H226 : (code c =? 226)%N = false) by (apply N.eqb_neq; lia).
  assert (H227 : (code c =? 227)%N = false) by (apply N.eqb_neq; lia).
  unfold strs.space_width.
  destruct s as [|x [|y s]]; cbn [take strs.isSpaceRune];
    rewrite ?H13, ?H32, ?H194, ?H225, ?H226, ?H227; cbn [andb orb];
    rewrite ?andb_false_r; reflexivity.
Qed.

Lemma rev_space_width_graphic (d : ascii) (s : string) :
  graphic d = true -> strs.rev_space_width (String d s) = 0%nat.
Proof.
  intros Hg%graphic_code.
  assert (H13 : (code d <=? 13)%N = false) by (apply N.leb_gt; lia).
  assert (H32 : (code d =? 32)%N = false) by (apply N.eqb_neq; lia).
  assert (H133 : (code d =? 133)%N = false) by (apply N.eqb_neq; lia).
  assert (H160 : (code d =? 160)%N = false) by (apply N.eqb_neq; lia).
  assert (H128 : (code d =? 128)%N = false) by (apply N.eqb_neq; lia).
  assert (H128' : (128 <=? code d)%N = false) by (apply N.leb_gt; lia).
  assert (H168 : (code d =? 168)%N = false) by (apply N.eqb_neq; lia).
  assert (H169 : (code d =? 169)%N = false) by (apply N.eqb_neq; lia).
  assert (H175 : (code d =? 175)%N = false) by (apply N.eqb_neq; lia).
  assert (H159 : (code d =? 159)%N = false) by (apply N.eqb_neq; lia).
  unfold strs.rev_space_width.
  destruct s as [|x [|y s]]; cbn [take String.rev String.rev_app strs.isSpaceRune];
    rewrite ?H13, ?H32, ?H133, ?H160, ?H128, ?H128', ?H168, ?H169, ?H175, ?H159;
    cbn [andb orb]; rewrite ?andb_false_r; cbn [andb orb]; reflexivity.
Qed.

(** Trimming a line of graphic bytes takes its line feed off and nothing
    else. *)
Lemma TrimSpace_line (a : string) :
  a <> EmptyString -> (forall c, mem c a -> graphic c = true) ->
  strs.TrimSpace (a +:+ nl) = a.
Proof.
  intros Hne Hall. destruct a as [|c m]; [contradiction|].
  unfold strs.TrimSpace, strs.TrimLeftSpace, strs.TrimRightSpace.
  rewrite sapp_cons. cbn [strs.trim_go].
  rewrite space_width_graphic by (apply Hall; left; reflexivity).
  rewrite <- sapp_cons. unfold nl. rewrite rev_snoc.
  cbn [strs.trim_go].
  change (strs.rev_space_width (String LF (String.rev (String c m)))) with 1%nat.
  destruct (String.rev (String c m)) as [|d y] eqn:Hrev.
  - exfalso. assert (Hm : mem c (String.rev (String c m))) by (apply mem_rev; left; reflexivity).
    rewrite Hrev in Hm. exact Hm.
  - cbn [strs.trim_go]. rewrite rev_space_width_graphic.
    + rewrite <- Hrev. apply rev_rev.
    + apply Hall, mem_rev. rewrite Hrev. left. reflexivity.
Qed.

Lemma plain_id_graphic (id : string) (c : ascii) :
  plain_id id = true -> mem c id -> graphic c = true.
Proof.
  unfold plain_id, mem. intros Hall Hin.
  rewrite forallb_forall in Hall. specialize (Hall c Hin).
  apply orb_true_iff in Hall as [Hd|He].
  - unfold digit in Hd. apply andb_true_iff in Hd as [?%N.leb_le ?%N.leb_le].
    unfold graphic. apply andb_true_iff. split; apply N.leb_le; lia.
  - apply Ascii.eqb_eq in He as ->. reflexivity.
Qed.

(** ** The turns of the loop with the dialect on *)

Lemma tag_peeks :
  first_is_LF "%TAG" = false /\ MatchString tagDirectiveLineRegEx "%TAG" = true.
Proof. split; vm_compute; reflexivity. Qed.

(** Unity's tag directive: the line is kept as leading content only and
    the dialect is on from then on. *)
Lemma step_unity_tag (st : scan) (T rest : string) (f : error) :
  strs.HasPrefix T "%TAG" = true -> strs.Contains T unityNamespace = true -> ~ mem LF T ->
  step st (bufio.mkReader (T +:+ nl +:+ rest) f)
  = Next (Scan true (sb st +:+ T +:+ nl) (contentBuffer st)) (bufio.mkReader rest f).
Proof.
  intros Hp Hns Hm. destruct tag_peeks as [H1 H2].
  unfold step, bufio.Peek. cbn [bufio.unread bufio.fault].
  assert (Hcut : bufio.cut LF (T +:+ nl +:+ rest) = Some (T +:+ nl, rest))
    by (apply (cut_snoc LF T rest Hm)).
  apply HasPrefix_spec in Hp as [T' ->].
  change (take 4 (("%TAG" +:+ T') +:+ nl +:+ rest)) with "%TAG".
  change (4 <=? String.length (("%TAG" +:+ T') +:+ nl +:+ rest))%nat with true. cbv iota.
  rewrite H1, H2. unfold bufio.ReadString. cbn [bufio.unread bufio.fault].
  rewrite Hcut. unfold write_sb. cbn [sb contentBuffer isUnityYaml].
  rewrite (Contains_app_l _ nl _ Hns). reflexivity.
Qed.

Lemma cut_line (l rest : string) :
  ~ mem LF l -> bufio.cut LF (l +:+ nl +:+ rest) = Some (l +:+ nl, rest).
Proof. intros Hm. exact (cut_snoc LF l rest Hm). Qed.

(** The anchor of a separator line: what follows the first [&], trimmed. *)
Lemma anchor_of_line (tag a : string) :
  ~ mem "&"%char tag -> ~ mem "&"%char a ->
  anchor_of (tag +:+ "&" +:+ a +:+ nl) = " &" +:+ strs.TrimSpace (a +:+ nl).
Proof.
  intros Htag Ha. unfold anchor_of.
  assert (Hc : strs.Contains (tag +:+ "&" +:+ a +:+ nl) "&" = true).
  { apply Contains_spec. exists tag, (a +:+ nl). reflexivity. }
  rewrite Hc. unfold strs.Split.
  change (tag +:+ "&" +:+ a +:+ nl) with (tag +:+ String "&" (a +:+ nl)).
  rewrite split_go_char by exact Htag.
  rewrite split_go_none; [reflexivity|].
  apply Contains_char. rewrite mem_app. intros [H|H]; [exact (Ha H)|].
  unfold mem in H. cbn in H. destruct H as [H|[]]. discriminate.
Qed.

Lemma anchor_of_none (tag : string) :
  ~ mem "&"%char tag -> anchor_of (tag +:+ nl) = EmptyString.
Proof.
  intros Htag. unfold anchor_of.
  assert (Hc : strs.Contains (tag +:+ nl) "&" = false).
  { apply Contains_char. rewrite mem_app. intros [H|H]; [exact (Htag H)|].
    unfold mem in H. cbn in H. destruct H as [H|[]]. discriminate. }
  rewrite Hc. reflexivity.
Qed.

(** A separator line with the dialect on: [---], the anchor and a line
    feed go to the stream, the line as it is to the leading content. *)
Lemma step_unity_separator (lead content restOfLine rest : string) (f : error) :
  ~ mem LF restOfLine ->
  step (Scan true lead content) (bufio.mkReader ("--- " +:+ restOfLine +:+ nl +:+ rest) f)
  = Next (Scan true (lead +:+ "--- " +:+ restOfLine +:+ nl)
                    (content +:+ "---" +:+ anchor_of (restOfLine +:+ nl) +:+ nl))
         (bufio.mkReader rest f).
Proof.
  intros Hm. destruct separator_peeks as (H1 & H2 & _).
  unfold step, bufio.Peek. cbn [bufio.unread bufio.fault].
  change (take 4 ("--- " +:+ restOfLine +:+ nl +:+ rest)) with "--- ".
  change (4 <=? String.length ("--- " +:+ restOfLine +:+ nl +:+ rest))%nat with true.
  cbv iota. rewrite H1, H2.
  change (String.eqb "--- " "--- ") with true. cbv iota.
  unfold bufio.ReadString at 1. cbn [bufio.unread bufio.fault].
  change (bufio.cut " " ("--- " +:+ restOfLine +:+ nl +:+ rest))
    with (Some ("--- ", restOfLine +:+ nl +:+ rest)).
  cbn [isUnityYaml]. unfold bufio.ReadString. cbn [bufio.unread bufio.fault].
  rewrite cut_line by exact Hm.
  unfold check, write_content, write_sb. cbn [isUnityYaml sb contentBuffer].
  rewrite !sapp_assoc. reflexivity.
Qed.

Lemma replace_go_none (n : nat) (r : re) (repl s : string) :
  (forall p q, s = p +:+ q -> match_here n r q = None) ->
  replace_go n r repl 0 s = s.
Proof.
  induction s as [|c s IH]; intros Hnone; cbn [replace_go]; [reflexivity|].
  rewrite (Hnone EmptyString (String c s) eq_refl). f_equal. apply IH.
  intros p q ->. apply (Hnone (String c p) q). reflexivity.
Qed.

(** Replacing the matches of a pattern that begins with a literal leaves
    a text without the literal as it is. *)
Lemma ReplaceAll_needs_literal (l : string) (r : re) (s repl : string) :
  strs.Contains s l = false -> ReplaceAllString (Seq (Lit l) r) s repl = s.
Proof.
  intros Hno. apply replace_go_none. intros p q ->. apply match_here_Lit.
  destruct (strs.HasPrefix q l) eqn:Hp; [|reflexivity].
  rewrite (Contains_app_r p q l (Contains_prefix _ _ Hp)) in Hno. discriminate.
Qed.

(** The bulk read with the dialect on: both substitutions are applied to
    the whole of what is left. *)
Lemma step_unity_bulk (st : scan) (r : string) :
  isUnityYaml st = true -> (4 <= String.length r)%nat -> structural (take 4 r) = false ->
  step st (bufio.mkReader r EOF)
  = Done (Normalized
            (contentBuffer st
             +:+ ReplaceAllString unityTagPattern
                   (ReplaceAllString unityRefPattern r "null") EmptyString)
            (sb st) None)
         (bufio.mkReader EmptyString EOF).
Proof.
  intros Hon Hlen Hstr. unfold structural in Hstr.
  repeat (apply orb_false_iff in Hstr as [Hstr ?]).
  unfold step, bufio.Peek. cbn [bufio.unread bufio.fault].
  apply Nat.leb_le in Hlen. rewrite Hlen.
  repeat match goal with H : _ = false |- _ => rewrite H; clear H end.
  cbn. rewrite Hon. reflexivity.
Qed.

(** X4.  Unity's tag directive is dropped from the stream.  When the
    header phase comes to a line that starts with [%TAG] and names the
    namespace, the line is added to the leading content, nothing is added
    to the stream, and what follows the line is processed with the
    dialect on. *)
Theorem unity_tag_directive_is_dropped (reader rd : bufio.Reader) (st : scan)
    (T rest : string) :
  reaches scan0 reader st rd ->
  bufio.unread rd = T +:+ nl +:+ rest ->
  strs.HasPrefix T "%TAG" = true ->
  strs.Contains T unityNamespace = true ->
  ~ mem LF T ->
  exists r,
    dialectStream (bufio.mkReader rest (bufio.fault reader)) = Some r
    /\ processReadStream reader
       = Some (carried (sb st +:+ T +:+ nl) (contentBuffer st) r).
Proof.
  intros Hreach Hrd Hp Hns Hm.
  pose proof (reaches_fault _ _ _ _ Hreach) as Hf.
  destruct rd as [u f]. cbn in Hrd, Hf. subst u f.
  pose proof (step_unity_tag st T rest (bufio.fault reader) Hp Hns Hm) as Hstep.
  pose proof (reaches_next _ _ _ _ _ _ Hreach Hstep) as Hreach'.
  destruct (loop_total (S (String.length rest)) (Scan true EmptyString EmptyString)
              (bufio.mkReader rest (bufio.fault reader))) as [r Hr]; [cbn; lia|].
  exists r. split; [exact Hr|].
  eapply reaches_result; [exact Hreach'|].
  rewrite <- (sapp_nil_r (sb st +:+ T +:+ nl)), <- (sapp_nil_r (contentBuffer st)).
  rewrite loop_shift, Hr. rewrite !sapp_nil_r. reflexivity.
Qed.

Lemma unity_tag_directive_is_dropped_witness :
  let yaml := "%YAML 1.1" +:+ nl in
  let T := "%TAG !u! tag:unity3d.com,2011:" in
  let rest := "--- !u!1 &7" +:+ nl +:+ "GameObject:" +:+ nl in
  processReadStream (bufio.NewReader (yaml +:+ T +:+ nl +:+ rest))
  = Some (Normalized (yaml +:+ "--- &7" +:+ nl +:+ "GameObject:" +:+ nl)
                     (yaml +:+ T +:+ nl +:+ "--- !u!1 &7" +:+ nl) None,
          bufio.mkReader EmptyString EOF).
Proof.
  intros yaml T rest.
  assert (Hreach : reaches scan0 (bufio.NewReader (yaml +:+ T +:+ nl +:+ rest))
                     (Scan false yaml yaml) (bufio.NewReader (T +:+ nl +:+ rest))).
  { eapply reaches_next; [apply reaches_start|]. vm_compute. reflexivity. }
  assert (Hm : ~ mem LF T) by (unfold mem; simpl; intuition discriminate).
  destruct (unity_tag_directive_is_dropped _ _ _ T rest Hreach eq_refl eq_refl eq_refl Hm)
    as (r & Hr & Hrun).
  rewrite Hrun. f_equal.
  assert (Hr' : dialectStream (bufio.mkReader rest EOF)
                = Some (Normalized ("--- &7" +:+ nl +:+ "GameObject:" +:+ nl)
                                   ("--- !u!1 &7" +:+ nl) None,
                        bufio.mkReader EmptyString EOF)) by (vm_compute; reflexivity).
  cbn [bufio.fault bufio.NewReader] in Hr. rewrite Hr' in Hr. injection Hr as <-.
  reflexivity.
Defined.

(** X5.  A separator line with the dialect on.  Of [--- <tag>&<anchor>]
    the stream gets [--- &] and the anchor, trimmed; the tag is left out.
    An anchor of graphic bytes (an id is one) is kept as it is.  A line
    without [&] becomes a bare [---].  The leading content gets the line
    as it was. *)
Theorem dialect_separator_keeps_the_anchor (lead content tag a rest : string) (f : error) :
  ~ mem "&"%char tag -> ~ mem LF tag -> ~ mem "&"%char a -> ~ mem LF a ->
  step (Scan true lead content)
       (bufio.mkReader ("--- " +:+ tag +:+ "&" +:+ a +:+ nl +:+ rest) f)
  = Next (Scan true (lead +:+ "--- " +:+ tag +:+ "&" +:+ a +:+ nl)
                    (content +:+ "--- &" +:+ strs.TrimSpace (a +:+ nl) +:+ nl))
         (bufio.mkReader rest f)
  /\ (a <> EmptyString -> (forall c, mem c a -> graphic c = true) ->
      strs.TrimSpace (a +:+ nl) = a)
  /\ step (Scan true lead content) (bufio.mkReader ("--- " +:+ tag +:+ nl +:+ rest) f)
     = Next (Scan true (lead +:+ "--- " +:+ tag +:+ nl) (content +:+ "---" +:+ nl))
            (bufio.mkReader rest f).
Proof.
  intros Htag HtagLF Ha HaLF. split; [|split].
  - assert (Hm : ~ mem LF (tag +:+ "&" +:+ a)).
    { rewrite mem_app. change ("&" +:+ a) with (String "&"%char a). rewrite mem_cons.
      intros [H|[H|H]]; [tauto|discriminate|tauto]. }
    pose proof (step_unity_separator lead content (tag +:+ "&" +:+ a) rest f Hm) as Hstep.
    replace ((tag +:+ "&" +:+ a) +:+ nl) with (tag +:+ "&" +:+ a +:+ nl) in Hstep
      by (rewrite !sapp_assoc; reflexivity).
    rewrite anchor_of_line in Hstep by assumption.
    replace ("--- " +:+ (tag +:+ "&" +:+ a) +:+ nl +:+ rest)
      with ("--- " +:+ tag +:+ "&" +:+ a +:+ nl +:+ rest) in Hstep
      by (rewrite !sapp_assoc; reflexivity).
    rewrite Hstep, !sapp_assoc. reflexivity.
  - apply TrimSpace_line.
  - rewrite (step_unity_separator lead content tag rest f HtagLF).
    rewrite anchor_of_none by exact Htag. reflexivity.
Qed.

Lemma dialect_separator_keeps_the_anchor_witness :
  step (Scan true EmptyString EmptyString)
       (bufio.NewReader ("--- " +:+ "!u!114 " +:+ "&" +:+ "-8676750429411634268" +:+ nl
                         +:+ "MonoBehaviour:" +:+ nl))
  = Next (Scan true ("--- !u!114 &-8676750429411634268" +:+ nl)
                    ("--- &-8676750429411634268" +:+ nl))
         (bufio.NewReader ("MonoBehaviour:" +:+ nl)).
Proof.
  assert (H1 : ~ mem "&"%char "!u!114 ") by (unfold mem; simpl; intuition discriminate).
  assert (H2 : ~ mem LF "!u!114 ") by (unfold mem; simpl; intuition discriminate).
  assert (H3 : ~ mem "&"%char "-8676750429411634268")
    by (unfold mem; simpl; intuition discriminate).
  assert (H4 : ~ mem LF "-8676750429411634268")
    by (unfold mem; simpl; intuition discriminate).
  destruct (dialect_separator_keeps_the_anchor EmptyString EmptyString "!u!114 "
              "-8676750429411634268" ("MonoBehaviour:" +:+ nl) EOF H1 H2 H3 H4)
    as (Hstep & _ & _).
  exact Hstep.
Defined.

(** X6.  The bulk read with the dialect on changes the text only where a
    marker stands: a remainder with neither [{fileID:] nor [!u!] in it is
    appended to the stream as it is, and the leading content is what the
    header phase made it. *)
Theorem dialect_bulk_without_markers (st : scan) (r : string) :
  isUnityYaml st = true ->
  (4 <= String.length r)%nat ->
  structural (take 4 r) = false ->
  strs.Contains r "{fileID:" = false ->
  strs.Contains r "!u!" = false ->
  step st (bufio.mkReader r EOF)
  = Done (Normalized (contentBuffer st +:+ r) (sb st) None) (bufio.mkReader EmptyString EOF).
Proof.
  intros Hon Hlen Hstr Href Htag.
  rewrite step_unity_bulk by assumption.
  pose (refParts := [Lit "{fileID:"; Star space; Opt (Lit "-"); Plus digit;
                     Opt (cat [Lit ","; Star space; Lit "guid:"; Star space; Plus hexlow;
                               Lit ","; Star space; Lit "type:"; Star space; Plus digit]);
                     Lit "}"]).
  change unityRefPattern with (Seq (Lit "{fileID:") (cat (tl refParts))).
  rewrite ReplaceAll_needs_literal by exact Href.
  change unityTagPattern with (Seq (Lit "!u!") (cat [Plus digit])).
  rewrite ReplaceAll_needs_literal by exact Htag. reflexivity.
Qed.

Lemma dialect_bulk_without_markers_witness :
  step (Scan true "lead" "content") (bufio.mkReader ("GameObject:" +:+ nl +:+ "  m_Name: Rock") EOF)
  = Done (Normalized ("content" +:+ "GameObject:" +:+ nl +:+ "  m_Name: Rock") "lead" None)
         (bufio.mkReader EmptyString EOF).
Proof.
  apply (dialect_bulk_without_markers (Scan true "lead" "content")
           ("GameObject:" +:+ nl +:+ "  m_Name: Rock"));
    [reflexivity | simpl; lia | vm_compute; reflexivity
     | vm_compute; reflexivity | vm_compute; reflexivity].
Defined.

(** ** More on the decoder session *)

Section SessionProperties.
Context `{E : Collaborators}.

(** X7.  [Init] fails exactly when the source broke.  On a clean source
    it starts a fresh session: the engine reads the normalized stream,
    the leading content is the captured one, nothing has been read, the
    document index is 0 and the anchor map is new, while the preferences
    are kept.  On a broken source it returns the source's error and
    leaves the session as it was, but for the tee buffer. *)
Theorem Init_fails_with_the_source (dec : unityYamlDecoder) (reader : bufio.Reader) :
  exists res rd,
    processReadStream reader = Some (res, rd)
    /\ Init dec reader
       = Some (if is_EOF (bufio.fault reader)
               then (None,
                     mkDecoder (yaml_NewDecoder (stream res)) (prefs dec) (leadingOf res)
                       EmptyString make_anchors false false 0%N)
               else (Some (bufio.fault reader),
                     mkDecoder (decoder dec) (prefs dec) (leadingContent dec) EmptyString
                       (anchorMap dec) (readAnything dec) (firstFile dec)
                       (documentIndex dec))).
Proof.
  destruct (processReadStream_total reader) as [[res rd] H].
  exists res, rd. split; [exact H|].
  pose proof (proj1 (loop_done _ _ _ _ _ H)) as Hfail.
  unfold Init. rewrite H, Hfail.
  destruct (is_EOF (bufio.fault reader)); reflexivity.
Qed.

Lemma Decode_document (dec : unityYamlDecoder) (n : Node) (rest : list Node) :
  (forall c n a, fst (fst (UnmarshalYAML c n a)) = None) ->
  (forall c n a, document (snd (fst (UnmarshalYAML c n a))) = document c) ->
  (forall c n a, LeadingContent (snd (fst (UnmarshalYAML c n a))) = LeadingContent c) ->
  waiting (decoder dec) = n :: rest ->
  exists c dec',
    Decode dec = (Some c, None, dec')
    /\ document c = documentIndex dec
    /\ LeadingContent c = leadingContent dec
    /\ waiting (decoder dec') = rest
    /\ ending (decoder dec') = ending (decoder dec)
    /\ readAnything dec' = true
    /\ leadingContent dec' = EmptyString
    /\ documentIndex dec' = ((documentIndex dec + 1) mod 2 ^ 64)%N.
Proof.
  intros Hok Hdoc Hlead Hwait. unfold Decode, yaml_Decode. rewrite Hwait.
  destruct dec as [d p lc br am ra ff di]. cbn in *.
  pose proof (Hok (candidate_at di) n am) as Hok'.
  pose proof (Hdoc (candidate_at di) n am) as Hdoc'.
  pose proof (Hlead (candidate_at di) n am) as Hlead'.
  destruct (UnmarshalYAML (candidate_at di) n am) as [[err cand] anchors].
  cbn in Hok', Hdoc', Hlead'. subst err.
  destruct lc as [|a lc]; cbn; eexists; eexists; (split; [reflexivity|]); cbn; auto 10.
Qed.

Lemma session_run (m : nat) (ds : list Node) :
  (forall c n a, fst (fst (UnmarshalYAML c n a)) = None) ->
  (forall c n a, document (snd (fst (UnmarshalYAML c n a))) = document c) ->
  (forall c n a, LeadingContent (snd (fst (UnmarshalYAML c n a))) = LeadingContent c) ->
  forall dec,
    waiting (decoder dec) = ds ->
    (ds = [] -> readAnything dec = true) ->
    (documentIndex dec < 2 ^ 64)%N ->
    exists nodes,
      fst (decode_many (length ds + m) dec)
      = map (fun c => (Some c, None)) nodes ++ replicate m (None, Some (ending (decoder dec)))
      /\ length nodes = length ds
      /\ forall i c, nodes !! i = Some c ->
           document c = ((documentIndex dec + N.of_nat i) mod 2 ^ 64)%N
           /\ LeadingContent c = (if (i =? 0)%nat then leadingContent dec else EmptyString).
Proof.
  intros Hok Hdoc Hlead. induction ds as [|n rest IH]; intros dec Hwait Hread Hidx.
  - exists []. cbn [length Nat.add map app].
    rewrite decode_many_exhausted by auto. split; [reflexivity|]. split; [reflexivity|].
    intros i c Hi. rewrite lookup_nil in Hi. discriminate.
  - destruct (Decode_document dec n rest Hok Hdoc Hlead Hwait)
      as (c & dec' & HD & Hc & Hl & Hw & He & Hr & Hl' & Hi').
    destruct (IH dec' Hw (fun _ => Hr)) as (nodes & Hrun & Hlen & Hnodes).
    { rewrite Hi'. apply N.mod_lt. discriminate. }
    exists (c :: nodes). cbn [length Nat.add decode_many]. rewrite HD.
    destruct (decode_many (length rest + m) dec') as [results dec''] eqn:Hmany.
    cbn [fst] in *. rewrite Hrun, He. split; [reflexivity|]. split; [cbn; lia|].
    intros [|i] c' Hlook; cbn in Hlook.
    + injection Hlook as <-. rewrite N.add_0_r, N.mod_small by exact Hidx. auto.
    + destruct (Hnodes i c' Hlook) as [Hd Hlc]. split.
      * rewrite Hd, Hi', N.Div0.add_mod_idemp_l. f_equal. lia.
      * rewrite Hlc, Hl'. destruct i; reflexivity.
Qed.

(** X8.  A session over documents.  When the conversion of a document
    does not fail and leaves the document index and the leading content
    of the node it fills alone, the calls of [Decode] return one node per
    document, in order; the node of document [i] carries the index the
    session had plus [i] (modulo 2^64), the first node carries the
    session's leading content and no later one does; and once the
    documents are used up every call returns the engine's closing error
    and no node. *)
Theorem session_numbers_documents (dec : unityYamlDecoder) (m : nat) :
  (forall c n a, fst (fst (UnmarshalYAML c n a)) = None) ->
  (forall c n a, document (snd (fst (UnmarshalYAML c n a))) = document c) ->
  (forall c n a, LeadingContent (snd (fst (UnmarshalYAML c n a))) = LeadingContent c) ->
  waiting (decoder dec) <> [] ->
  (documentIndex dec < 2 ^ 64)%N ->
  exists nodes,
    fst (decode_many (length (waiting (decoder dec)) + m) dec)
    = map (fun c => (Some c, None)) nodes ++ replicate m (None, Some (ending (decoder dec)))
    /\ length nodes = length (waiting (decoder dec))
    /\ forall i c, nodes !! i = Some c ->
         document c = ((documentIndex dec + N.of_nat i) mod 2 ^ 64)%N
         /\ LeadingContent c = (if (i =? 0)%nat then leadingContent dec else EmptyString).
Proof.
  intros Hok Hdoc Hlead Hne Hidx.
  apply session_run; try assumption; [reflexivity|]. intros H. contradiction.
Qed.

Lemma Decode_alike (d1 d2 : unityYamlDecoder) :
  alike d1 d2 ->
  fst (Decode d1) = fst (Decode d2) /\ alike (snd (Decode d1)) (snd (Decode d2)).
Proof.
  destruct d1 as [d p1 lc br1 am ra1 ff1 di], d2 as [d' p2 lc' br2 am' ra2 ff2 di'].
  intros (Hd & Ham & Hdi & Hlc & Hb1 & Hb2 & Hra). cbn in *. subst d' am' di' lc' br1 br2.
  unfold Decode, yaml_Decode. cbn.
  destruct (waiting d) as [|n rest] eqn:Hw.
  - (* the engine has nothing left *)
    destruct Hra as [<-|[-> _]].
    + destruct (is_EOF (ending d)), lc, ra1, p1 as [[|]], p2 as [[|]]; cbn;
        (split; [reflexivity|]); unfold alike; cbn; rewrite ?Hw; auto 10.
    + destruct (is_EOF (ending d)), ra1, ra2, p1 as [[|]], p2 as [[|]]; cbn;
        (split; [reflexivity|]); unfold alike; cbn; rewrite ?Hw; auto 10.
  - destruct Hra as [<-|[_ Hnil]]; [|discriminate].
    destruct (UnmarshalYAML (candidate_at di) n am) as [[[e|] cand] anchors]; cbn.
    + split; [reflexivity|]. unfold alike. cbn. auto 10.
    + destruct lc; cbn; (split; [reflexivity|]); unfold alike; cbn; auto 10.
Qed.

Lemma decode_many_alike (n : nat) (d1 d2 : unityYamlDecoder) :
  alike d1 d2 -> fst (decode_many n d1) = fst (decode_many n d2).
Proof.
  revert d1 d2. induction n as [|n IH]; intros d1 d2 H; [reflexivity|].
  cbn [decode_many]. destruct (Decode_alike d1 d2 H) as [Hres Hnext].
  destruct (Decode d1) as [[node1 err1] d1'], (Decode d2) as [[node2 err2] d2'].
  cbn [fst snd] in *. injection Hres as <- <-.
  specialize (IH d1' d2' Hnext).
  destruct (decode_many n d1'), (decode_many n d2'). cbn in *. subst. reflexivity.
Qed.

(** X9.  The preference [LeadingContentPreProcessing] never shows: [Init]
    empties the tee buffer and nothing writes to it, so the fallback
    that reads it yields no node.  After [Init], a session returns the
    same nodes and errors whatever the preference is. *)
Theorem preference_never_shows (dec0 dec : unityYamlDecoder) (reader : bufio.Reader)
    (p : YamlPreferences) (n : nat) :
  Init dec0 reader = Some (None, dec) ->
  bufferRead dec = EmptyString
  /\ fst (decode_many n (with_prefs p dec)) = fst (decode_many n dec).
Proof.
  intros HInit.
  assert (Hbuf : bufferRead dec = EmptyString).
  { unfold Init in HInit. destruct (processReadStream reader) as [[res rd]|]; [|discriminate].
    destruct (failure res); [discriminate|]. injection HInit as <-. reflexivity. }
  split; [exact Hbuf|].
  apply decode_many_alike. unfold alike, with_prefs. cbn. auto 10.
Qed.

End SessionProperties.

Lemma session_numbers_documents_witness :
  let dec := mkDecoder (E := line_engine) (mkYaml (E := line_engine) ["a: 1"; "b: 2"; "c: 3"] EOF) (mkPrefs true)
               ("# lead" +:+ nl) EmptyString tt false false 0%N in
  exists nodes,
    fst (decode_many 5 dec)
    = map (fun c => (Some c, None)) nodes ++ [(None, Some EOF); (None, Some EOF)]
    /\ length nodes = 3%nat
    /\ forall i c, nodes !! i = Some c ->
         document c = ((0 + N.of_nat i) mod 2 ^ 64)%N
         /\ LeadingContent c = (if (i =? 0)%nat then "# lead" +:+ nl else EmptyString).
Proof.
  intros dec.
  apply (session_numbers_documents (E := line_engine) dec 2);
    [intros; reflexivity | intros; reflexivity | intros; reflexivity
     | discriminate | reflexivity].
Defined.

Lemma preference_never_shows_witness :
  let source := "# lead" +:+ nl in
  exists dec,
    Init (E := line_engine) (NewUnityYamlDecoder (mkPrefs false)) (bufio.NewReader source)
    = Some (None, dec)
    /\ fst (decode_many 3 (with_prefs (mkPrefs true) dec)) = fst (decode_many 3 dec).
Proof.
  intros source. eexists. split; [vm_compute; reflexivity|].
  refine (proj2 (preference_never_shows (E := line_engine)
                   (NewUnityYamlDecoder (mkPrefs false)) _ (bufio.NewReader source)
                   (mkPrefs true) 3 _)).
  vm_compute. reflexivity.
Defined.

(** ** Segments *)

Lemma last_byte_tail (c : ascii) (s : string) :
  last_byte (String c s) <> Some "-"%char -> last_byte s <> Some "-"%char.
Proof. destruct s; [discriminate|]. exact (fun H => H). Qed.

(** A separator token that follows a text is found where it stands,
    unless the text ends with a dash. *)
Lemma HasPrefix_before_token (c : ascii) (a b : string) :
  last_byte (String c a) <> Some "-"%char ->
  strs.HasPrefix (String c a +:+ "---" +:+ b) "---" = strs.HasPrefix (String c a) "---".
Proof.
  intros Hlast. unfold strs.HasPrefix.
  change ("---" +:+ b) with (String "-" (String "-" (String "-" b))).
  destruct a as [|c2 [|c3 a]]; rewrite ?sapp_cons, ?sapp_nil_l;
    cbn [String.prefix last_byte] in *.
  - destruct (ascii_dec "-" c) as [<-|]; [congruence|reflexivity].
  - destruct (ascii_dec "-" c) as [<-|]; [|reflexivity].
    destruct (ascii_dec "-" c2) as [<-|]; [congruence|reflexivity].
  - pose proof HasPrefix_nil as Hnil. unfold strs.HasPrefix in Hnil.
    rewrite !Hnil. reflexivity.
Qed.

Lemma split_go_token (a : string) :
  forall (skip : nat) (cur b : string),
    (skip <= String.length a)%nat -> last_byte a <> Some "-"%char ->
    strs.split_go "---" skip cur (a +:+ "---" +:+ b)
    = strs.split_go "---" skip cur a ++ strs.split_go "---" 0 EmptyString b.
Proof.
  induction a as [|c a IH]; intros skip cur b Hskip Hlast.
  - cbn in Hskip. assert (skip = 0%nat) as -> by lia.
    rewrite sapp_nil_l.
    change ("---" +:+ b) with (String "-" (String "-" (String "-" b))).
    cbn [strs.split_go].
    replace (strs.HasPrefix (String "-" (String "-" (String "-" b))) "---") with true
      by (symmetry; apply (HasPrefix_app "---" b)).
    reflexivity.
  - rewrite (sapp_cons c a). cbn [strs.split_go]. destruct skip as [|k].
    + rewrite <- (sapp_cons c a), (HasPrefix_before_token c a b Hlast).
      destruct (strs.HasPrefix (String c a) "---") eqn:Hp.
      * apply length_prefix in Hp. cbn in Hp.
        change (String.length "---" - 1)%nat with 2%nat.
        rewrite IH; [reflexivity|lia|exact (last_byte_tail _ _ Hlast)].
      * rewrite IH; [reflexivity|lia|exact (last_byte_tail _ _ Hlast)].
    + cbn in Hskip. rewrite IH; [reflexivity|lia|exact (last_byte_tail _ _ Hlast)].
Qed.

Lemma Split_token (a b : string) :
  last_byte a <> Some "-"%char ->
  strs.Split (a +:+ "---" +:+ b) "---" = strs.Split a "---" ++ strs.Split b "---".
Proof. intros H. unfold strs.Split. apply split_go_token; [lia|exact H]. Qed.

Lemma Parse_segments (content : string) :
  fst (ParseUnityGraphNodes content) = omap parseDocument (strs.Split content "---").
Proof. unfold ParseUnityGraphNodes. cbn [fst]. rewrite parse_loop. reflexivity. Qed.

(** X10.  Parsing is done segment by segment: the nodes of two texts
    joined by a separator token are the nodes of the first followed by
    the nodes of the second, provided the first does not end with a dash
    (which would make the token start one byte early). *)
Theorem parse_joins_documents (a b : string) :
  last_byte a <> Some "-"%char ->
  fst (ParseUnityGraphNodes (a +:+ "---" +:+ b))
  = fst (ParseUnityGraphNodes a) ++ fst (ParseUnityGraphNodes b).
Proof.
  intros H. rewrite !Parse_segments, (Split_token a b H). apply omap_app.
Qed.

Lemma parse_joins_documents_witness :
  let a := "--- !u!114 &11" +:+ nl +:+ "  m_Name: Grid" +:+ nl in
  let b := " !u!114 &22" +:+ nl +:+ "  m_Name: Rock" +:+ nl in
  map (fun node => (FileID node, Name node)) (fst (ParseUnityGraphNodes (a +:+ "---" +:+ b)))
  = [("11", "Grid"); ("22", "Rock")].
Proof.
  intros a b. rewrite (parse_joins_documents a b); [|discriminate].
  vm_compute. reflexivity.
Defined.

(** X11.  A text without a separator token is one segment: it yields one
    node when a name is found in it and none otherwise; and the empty text
    yields none.  In general there are no more nodes than segments. *)
Theorem parse_without_separator (content : string) :
  strs.Contains content "---" = false ->
  fst (ParseUnityGraphNodes content)
  = match parseDocument content with
    | Some node => [node]
    | None => []
    end
  /\ fst (ParseUnityGraphNodes EmptyString) = []
  /\ forall text,
       (length (fst (ParseUnityGraphNodes text)) <= length (strs.Split text "---"))%nat.
Proof.
  intros H. split; [|split].
  - rewrite Parse_segments, (Split_none _ _ H). cbn.
    destruct (parseDocument content); reflexivity.
  - reflexivity.
  - intros text. rewrite Parse_segments. apply length_omap_le.
Qed.

Lemma parse_without_separator_witness :
  let content := "!u!114 &5" +:+ nl +:+ "m_Name: Solo" +:+ nl +:+ "m_Name: Other" +:+ nl in
  map (fun node => (FileID node, Name node)) (fst (ParseUnityGraphNodes content))
  = [("5", "Solo")].
Proof.
  intros content.
  rewrite (proj1 (parse_without_separator content eq_refl)).
  vm_compute. reflexivity.
Defined.

(** ** What the id pattern captures *)

Lemma star_taken {R : Type} (p : ascii -> bool) (k : string -> option R) (s : string) (x : R) :
  star p k s = Some x ->
  exists i, (i <= String.length s)%nat
            /\ forallb p (list_ascii_of_string (take i s)) = true
            /\ k (drop i s) = Some x.
Proof.
  induction s as [|c s IH]; cbn [star]; intros H.
  - exists 0%nat. auto.
  - destruct (p c) eqn:Hc; [|exists 0%nat; cbn; split; [lia|auto]].
    destruct (star p k s) as [y|] eqn:Hs; [|exists 0%nat; cbn; split; [lia|auto]].
    injection H as <-. destruct (IH eq_refl) as (i & Hi & Hall & Hk).
    exists (S i). cbn. rewrite Hc. split; [lia|auto].
Qed.

Lemma run_Seq {R : Type} (n : nat) (r1 r2 : re) (s : string) (caps : list string)
    (k : string -> list string -> option R) :
  run n (Seq r1 r2) s caps k = run n r1 s caps (fun s' caps' => run n r2 s' caps' k).
Proof. reflexivity. Qed.

(** A pattern without groups hands the groups on as it found them. *)
Lemma run_keeps_caps {R : Type} (r : re) :
  capture_free r = true ->
  forall (n : nat) (s : string) (caps : list string)
         (k : string -> list string -> option R) (x : R),
    run n r s caps k = Some x -> exists i, k (drop i s) caps = Some x.
Proof.
  induction r as [| |l|l|p|p|r1 IH1 r2 IH2|r1 IH1 r2 IH2|r1 IH1|r1 IH1];
    intros Hfree n s caps k x H; cbn [run capture_free] in *.
  - exists 0%nat. exact H.
  - destruct (String.length s =? n)%nat; [|discriminate]. exists 0%nat. exact H.
  - destruct (strs.HasPrefix s l); [|discriminate]. eauto.
  - destruct (fold_lit l s) as [s'|] eqn:Hl; [|discriminate].
    apply fold_lit_drop in Hl as [i ->]. eauto.
  - apply star_some in H as [i Hi]. eauto.
  - destruct s as [|c s]; [discriminate|]. destruct (p c); [|discriminate].
    apply star_some in H as [i Hi]. exists (S i). exact Hi.
  - apply andb_true_iff in Hfree as [H1 H2].
    apply (IH1 H1) in H as (i & H). apply (IH2 H2) in H as (j & H).
    rewrite drop_drop in H. eauto.
  - apply andb_true_iff in Hfree as [H1 H2].
    destruct (run n r1 s caps k) eqn:Hr1; [injection H as <-; eapply IH1; eassumption|].
    eapply IH2; eassumption.
  - destruct (run n r1 s caps k) eqn:Hr1; [injection H as <-; eapply IH1; eassumption|].
    exists 0%nat. exact H.
  - discriminate.
Qed.

Lemma all_digits_signed (g : string) :
  g <> EmptyString -> all_digits g = true -> signed_decimal g = true.
Proof.
  destruct g as [|c d]; [contradiction|]. intros _ H. unfold signed_decimal.
  destruct (Ascii.eqb_spec c "-"); [|exact H]. subst c. discriminate H.
Qed.

Lemma signed_decimal_plain (g : string) :
  signed_decimal g = true -> plain_id g = true /\ g <> EmptyString.
Proof.
  destruct g as [|c d]; [discriminate|]. unfold signed_decimal, plain_id, all_digits.
  intros H. split; [|discriminate].
  destruct (Ascii.eqb_spec c "-") as [->|_].
  - apply andb_true_iff in H as [_ H]. cbn. rewrite forallb_forall in H.
    apply forallb_forall. intros x Hx. rewrite (H x Hx). reflexivity.
  - rewrite forallb_forall in H.
    apply forallb_forall. intros x Hx. rewrite (H x Hx). reflexivity.
Qed.

Lemma take_length_drop (i : nat) (s : string) :
  (i <= String.length s)%nat ->
  take (String.length s - String.length (drop i s)) s = take i s.
Proof. intros H. rewrite length_drop. f_equal. lia. Qed.

(** One digit or more, from the front of [s]. *)
Lemma digits_taken {R : Type} (n : nat) (s : string) (caps : list string)
    (k : string -> list string -> option R) (x : R) :
  run n (Seq (Plus digit) Eps) s caps k = Some x ->
  exists i, (0 < i <= String.length s)%nat
            /\ all_digits (take i s) = true
            /\ k (drop i s) caps = Some x.
Proof.
  cbn [run]. destruct s as [|c s]; [discriminate|].
  destruct (digit c) eqn:Hc; [|discriminate].
  intros (i & Hi & Hall & Hk)%star_taken.
  exists (S i). cbn. unfold all_digits. cbn. rewrite Hc. split; [lia|auto].
Qed.

Lemma id_capture {R : Type} (n : nat) (s : string) (caps : list string)
    (k : string -> list string -> option R) (x : R) :
  run n (Cap (cat [Opt (Lit "-"); Plus digit])) s caps k = Some x ->
  exists g s', signed_decimal g = true /\ k s' (caps ++ [g]) = Some x.
Proof.
  change (cat [Opt (Lit "-"); Plus digit]) with (Seq (Opt (Lit "-")) (Seq (Plus digit) Eps)).
  cbn [run].
  set (K := fun s' caps' => k s' (caps' ++ [take (String.length s - String.length s') s])).
  change (match (if strs.HasPrefix s "-"
                 then run n (Seq (Plus digit) Eps) (drop (String.length "-") s) caps K
                 else None) with
          | Some y => Some y
          | None => run n (Seq (Plus digit) Eps) s caps K
          end = Some x -> exists g s', signed_decimal g = true /\ k s' (caps ++ [g]) = Some x).
  destruct (strs.HasPrefix s "-") eqn:Hdash.
  - destruct (run n (Seq (Plus digit) Eps) (drop (String.length "-") s) caps K) as [y|] eqn:Hrun.
    + intros [= ->]. apply HasPrefix_drop in Hdash.
      remember (drop (String.length "-") s) as s1 eqn:Hs1.
      destruct (digits_taken _ _ _ _ _ Hrun) as (i & Hi & Hall & Hk).
      unfold K in Hk.
      exists (String "-" (take i s1)), (drop i s1). split.
      * cbn [signed_decimal]. rewrite Ascii.eqb_refl, Hall, andb_true_r.
        destruct (take i s1) eqn:Ht; [|reflexivity].
        apply (f_equal String.length) in Ht. rewrite length_take in Ht. cbn in Ht. lia.
      * rewrite <- Hk. f_equal. f_equal. f_equal.
        rewrite Hdash. rewrite slength_app, length_drop.
        replace (String.length "-" + String.length s1 - (String.length s1 - i))%nat
          with (S i) by (cbn; lia).
        reflexivity.
    + intros Hrun2. destruct (digits_taken _ _ _ _ _ Hrun2) as (i & Hi & Hall & Hk).
      unfold K in Hk. rewrite take_length_drop in Hk by lia.
      eexists. eexists. split; [|exact Hk]. apply all_digits_signed; [|exact Hall].
      intros Ht. apply (f_equal String.length) in Ht. rewrite length_take in Ht. cbn in Ht. lia.
  - intros Hrun2. destruct (digits_taken _ _ _ _ _ Hrun2) as (i & Hi & Hall & Hk).
    unfold K in Hk. rewrite take_length_drop in Hk by lia.
    eexists. eexists. split; [|exact Hk]. apply all_digits_signed; [|exact Hall].
    intros Ht. apply (f_equal String.length) in Ht. rewrite length_take in Ht. cbn in Ht. lia.
Qed.

(** The id pattern finds nothing, or a match with one group that holds a
    signed decimal number. *)
Lemma fileID_capture (doc : string) :
  FindStringSubmatch fileIDPattern doc = []
  \/ exists w g, FindStringSubmatch fileIDPattern doc = [w; g] /\ signed_decimal g = true.
Proof.
  unfold FindStringSubmatch, find. destruct (find_go _ _ doc) as [m|] eqn:Hfind; [|left; reflexivity].
  right. apply find_go_some in Hfind as (p & q & _ & Hm). unfold match_here in Hm.
  change fileIDPattern
    with (cat [Lit "!u!"; Plus digit; Star space; Lit "&"; Cap (cat [Opt (Lit "-"); Plus digit])])
    in Hm.
  change (run (String.length doc)
            (cat [Lit "!u!"; Plus digit; Star space; Lit "&"; Cap (cat [Opt (Lit "-"); Plus digit])])
            q [])
    with (run (R := found) (String.length doc)
            (Seq (cat [Lit "!u!"; Plus digit; Star space; Lit "&"])
                 (Cap (cat [Opt (Lit "-"); Plus digit]))) q []) in Hm.
  rewrite run_Seq in Hm. apply run_keeps_caps in Hm as [i Hm]; [|reflexivity].
  apply id_capture in Hm as (g & s' & Hg & Hm). injection Hm as <-.
  cbn. eauto.
Qed.

Lemma parseDocument_FileID (doc : string) (node : UnityGraphNode string) :
  parseDocument doc = Some node ->
  FileID node = EmptyString \/ signed_decimal (FileID node) = true.
Proof.
  unfold parseDocument. destruct (nonempty _); [|discriminate]. intros [= <-]. cbn [FileID].
  destruct (fileID_capture doc) as [->|(w & g & -> & Hg)]; [left; reflexivity|right; exact Hg].
Qed.

(** X12.  The id of a parsed node is empty or a signed decimal number.
    Such an id stands for itself in the reference pattern, so the
    connection query is defined on every node the parser returns, for any
    text. *)
Theorem parsed_ids_are_decimal (content : string) (node : UnityGraphNode string) :
  In node (fst (ParseUnityGraphNodes content)) ->
  (FileID node = EmptyString \/ signed_decimal (FileID node) = true)
  /\ plain_id (FileID node) = true
  /\ forall text, is_Some (GetNodeConnections text node).
Proof.
  intros Hin. rewrite Parse_segments in Hin.
  apply list_elem_of_In, list_elem_of_omap in Hin as (doc & _ & Hdoc).
  pose proof (parseDocument_FileID doc node Hdoc) as Hid.
  assert (Hplain : plain_id (FileID node) = true).
  { destruct Hid as [->|Hs]; [reflexivity|]. exact (proj1 (signed_decimal_plain _ Hs)). }
  split; [exact Hid|]. split; [exact Hplain|].
  intros text. unfold GetNodeConnections, referencePattern. rewrite Hplain. eexists. reflexivity.
Qed.

Lemma parsed_ids_are_decimal_witness :
  let content := "--- !u!114 &-42" +:+ nl +:+ "  m_Name: Rock" +:+ nl in
  let node := mkNode "-42" "Rock" EmptyString (∅ : gmap string string) EmptyString in
  In node (fst (ParseUnityGraphNodes content))
  /\ signed_decimal (FileID node) = true
  /\ is_Some (GetNodeConnections content node).
Proof.
  intros content node.
  assert (Hin : In node (fst (ParseUnityGraphNodes content))) by (left; vm_compute; reflexivity).
  destruct (parsed_ids_are_decimal content node Hin) as (_ & _ & Hconn).
  split; [exact Hin|]. split; [reflexivity|apply Hconn].
Defined.

Lemma Contains_take (n : nat) (s sub : string) :
  strs.Contains s sub = false -> strs.Contains (take n s) sub = false.
Proof.
  intros H. rewrite <- (take_drop n s) in H. exact (proj1 (Contains_app_false _ _ _ H)).
Qed.

Lemma Contains_drop (n : nat) (s sub : string) :
  strs.HasPrefix (drop n s) sub = true -> strs.Contains s sub = true.
Proof.
  intros H. rewrite <- (take_drop n s). apply Contains_app_r, Contains_prefix, H.
Qed.

Lemma referencingId_signed (content : string) (m : Z * Z) (id : string) :
  referencingId content m = Some id -> signed_decimal id = true.
Proof.
  unfold referencingId, identityHeader.
  destruct (enclosingDocument content (fst m)) as [doc|]; [|discriminate].
  destruct (fileID_capture doc) as [->|(w & g & -> & Hg)]; [discriminate|].
  intros [= <-]. exact Hg.
Qed.

Lemma referencingId_needs_token (content : string) (m : Z * Z) :
  strs.Contains content "---" = false -> referencingId content m = None.
Proof.
  intros Hno. unfold referencingId, enclosingDocument.
  destruct (LastIndex_spec (slice_to content (fst m)) "---") as [[-> _]|(Hpos & Hp & _)];
    [reflexivity|].
  apply Contains_drop in Hp. unfold slice_to in Hp.
  rewrite (Contains_take _ _ _ Hno) in Hp. discriminate.
Qed.

(** X13.  What the connection query returns are ids: every entry is a
    signed decimal number, the capture of an identity header.  A text
    without a separator token has no document to enclose a reference,
    and a text without [{fileID:] has no reference: both give the empty
    list. *)
Theorem connections_are_ids {V} (content : string) (node : UnityGraphNode V)
    (ids : list string) :
  GetNodeConnections content node = Some ids ->
  Forall (fun id => signed_decimal id = true) ids
  /\ (strs.Contains content "---" = false -> ids = [])
  /\ (strs.Contains content "{fileID:" = false -> ids = []).
Proof.
  unfold GetNodeConnections, referencePattern.
  destruct (plain_id (FileID node)); [|discriminate]. intros [= <-].
  rewrite connections_loop. cbn [app]. split; [|split].
  - apply Forall_forall. intros id Hin.
    apply list_elem_of_omap in Hin as (m & _ & Hm). exact (referencingId_signed _ _ _ Hm).
  - intros Hno. induction (FindAllStringIndex _ content) as [|m ms IH]; [reflexivity|].
    cbn. rewrite (referencingId_needs_token _ m Hno). exact IH.
  - intros Hno. unfold FindAllStringIndex.
    change (cat [Lit "{fileID:"; Star space; Lit (FileID node); Lit "}"])
      with (Seq (Lit "{fileID:") (cat [Star space; Lit (FileID node); Lit "}"])).
    rewrite find_all_needs_literal by exact Hno. reflexivity.
Qed.

Lemma connections_are_ids_witness :
  let content := "--- !u!114 &11" +:+ nl +:+ "  next: {fileID: 22}" +:+ nl in
  let node := mkNode "22" "Rock" EmptyString (∅ : gmap string string) EmptyString in
  GetNodeConnections content node = Some ["11"]
  /\ Forall (fun id => signed_decimal id = true) ["11"].
Proof.
  intros content node.
  assert (H : GetNodeConnections content node = Some ["11"]) by (vm_compute; reflexivity).
  split; [exact H|]. exact (proj1 (connections_are_ids content node ["11"] H)).
Defined.

(** ** The query helpers *)

(** X14.  [GetNodeByFileID] returns the first node with the id: the
    nodes before it have other ids, and nodes after it with the same id
    are never returned.  It returns nil exactly when no node has the id. *)
Theorem node_lookup_is_first_match {V} (nodes : list (UnityGraphNode V)) (fileID : string) :
  match GetNodeByFileID nodes fileID with
  | Some node =>
      exists before after,
        nodes = before ++ node :: after
        /\ FileID node = fileID
        /\ Forall (fun n => FileID n <> fileID) before
  | None => Forall (fun n => FileID n <> fileID) nodes
  end.
Proof.
  induction nodes as [|n nodes IH]; cbn [GetNodeByFileID]; [constructor|].
  destruct (String.eqb_spec (FileID n) fileID) as [Heq|Hne].
  - exists [], nodes. repeat split; [exact Heq|constructor].
  - destruct (GetNodeByFileID nodes fileID) as [node|].
    + destruct IH as (before & after & -> & Hid & Hbefore).
      exists (n :: before), after. repeat split; [exact Hid|constructor; assumption].
    + constructor; assumption.
Qed.

(** X15.  [FilterNodesByType] keeps exactly the nodes whose name the
    pattern matches, in the order they came in; so it distributes over
    concatenation, and filtering a second time changes nothing. *)
Theorem filter_by_type_keeps_order {V} (nodes more : list (UnityGraphNode V)) (pattern : re) :
  (forall node, In node (FilterNodesByType nodes pattern)
                <-> In node nodes /\ MatchString pattern (Name node) = true)
  /\ FilterNodesByType (nodes ++ more) pattern
     = FilterNodesByType nodes pattern ++ FilterNodesByType more pattern
  /\ FilterNodesByType (FilterNodesByType nodes pattern) pattern
     = FilterNodesByType nodes pattern
  /\ sublist (FilterNodesByType nodes pattern) nodes.
Proof.
  rewrite !FilterNodesByType_filter. split; [|split; [|split]].
  - intros node. apply List.filter_In.
  - apply List.filter_app.
  - induction nodes as [|n nodes IH]; [reflexivity|]. cbn [List.filter].
    destruct (MatchString pattern (Name n)) eqn:Hn; [|exact IH].
    cbn [List.filter]. rewrite Hn, IH. reflexivity.
  - induction nodes as [|n nodes IH]; [constructor|]. cbn [List.filter].
    destruct (MatchString pattern (Name n)); [apply sublist_skip|apply sublist_cons]; exact IH.
Qed.

Section LastWins.
Variable ToLower : string -> string.
Context {V : Type}.

(** X16.  [ExtractSpawnerDistances] goes through the nodes in order and
    the last write wins.  A node at the end of the list either leaves the
    map of the nodes before it as it is (its name does not match, or it
    has no distance property), or sets the entry of its key to its own
    distance properties, whatever an earlier node with the same name and
    id had put there.  The test for an empty property map never decides
    anything: an empty map has no distance property. *)
Theorem spawner_distances_last_wins (nodes : list (UnityGraphNode V)) (node : UnityGraphNode V) :
  ExtractSpawnerDistances ToLower (nodes ++ [node])
  = (if MatchString spawnerPattern (Name node)
        && negb (bool_decide (distanceProps ToLower (Properties node) = ∅))
     then <[entryKey node := distanceProps ToLower (Properties node)]>
            (ExtractSpawnerDistances ToLower nodes)
     else ExtractSpawnerDistances ToLower nodes)
  /\ (MatchString spawnerPattern (Name node) = true ->
      distanceProps ToLower (Properties node) <> ∅ ->
      ExtractSpawnerDistances ToLower (nodes ++ [node]) !! entryKey node
      = Some (distanceProps ToLower (Properties node))).
Proof.
  assert (Heq : ExtractSpawnerDistances ToLower (nodes ++ [node])
                = (if MatchString spawnerPattern (Name node)
                      && negb (bool_decide (distanceProps ToLower (Properties node) = ∅))
                   then <[entryKey node := distanceProps ToLower (Properties node)]>
                          (ExtractSpawnerDistances ToLower nodes)
                   else ExtractSpawnerDistances ToLower nodes)).
  { unfold ExtractSpawnerDistances. rewrite !FilterNodesByType_filter, List.filter_app.
    rewrite foldl_app. cbn [List.filter].
    destruct (MatchString spawnerPattern (Name node)); [|reflexivity].
    cbn [foldl andb].
    destruct (bool_decide_reflect (Properties node = ∅)) as [Hempty|_].
    - rewrite Hempty. unfold distanceProps. rewrite map_filter_empty.
      rewrite bool_decide_eq_true_2 by reflexivity. reflexivity.
    - destruct (bool_decide (distanceProps ToLower (Properties node) = ∅)); reflexivity. }
  split; [exact Heq|].
  intros Hmatch Hne. rewrite Heq, Hmatch.
  rewrite bool_decide_eq_false_2 by exact Hne. cbn. apply lookup_insert_eq.
Qed.

End LastWins.

Lemma spawner_distances_last_wins_witness :
  let first := mkNode "7" "Grid Spawner" EmptyString
                 (<["Extents" := "150"]> (∅ : gmap string string)) EmptyString in
  let second := mkNode "7" "Grid Spawner" EmptyString
                  (<["GridCellSize" := "5"]> (∅ : gmap string string)) EmptyString in
  ExtractSpawnerDistances strs.ToLowerASCII ([first] ++ [second]) !! "Grid Spawner (7)"
  = Some (<["GridCellSize" := "5"]> ∅).
Proof.
  intros first second.
  assert (Hmatch : MatchString spawnerPattern (Name second) = true) by (vm_compute; reflexivity).
  assert (Hne : distanceProps strs.ToLowerASCII (Properties second) <> ∅)
    by (vm_compute; discriminate).
  refine (eq_trans (proj2 (spawner_distances_last_wins strs.ToLowerASCII [first] second)
                      Hmatch Hne) _).
  vm_compute. reflexivity.
Defined.

(** ** The pattern tables *)

Lemma collect_fold (keys : list string) (doc : string) (acc : gmap string string) (k : string) :
  foldl (fun properties '(propName, pattern) =>
           match FindStringSubmatch pattern doc with
           | _ :: g :: _ => <[propName := strs.TrimSpace g]> properties
           | _ => properties
           end) acc (catalog keys) !! k
  = match (if bool_decide (k ∈ keys) then propertyValue k doc else None) with
    | Some v => Some v
    | None => acc !! k
    end.
Proof.
  revert acc. induction keys as [|k0 keys IH]; intros acc; [reflexivity|].
  cbn [catalog map foldl]. fold (catalog keys). rewrite IH.
  destruct (decide (k = k0)) as [->|Hne].
  - rewrite (bool_decide_eq_true_2 (k0 ∈ k0 :: keys)) by (left).
    destruct (bool_decide (k0 ∈ keys)).
    + unfold propertyValue.
      destruct (FindStringSubmatch (keyPattern k0) doc) as [|w [|g rest]]; try reflexivity.
    + unfold propertyValue.
      destruct (FindStringSubmatch (keyPattern k0) doc) as [|w [|g rest]]; try reflexivity.
      apply lookup_insert_eq.
  - assert (Hiff : bool_decide (k ∈ k0 :: keys) = bool_decide (k ∈ keys)).
    { apply bool_decide_ext. rewrite elem_of_cons. tauto. }
    rewrite Hiff.
    destruct (if bool_decide (k ∈ keys) then propertyValue k doc else None); [reflexivity|].
    destruct (FindStringSubmatch (keyPattern k0) doc) as [|w [|g rest]]; try reflexivity.
    apply lookup_insert_ne. congruence.
Qed.

(** A property is set exactly when its key is in the table and its
    pattern finds a value. *)
Lemma collect_lookup (keys : list string) (doc k : string) :
  collect (catalog keys) doc !! k
  = if bool_decide (k ∈ keys) then propertyValue k doc else None.
Proof.
  unfold collect. rewrite collect_fold.
  destruct (if bool_decide (k ∈ keys) then propertyValue k doc else None); reflexivity.
Qed.

Lemma distanceKey_ext (ToLower : string -> string) (k : string) :
  ToLower k = strs.ToLowerASCII k ->
  distanceKey ToLower k = distanceKey strs.ToLowerASCII k.
Proof. intros H. unfold distanceKey. rewrite H. reflexivity. Qed.

(** Of the parser's seven keys, the command's five are the ones that
    pass the distance test. *)
Lemma distance_keys_of_the_table :
  Forall (fun k => distanceKey strs.ToLowerASCII k
                   = bool_decide (k ∈ map fst spawnerPatterns))
         (map fst propertyPatterns).
Proof. repeat constructor; vm_compute; reflexivity. Qed.

Lemma command_keys_in_the_table (k : string) :
  k ∈ map fst spawnerPatterns -> k ∈ map fst propertyPatterns.
Proof.
  cbn. rewrite !elem_of_cons, !elem_of_nil. tauto.
Qed.

Section Agreement.
Variable ToLower : string -> string.

(** X17.  On every segment the parser and the command find the same
    distance properties.  The parser's table has the command's five keys
    and two more ([Jittering], [EligibleForInjection]); the five pass the
    distance test of [ExtractSpawnerDistances] and the two do not, and
    the patterns are the same.  So the distance properties of a parsed
    node are what [extractSpawners] collects from the node's segment.
    ([ToLower] is any lowering that does to the seven keys what ASCII
    lowering does.) *)
Theorem helper_and_command_agree_on_a_segment (doc : string) :
  (forall k, In k (map fst propertyPatterns) -> ToLower k = strs.ToLowerASCII k) ->
  distanceProps ToLower (collect propertyPatterns doc) = collect spawnerPatterns doc
  /\ forall node, parseDocument doc = Some node ->
       distanceProps ToLower (Properties node) = collect spawnerPatterns doc.
Proof.
  intros Hlower.
  assert (Heq : distanceProps ToLower (collect propertyPatterns doc)
                = collect spawnerPatterns doc).
  { apply map_eq. intros k. apply option_eq. intros v.
    unfold distanceProps. rewrite map_lookup_filter_Some. cbn [fst].
    unfold propertyPatterns, spawnerPatterns. rewrite !collect_lookup.
    fold propertyPatterns. fold spawnerPatterns.
    set (seven := ["Extents"; "GridCellSize"; "MinimumDistance"; "RoadPoseDistance";
                   "Spacing"; "Jittering"; "EligibleForInjection"]).
    set (five := ["Extents"; "GridCellSize"; "MinimumDistance"; "RoadPoseDistance";
                  "Spacing"]).
    destruct (bool_decide_reflect (k ∈ seven)) as [Hin|Hout].
    - rewrite (distanceKey_ext ToLower k) by (apply Hlower, list_elem_of_In, Hin).
      pose proof distance_keys_of_the_table as Htable.
      rewrite Forall_forall in Htable. rewrite (Htable k Hin).
      change (map fst spawnerPatterns) with five.
      destruct (bool_decide (k ∈ five)); intuition discriminate.
    - destruct (bool_decide_reflect (k ∈ five)) as [Hin|_]; [|intuition discriminate].
      exfalso. apply Hout. apply (command_keys_in_the_table k Hin). }
  split; [exact Heq|].
  intros node Hnode. rewrite parseDocument_name in Hnode.
  destruct (nonempty (segmentName doc)); [|discriminate].
  injection Hnode as <-. exact Heq.
Qed.

End Agreement.

Lemma helper_and_command_agree_on_a_segment_witness :
  let doc := " !u!114 &7" +:+ nl +:+ "  m_Name: Grid Spawner" +:+ nl
             +:+ "  Extents: 150" +:+ nl +:+ "  Jittering: 1" +:+ nl in
  distanceProps strs.ToLowerASCII (collect propertyPatterns doc)
  = collect spawnerPatterns doc.
Proof.
  intros doc.
  exact (proj1 (helper_and_command_agree_on_a_segment strs.ToLowerASCII doc
                  (fun k _ => eq_refl))).
Defined.

(** ** More on the unity-extract command *)

Lemma name_needs_key (doc : string) :
  strs.Contains doc "m_Name:" = false -> FindStringSubmatch namePattern doc = [].
Proof.
  intros H. unfold FindStringSubmatch.
  change namePattern with (Seq (Lit "m_Name:") (cat [Star space; Cap (Plus dot)])).
  rewrite find_needs_literal by exact H. reflexivity.
Qed.

Lemma nodesBody_listed (st : Z * list event) (doc : string) :
  nodesBody st doc
  = match listedName doc with
    | Some name => (fst st + 1, snd st ++ [Printf "- %s\n" [str name]])
    | None => st
    end.
Proof.
  unfold nodesBody, listedName.
  destruct (strs.Contains doc "m_Name:") eqn:Hc.
  - destruct (FindStringSubmatch namePattern doc) as [|w [|g rest]]; reflexivity.
  - rewrite (name_needs_key doc Hc). reflexivity.
Qed.

Lemma omap_step {A B : Type} (f : A -> option B) (x : A) (l : list A) :
  omap f (x :: l)
  = match f x with
    | Some y => y :: omap f l
    | None => omap f l
    end.
Proof. reflexivity. Qed.

Lemma nodes_loop (docs : list string) (st : Z * list event) :
  foldl nodesBody st docs
  = (fst st + Z.of_nat (length (omap listedName docs)),
     snd st ++ map (fun name => Printf "- %s\n" [str name]) (omap listedName docs)).
Proof.
  revert st. induction docs as [|doc docs IH]; intros [count out]; cbn [foldl].
  - cbn. rewrite Z.add_0_r, List.app_nil_r. reflexivity.
  - rewrite IH, nodesBody_listed, omap_step.
    destruct (listedName doc) as [name|]; cbn [fst snd]; [|reflexivity].
    cbn [length map]. rewrite <- List.app_assoc. cbn [app]. f_equal. lia.
Qed.

Lemma names_of_nodes (docs : list string) :
  map Name (omap parseDocument docs) = List.filter nonempty (omap listedName docs).
Proof.
  induction docs as [|doc docs IH]; [reflexivity|]. rewrite !omap_step.
  rewrite parseDocument_name. unfold segmentName, listedName.
  destruct (FindStringSubmatch namePattern doc) as [|w [|g rest]]; cbn [nonempty];
    try exact IH.
  cbn [List.filter]. destruct (nonempty (strs.TrimSpace g)); cbn [map Name];
    rewrite IH; reflexivity.
Qed.

(** X18.  The [nodes] kind lists, in order, the name found in every
    segment in which the name pattern matches; the total it prints is the
    number of lines listed; and it never fails.  The names of the nodes
    [ParseUnityGraphNodes] returns are the listed names that are not
    empty: the command also lists, and counts, a segment whose name is
    blank. *)
Theorem nodes_command_lists_names (content : string) :
  let names := omap listedName (strs.Split content "---") in
  extractNodes content
  = (map (fun name => Printf "- %s\n" [str name]) names
     ++ [Printf "\nTotal nodes: %d\n" [int (Z.of_nat (length names))]],
     Return None)
  /\ map Name (fst (ParseUnityGraphNodes content)) = List.filter nonempty names.
Proof.
  intros names. split.
  - unfold extractNodes. rewrite nodes_loop. reflexivity.
  - rewrite Parse_segments. apply names_of_nodes.
Qed.

Lemma spawnersBody_block (st : Z * list event) (doc : string) :
  spawnersBody st doc
  = match spawnerBlock doc with
    | Some block => (fst st + 1, snd st ++ block)
    | None => st
    end.
Proof.
  unfold spawnersBody, spawnerBlock, listedName.
  destruct (strs.Contains doc "Spawner"); [|reflexivity]. cbn [andb].
  destruct (strs.Contains doc "m_Name:") eqn:Hc.
  - destruct (FindStringSubmatch namePattern doc) as [|w [|g rest]]; try reflexivity.
    cbv zeta. destruct (bool_decide (collect spawnerPatterns doc = ∅)); reflexivity.
  - rewrite (name_needs_key doc Hc). reflexivity.
Qed.

Lemma spawners_loop (docs : list string) (st : Z * list event) :
  foldl spawnersBody st docs
  = (fst st + Z.of_nat (length (omap spawnerBlock docs)),
     snd st ++ concat (omap spawnerBlock docs)).
Proof.
  revert st. induction docs as [|doc docs IH]; intros [count out]; cbn [foldl].
  - cbn. rewrite Z.add_0_r, List.app_nil_r. reflexivity.
  - rewrite IH, spawnersBody_block, omap_step.
    destruct (spawnerBlock doc) as [block|]; cbn [fst snd]; [|reflexivity].
    cbn [length concat]. rewrite <- List.app_assoc. f_equal. lia.
Qed.

(** X19.  The [spawners] kind prints one block per segment that has
    [Spawner] in it, a name, and one of the five properties at least: the
    heading with the name, the properties found, a blank line.  The
    summary counts the blocks: it is the line about no spawners exactly
    when no block was printed.  The call never fails. *)
Theorem spawners_command_counts_blocks (content : string) :
  let blocks := omap spawnerBlock (strs.Split content "---") in
  extractSpawners content
  = (concat blocks
     ++ (match blocks with
         | [] => [Println [str "No spawners with distance properties found"]]
         | _ => [Printf "Total spawners found: %d\n" [int (Z.of_nat (length blocks))]]
         end),
     Return None)
  /\ Forall (fun block =>
               exists name properties,
                 properties <> ∅
                 /\ block = [Printf "%s:\n" [str name]] ++ print_properties properties
                            ++ [Println []])
            blocks.
Proof.
  intros blocks. split.
  - unfold extractSpawners. rewrite spawners_loop. fold blocks. cbn [fst snd app].
    destruct blocks as [|b bs]; [reflexivity|].
    replace (0 + Z.of_nat (length (b :: bs)) =? 0) with false; [reflexivity|].
    symmetry. apply Z.eqb_neq. cbn [length]. lia.
  - apply Forall_forall. intros block Hin.
    apply list_elem_of_omap in Hin as (doc & _ & Hdoc).
    unfold spawnerBlock in Hdoc.
    destruct (strs.Contains doc "Spawner"); [|discriminate].
    destruct (listedName doc) as [name|]; [|discriminate].
    destruct (bool_decide_reflect (collect spawnerPatterns doc = ∅)) as [|Hne]; [discriminate|].
    injection Hdoc as <-. eauto.
Qed.

Lemma count_value_valueOf (values : gmap string Z) (m : list string) :
  count_value values m
  = match valueOf m with
    | Some v => <[v := default 0 (values !! v) + 1]> values
    | None => values
    end.
Proof. destruct m as [|w [|g rest]]; reflexivity. Qed.

Lemma occurrences_cons (v : string) (m : list string) (ms : list (list string)) :
  occurrences v (m :: ms)
  = ((if bool_decide (valueOf m = Some v) then 1 else 0) + occurrences v ms)%nat.
Proof.
  unfold occurrences. cbn [List.filter].
  destruct (bool_decide (valueOf m = Some v)); reflexivity.
Qed.

(** The counting loop: the count of a value is what it was plus the
    number of matches with that value. *)
Lemma count_fold (ms : list (list string)) (acc : gmap string Z) (v : string) :
  foldl count_value acc ms !! v
  = match acc !! v with
    | Some a => Some (a + Z.of_nat (occurrences v ms))
    | None => if (occurrences v ms =? 0)%nat then None
              else Some (Z.of_nat (occurrences v ms))
    end.
Proof.
  revert acc. induction ms as [|m ms IH]; intros acc; cbn [foldl].
  - cbn. destruct (acc !! v); [rewrite Z.add_0_r|]; reflexivity.
  - rewrite IH, count_value_valueOf, occurrences_cons.
    destruct (valueOf m) as [w|].
    + destruct (decide (w = v)) as [->|Hne].
      * rewrite lookup_insert_eq, bool_decide_eq_true_2 by reflexivity.
        destruct (acc !! v) as [a|]; cbn [default Nat.add Nat.eqb]; unfold id; f_equal; lia.
      * rewrite lookup_insert_ne by exact Hne.
        rewrite bool_decide_eq_false_2 by congruence. reflexivity.
    + rewrite bool_decide_eq_false_2 by discriminate. reflexivity.
Qed.

Lemma all_go_In (n : nat) (r : re) (s : string) (m : found) :
  forall skip, In m (all_go n r skip s) -> exists q, match_here n r q = Some m.
Proof.
  induction s as [|c s IH]; intros skip; cbn [all_go].
  - destruct skip; [|intros []].
    destruct (match_here n r EmptyString) as [m'|] eqn:Hm; [|intros []].
    intros [<-|[]]. eauto.
  - destruct skip as [|k]; [|apply IH].
    destruct (match_here n r (String c s)) as [m'|] eqn:Hm; [|apply IH].
    intros [<-|Hin]; [eauto|exact (IH _ Hin)].
Qed.

(** A group around a pattern without groups adds one capture. *)
Lemma cap_taken {R : Type} (n : nat) (r : re) (s : string) (caps : list string)
    (k : string -> list string -> option R) (x : R) :
  capture_free r = true ->
  run n (Cap r) s caps k = Some x -> exists g s', k s' (caps ++ [g]) = Some x.
Proof.
  intros Hfree H. cbn [run] in H. apply run_keeps_caps in H as [i H]; [|exact Hfree]. eauto.
Qed.

Lemma keyPattern_groups (n : nat) (key q : string) (m : found) :
  match_here n (keyPattern key) q = Some m -> exists g, groups m = [g].
Proof.
  unfold match_here, keyPattern.
  change (run n (cat [Lit (key +:+ ":"); Star space; Cap (Plus dot)]) q [])
    with (run (R := found) n (Seq (cat [Lit (key +:+ ":"); Star space]) (Cap (Plus dot))) q []).
  rewrite run_Seq. intros H. apply run_keeps_caps in H as [i H]; [|reflexivity].
  apply cap_taken in H as (g & s' & H); [|reflexivity].
  injection H as <-. cbn. eauto.
Qed.

Lemma key_matches_have_values (key content : string) :
  Forall (fun m => is_Some (valueOf m)) (FindAllStringSubmatch (keyPattern key) content).
Proof.
  apply Forall_forall. intros m Hin. unfold FindAllStringSubmatch in Hin.
  apply list_elem_of_In, in_map_iff in Hin as (f & <- & Hf).
  apply all_go_In in Hf as [q Hq]. apply keyPattern_groups in Hq as [g ->].
  cbn. eauto.
Qed.

(** X20.  The [property] kind counts right.  When the pattern of the
    property has matches, the call prints a heading and one line per
    value, and the count on the line of a value is the number of matches
    whose captured text, trimmed, is that value; every match has a
    captured text, so every match is counted; values that differ only in
    surrounding white space are one value.  The call does not fail. *)
Theorem property_command_counts_values (content property : string) :
  ValidString property = true ->
  FindAllStringSubmatch (keyPattern property) content <> [] ->
  exists values,
    extractProperty content property
    = (Printf "Property '%s' values:\n" [str property]
         :: map (fun kv => Printf "  %s: %d occurrences\n" [str (fst kv); int (snd kv)])
                (map_to_list values),
       Return None)
    /\ (forall v,
          values !! v
          = let n := occurrences v (FindAllStringSubmatch (keyPattern property) content) in
            if (n =? 0)%nat then None else Some (Z.of_nat n))
    /\ Forall (fun m => is_Some (valueOf m))
              (FindAllStringSubmatch (keyPattern property) content).
Proof.
  intros Hvalid Hsome.
  exists (foldl count_value ∅ (FindAllStringSubmatch (keyPattern property) content)).
  split; [|split].
  - unfold extractProperty, propertyPattern. rewrite Hvalid.
    destruct (FindAllStringSubmatch (keyPattern property) content); [contradiction|reflexivity].
  - intros v. rewrite count_fold, lookup_empty. reflexivity.
  - apply key_matches_have_values.
Qed.

Lemma property_command_counts_values_witness :
  let content := "  Extents: 150" +:+ nl +:+ "---" +:+ nl +:+ "  Extents:   150 " +:+ nl
                 +:+ "---" +:+ nl +:+ "  Extents: 20" +:+ nl in
  exists values,
    extractProperty content "Extents"
    = (Printf "Property '%s' values:\n" [str "Extents"]
         :: map (fun kv => Printf "  %s: %d occurrences\n" [str (fst kv); int (snd kv)])
                (map_to_list values),
       Return None)
    /\ values !! "150" = Some 2
    /\ values !! "20" = Some 1
    /\ values !! "150 " = None.
Proof.
  intros content.
  assert (Hsome : FindAllStringSubmatch (keyPattern "Extents") content <> [])
    by (vm_compute; discriminate).
  destruct (property_command_counts_values content "Extents" eq_refl Hsome)
    as (values & Hrun & Hcount & _).
  exists values. split; [exact Hrun|].
  rewrite !Hcount. repeat split; vm_compute; reflexivity.
Defined.

Lemma printed_lines_quiet {A} (f : A -> string * list arg) (l : list A) :
  existsb is_ReadFile (map (fun x => Printf (fst (f x)) (snd (f x))) l) = false.
Proof. induction l as [|x l IH]; [reflexivity|exact IH]. Qed.

Lemma extractNodes_quiet (content : string) :
  existsb is_ReadFile (fst (extractNodes content)) = false.
Proof.
  unfold extractNodes. rewrite nodes_loop. cbn [fst snd app].
  rewrite existsb_app.
  rewrite (printed_lines_quiet (fun name => ("- %s\n", [str name]))). reflexivity.
Qed.

Lemma extractSpawners_quiet (content : string) :
  existsb is_ReadFile (fst (extractSpawners content)) = false.
Proof.
  unfold extractSpawners. rewrite spawners_loop. cbn [fst snd app].
  rewrite existsb_app. apply orb_false_iff. split.
  - induction (strs.Split content "---") as [|doc docs IH]; [reflexivity|].
    rewrite omap_step. destruct (spawnerBlock doc) as [block|] eqn:Hblock; [|exact IH].
    cbn [concat]. rewrite existsb_app, IH, orb_false_r.
    unfold spawnerBlock in Hblock.
    destruct (strs.Contains doc "Spawner"); [|discriminate].
    destruct (listedName doc); [|discriminate].
    destruct (bool_decide (collect spawnerPatterns doc = ∅)); [discriminate|].
    injection Hblock as <-.
    cbn [app existsb is_ReadFile orb]. rewrite existsb_app.
    unfold print_properties.
    rewrite (printed_lines_quiet (fun kv => ("  %s: %s\n", [str (fst kv); str (snd kv)]))).
    reflexivity.
  - destruct (_ =? 0); reflexivity.
Qed.

Lemma extractProperty_quiet (content property : string) :
  existsb is_ReadFile (fst (extractProperty content property)) = false.
Proof.
  unfold extractProperty. destruct (propertyPattern property); [|reflexivity].
  destruct (FindAllStringSubmatch r content); [reflexivity|].
  cbn [fst existsb is_ReadFile orb].
  apply (printed_lines_quiet
           (fun kv : string * Z => ("  %s: %d occurrences\n", [str (fst kv); int (snd kv)]))).
Qed.

Lemma extractProperty_exit (content property : string) :
  snd (extractProperty content property)
  = if ValidString property then Return None else Panic "regexp: Compile: invalid UTF-8".
Proof.
  unfold extractProperty, propertyPattern. destruct (ValidString property); [|reflexivity].
  destruct (FindAllStringSubmatch _ content); reflexivity.
Qed.

(** X21.  A call of the command with two arguments or more reads the
    file named by the second, once, before anything else; arguments after
    the second are ignored.  When the file cannot be read the call
    returns an error that wraps the reason and prints nothing.  When it
    can, [spawners] and [nodes] always return nil; [property] returns nil
    when the flag is set to valid UTF-8, an error when the flag is empty,
    and panics in [MustCompile] when the flag is not valid UTF-8; any
    other kind is an error that names the kind. *)
Theorem command_reads_once_then_decides (fs : FileSystem)
    (propertyName extractType filename : string) (rest : list string) :
  exists out,
    fst (unityExtractFunc fs propertyName (extractType :: filename :: rest))
    = ReadFile filename :: out
    /\ existsb is_ReadFile out = false
    /\ snd (unityExtractFunc fs propertyName (extractType :: filename :: rest))
       = match fs filename with
         | inr err => Return (Some (Errorf ("failed to read file: " +:+ message err)))
         | inl _ => verdict propertyName extractType
         end
    /\ (forall err, fs filename = inr err -> out = []).
Proof.
  unfold unityExtractFunc, verdict.
  destruct (fs filename) as [content|err].
  2:{ exists []. cbn. repeat split. }
  destruct (String.eqb extractType "spawners").
  { pose proof (extractSpawners_quiet content) as Hq.
    destruct (extractSpawners content) as [out res] eqn:Hrun.
    exists out. cbn in *. repeat split; [exact Hq| |discriminate].
    unfold extractSpawners in Hrun. destruct (foldl _ _ _) in Hrun. congruence. }
  destruct (String.eqb extractType "nodes").
  { pose proof (extractNodes_quiet content) as Hq.
    destruct (extractNodes content) as [out res] eqn:Hrun.
    exists out. cbn in *. repeat split; [exact Hq| |discriminate].
    unfold extractNodes in Hrun. destruct (foldl _ _ _) in Hrun. congruence. }
  cbn [orb].
  destruct (String.eqb extractType "property").
  - destruct (String.eqb propertyName EmptyString).
    + exists []. cbn. repeat split; discriminate.
    + pose proof (extractProperty_quiet content propertyName) as Hq.
      pose proof (extractProperty_exit content propertyName) as He.
      destruct (extractProperty content propertyName) as [out res].
      exists out. cbn in *. repeat split; [exact Hq|exact He|discriminate].
  - exists []. cbn. repeat split; discriminate.
Qed.

(** ** The matcher, step by step *)

Lemma star_ext {R : Type} (p : ascii -> bool) (k k' : string -> option R) (s : string) :
  (forall s', k s' = k' s') -> star p k s = star p k' s.
Proof.
  intros H. induction s as [|c s IH]; cbn [star]; [apply H|].
  rewrite IH, H. reflexivity.
Qed.

Lemma run_ext {R : Type} (r : re) :
  forall (n : nat) (s : string) (caps : list string)
         (k k' : string -> list string -> option R),
    (forall s' caps', k s' caps' = k' s' caps') ->
    run n r s caps k = run n r s caps k'.
Proof.
  induction r as [| |l|l|p|p|r1 IH1 r2 IH2|r1 IH1 r2 IH2|r1 IH1|r1 IH1];
    intros n s caps k k' H; cbn [run].
  - apply H.
  - destruct (_ =? _)%nat; [apply H|reflexivity].
  - destruct (strs.HasPrefix s l); [apply H|reflexivity].
  - destruct (fold_lit l s); [apply H|reflexivity].
  - apply star_ext. intros s'. apply H.
  - destruct s as [|c s]; [reflexivity|]. destruct (p c); [|reflexivity].
    apply star_ext. intros s'. apply H.
  - apply IH1. intros s' caps'. apply IH2, H.
  - rewrite (IH1 n s caps k k' H), (IH2 n s caps k k' H). reflexivity.
  - rewrite (IH1 n s caps k k' H), H. reflexivity.
  - apply IH1. intros s' caps'. apply H.
Qed.

Lemma star_map {R R' : Type} (f : R -> R') (p : ascii -> bool) (k : string -> option R)
    (s : string) :
  star p (fun s' => option_map f (k s')) s = option_map f (star p k s).
Proof.
  induction s as [|c s IH]; cbn [star]; [reflexivity|].
  destruct (p c); [|reflexivity]. rewrite IH. destruct (star p k s); reflexivity.
Qed.

(** What the continuation returns does not bear on how the match is
    found. *)
Lemma run_map {R R' : Type} (f : R -> R') (r : re) :
  forall (n : nat) (s : string) (caps : list string)
         (k : string -> list string -> option R),
    run n r s caps (fun s' caps' => option_map f (k s' caps'))
    = option_map f (run n r s caps k).
Proof.
  induction r as [| |l|l|p|p|r1 IH1 r2 IH2|r1 IH1 r2 IH2|r1 IH1|r1 IH1];
    intros n s caps k; cbn [run]; try reflexivity.
  - destruct (_ =? _)%nat; reflexivity.
  - destruct (strs.HasPrefix s l); reflexivity.
  - destruct (fold_lit l s); reflexivity.
  - apply (star_map f p (fun s' => k s' caps)).
  - destruct s as [|c s]; [reflexivity|]. destruct (p c); [|reflexivity].
    apply (star_map f p (fun s' => k s' caps)).
  - rewrite <- IH1. apply run_ext. intros s' caps'. apply IH2.
  - rewrite IH1, IH2. destruct (run n r1 s caps k); reflexivity.
  - rewrite IH1. destruct (run n r1 s caps k); reflexivity.
  - rewrite <- IH1. reflexivity.
Qed.

Lemma run_unanchored {R : Type} (r : re) :
  unanchored r = true ->
  forall (n n' : nat) (s : string) (caps : list string)
         (k : string -> list string -> option R),
    run n r s caps k = run n' r s caps k.
Proof.
  induction r as [| |l|l|p|p|r1 IH1 r2 IH2|r1 IH1 r2 IH2|r1 IH1|r1 IH1];
    intros Hfree n n' s caps k; cbn [run unanchored] in *; try reflexivity.
  - discriminate.
  - apply andb_true_iff in Hfree as [H1 H2].
    rewrite (IH1 H1 n n'). apply run_ext. intros s' caps'. apply (IH2 H2).
  - apply andb_true_iff in Hfree as [H1 H2].
    rewrite (IH1 H1 n n'), (IH2 H2 n n'). reflexivity.
  - rewrite (IH1 Hfree n n'). reflexivity.
  - apply (IH1 Hfree).
Qed.

(** The text of the match at a place does not depend on where the place
    is in the whole text. *)
Lemma match_whole (n n' : nat) (r : re) (s : string) :
  unanchored r = true ->
  option_map whole (match_here n r s) = option_map whole (match_here n' r s).
Proof.
  intros Hfree. unfold match_here. rewrite <- !(run_map whole).
  cbn [option_map whole]. apply (run_unanchored r Hfree).
Qed.

Lemma replace_go_unanchored (n n' : nat) (r : re) (repl : string) :
  unanchored r = true ->
  forall s skip, replace_go n r repl skip s = replace_go n' r repl skip s.
Proof.
  intros Hfree. induction s as [|c s IH]; intros skip; [reflexivity|].
  cbn [replace_go]. destruct skip as [|k]; [|apply IH].
  pose proof (match_whole n n' r (String c s) Hfree) as Hw.
  destruct (match_here n r (String c s)) as [m|], (match_here n' r (String c s)) as [m'|];
    cbn in Hw; try discriminate; [|rewrite IH; reflexivity].
  injection Hw as ->. destruct (String.length (whole m')); rewrite IH; reflexivity.
Qed.

Lemma replace_go_skip (n : nat) (r : re) (repl s : string) :
  forall k, replace_go n r repl k s = replace_go n r repl 0 (drop k s).
Proof.
  induction s as [|c s IH]; intros [|k]; try reflexivity. cbn [replace_go drop]. apply IH.
Qed.

(** The first match replaced: in front of it the text is kept, and the
    replacing goes on behind it. *)
Lemma ReplaceAll_first (r : re) (repl p w q : string) :
  unanchored r = true -> w <> EmptyString ->
  (forall n p1 c p2, p = p1 +:+ String c p2 ->
                     match_here n r (String c p2 +:+ w +:+ q) = None) ->
  (forall n, option_map whole (match_here n r (w +:+ q)) = Some w) ->
  ReplaceAllString r (p +:+ w +:+ q) repl = p +:+ repl +:+ ReplaceAllString r q repl.
Proof.
  intros Hfree Hw Hnone Hsome. unfold ReplaceAllString.
  rewrite (replace_go_unanchored (String.length q) (String.length (p +:+ w +:+ q)) r repl Hfree).
  generalize (String.length (p +:+ w +:+ q)) as n. intros n.
  induction p as [|c p IH].
  - rewrite !sapp_nil_l. specialize (Hsome n).
    destruct w as [|c w]; [contradiction|]. rewrite sapp_cons in Hsome |- *.
    cbn [replace_go].
    destruct (match_here n r (String c (w +:+ q))) as [m|]; [|discriminate].
    cbn in Hsome. injection Hsome as ->. cbn [String.length].
    rewrite replace_go_skip, drop_app_length. reflexivity.
  - rewrite !sapp_cons. cbn [replace_go].
    pose proof (Hnone n EmptyString c p eq_refl) as Hn. rewrite sapp_cons in Hn.
    rewrite Hn. f_equal.
    apply IH. intros n' p1 c' p2 ->. apply (Hnone n' (String c p1) c' p2). reflexivity.
Qed.

Lemma run_Lit_app {R : Type} (n : nat) (l s : string) (caps : list string)
    (k : string -> list string -> option R) :
  run n (Lit l) (l +:+ s) caps k = k s caps.
Proof. cbn [run]. rewrite HasPrefix_app, drop_app_length. reflexivity. Qed.

Lemma run_Lit_miss {R : Type} (n : nat) (l s : string) (caps : list string)
    (k : string -> list string -> option R) :
  strs.HasPrefix s l = false -> run n (Lit l) s caps k = None.
Proof. intros H. cbn [run]. rewrite H. reflexivity. Qed.

(** A greedy repetition takes all the bytes of the class in front of a
    text it stops at, when the rest of the pattern matches from there. *)
Lemma star_all {R : Type} (p : ascii -> bool) (k : string -> option R) (d s : string) (x : R) :
  all_of p d = true -> stops p s = true -> k s = Some x ->
  star p k (d +:+ s) = Some x.
Proof.
  intros Hall Hstop Hk. induction d as [|c d IH].
  - rewrite sapp_nil_l. destruct s as [|c s]; cbn [star]; [exact Hk|].
    cbn in Hstop. apply negb_true_iff in Hstop. rewrite Hstop. exact Hk.
  - unfold all_of in Hall. cbn in Hall. apply andb_true_iff in Hall as [Hc Hd].
    rewrite sapp_cons. cbn [star]. rewrite Hc, (IH Hd). reflexivity.
Qed.

Lemma run_Star_all {R : Type} (n : nat) (p : ascii -> bool) (d s : string)
    (caps : list string) (k : string -> list string -> option R) (x : R) :
  all_of p d = true -> stops p s = true -> k s caps = Some x ->
  run n (Star p) (d +:+ s) caps k = Some x.
Proof. intros Hall Hstop Hk. cbn [run]. apply star_all; assumption. Qed.

Lemma run_Plus_all {R : Type} (n : nat) (p : ascii -> bool) (d s : string)
    (caps : list string) (k : string -> list string -> option R) (x : R) :
  d <> EmptyString -> all_of p d = true -> stops p s = true -> k s caps = Some x ->
  run n (Plus p) (d +:+ s) caps k = Some x.
Proof.
  intros Hne Hall Hstop Hk. destruct d as [|c d]; [contradiction|].
  unfold all_of in Hall. cbn in Hall. apply andb_true_iff in Hall as [Hc Hd].
  rewrite sapp_cons. cbn [run]. rewrite Hc. apply star_all; assumption.
Qed.

Lemma run_Opt_skip {R : Type} (n : nat) (r : re) (s : string) (caps : list string)
    (k : string -> list string -> option R) :
  run n r s caps k = None -> run n (Opt r) s caps k = k s caps.
Proof. intros H. cbn [run]. rewrite H. reflexivity. Qed.

Lemma run_Opt_take {R : Type} (n : nat) (r : re) (s : string) (caps : list string)
    (k : string -> list string -> option R) (x : R) :
  run n r s caps k = Some x -> run n (Opt r) s caps k = Some x.
Proof. intros H. cbn [run]. rewrite H. reflexivity. Qed.

Lemma stops_first (p : ascii -> bool) (c : ascii) (s : string) :
  p c = false -> stops p (String c s) = true.
Proof. intros H. cbn. rewrite H. reflexivity. Qed.

Lemma digit_not_space (c : ascii) : digit c = true -> space c = false.
Proof.
  unfold digit, space. intros [?%N.leb_le ?%N.leb_le]%andb_true_iff.
  repeat (apply orb_false_iff; split); apply N.eqb_neq; lia.
Qed.

Lemma digit_not_dash (c : ascii) : digit c = true -> c <> "-"%char.
Proof. intros H ->. discriminate H. Qed.

Lemma HasPrefix_first (c d : ascii) (s l : string) :
  c <> d -> strs.HasPrefix (String c s) (String d l) = false.
Proof.
  intros Hne. unfold strs.HasPrefix. cbn [String.prefix].
  destruct (ascii_dec d c); [congruence|reflexivity].
Qed.

(** *** The type tag *)

Lemma tag_match (n : nat) (d q : string) :
  d <> EmptyString -> all_of digit d = true -> stops digit q = true ->
  option_map whole (match_here n unityTagPattern ("!u!" +:+ d +:+ q)) = Some ("!u!" +:+ d).
Proof.
  intros Hne Hall Hstop. unfold match_here. rewrite <- (run_map whole).
  cbn [option_map whole]. unfold unityTagPattern. cbn [cat foldr].
  rewrite run_Seq, run_Lit_app, run_Seq.
  apply run_Plus_all; try assumption. cbn [run]. f_equal.
  replace (String.length ("!u!" +:+ d +:+ q) - String.length q)%nat
    with (String.length ("!u!" +:+ d)).
  - rewrite <- sapp_assoc. apply take_app_length.
  - rewrite <- sapp_assoc, (slength_app ("!u!" +:+ d) q). lia.
Qed.

Lemma tag_no_match (n : nat) (c : ascii) (s : string) :
  c <> "!"%char -> match_here n unityTagPattern (String c s) = None.
Proof.
  intros Hne. change unityTagPattern with (Seq (Lit "!u!") (cat [Plus digit])).
  apply match_here_Lit. apply HasPrefix_first. exact Hne.
Qed.

Lemma first_not_in (c d : ascii) (p p1 p2 : string) :
  ~ mem d p -> p = p1 +:+ String c p2 -> c <> d.
Proof.
  intros Hm -> ->. apply Hm. apply mem_app. right. left. reflexivity.
Qed.

(** X22.  The second substitution of the bulk read: an inline type tag
    [!u!<digits>] is removed.  In front of the first tag (a text without
    [!]) nothing changes, the tag with all its digits goes, and the
    substitution carries on behind it; so a remainder with one tag in it
    is the remainder without the tag. *)
Theorem inline_type_tags_are_removed (p d q : string) :
  ~ mem "!"%char p -> d <> EmptyString -> all_of digit d = true -> stops digit q = true ->
  ReplaceAllString unityTagPattern (p +:+ ("!u!" +:+ d) +:+ q) EmptyString
  = p +:+ ReplaceAllString unityTagPattern q EmptyString
  /\ (strs.Contains q "!u!" = false ->
      ReplaceAllString unityTagPattern (p +:+ ("!u!" +:+ d) +:+ q) EmptyString = p +:+ q).
Proof.
  intros Hp Hne Hall Hstop.
  assert (Heq : ReplaceAllString unityTagPattern (p +:+ ("!u!" +:+ d) +:+ q) EmptyString
                = p +:+ ReplaceAllString unityTagPattern q EmptyString).
  { rewrite (ReplaceAll_first unityTagPattern EmptyString p ("!u!" +:+ d) q);
      [rewrite sapp_nil_l; reflexivity | reflexivity | discriminate | |].
    - intros n p1 c p2 Hsplit. rewrite sapp_cons. apply tag_no_match.
      exact (first_not_in _ _ _ _ _ Hp Hsplit).
    - intros n. rewrite sapp_assoc. apply tag_match; assumption. }
  split; [exact Heq|].
  intros Hno. rewrite Heq. f_equal.
  change unityTagPattern with (Seq (Lit "!u!") (cat [Plus digit])).
  apply ReplaceAll_needs_literal. exact Hno.
Qed.

Lemma inline_type_tags_are_removed_witness :
  ReplaceAllString unityTagPattern ("--- " +:+ ("!u!" +:+ "114") +:+ " &42") EmptyString
  = "---  &42".
Proof.
  assert (Hm : ~ mem "!"%char "--- ") by (unfold mem; simpl; intuition discriminate).
  assert (Hne : "114" <> EmptyString) by discriminate.
  exact (proj2 (inline_type_tags_are_removed "--- " "114" " &42" Hm Hne eq_refl eq_refl)
           eq_refl).
Defined.

(** *** The cross-reference *)

Lemma ref_no_match (n : nat) (c : ascii) (s : string) :
  c <> "{"%char -> match_here n unityRefPattern (String c s) = None.
Proof.
  intros Hne.
  change unityRefPattern
    with (Seq (Lit "{fileID:")
              (cat [Star space; Opt (Lit "-"); Plus digit;
                    Opt (cat [Lit ","; Star space; Lit "guid:"; Star space; Plus hexlow;
                              Lit ","; Star space; Lit "type:"; Star space; Plus digit]);
                    Lit "}"])).
  apply match_here_Lit. apply HasPrefix_first. exact Hne.
Qed.

Lemma stops_space_number (sign d s : string) :
  sign = EmptyString \/ sign = "-" -> d <> EmptyString -> all_of digit d = true ->
  stops space (sign +:+ d +:+ s) = true.
Proof.
  intros [->| ->] Hne Hall; [|reflexivity].
  destruct d as [|c d]; [contradiction|]. rewrite sapp_nil_l, sapp_cons.
  unfold all_of in Hall. cbn in Hall. apply andb_true_iff in Hall as [Hc _].
  apply stops_first, digit_not_space, Hc.
Qed.

(** The optional sign, then the rest of the pattern. *)
Lemma run_sign {R : Type} (n : nat) (sign d s : string) (caps : list string)
    (k : string -> list string -> option R) (x : R) :
  sign = EmptyString \/ sign = "-" -> d <> EmptyString -> all_of digit d = true ->
  k (d +:+ s) caps = Some x ->
  run n (Opt (Lit "-")) (sign +:+ d +:+ s) caps k = Some x.
Proof.
  intros [->| ->] Hne Hall Hk.
  - rewrite sapp_nil_l, run_Opt_skip; [exact Hk|]. apply run_Lit_miss.
    destruct d as [|c d]; [contradiction|]. rewrite sapp_cons.
    unfold all_of in Hall. cbn in Hall. apply andb_true_iff in Hall as [Hc _].
    apply HasPrefix_first, digit_not_dash, Hc.
  - apply run_Opt_take. rewrite run_Lit_app. exact Hk.
Qed.

Lemma ref_match (n : nat) (ws sign d q : string) :
  all_of space ws = true -> sign = EmptyString \/ sign = "-" ->
  d <> EmptyString -> all_of digit d = true ->
  option_map whole
    (match_here n unityRefPattern (("{fileID:" +:+ ws +:+ sign +:+ d +:+ "}") +:+ q))
  = Some ("{fileID:" +:+ ws +:+ sign +:+ d +:+ "}").
Proof.
  intros Hws Hsign Hne Hd. unfold match_here. rewrite <- (run_map whole).
  cbn [option_map whole].
  set (W := "{fileID:" +:+ ws +:+ sign +:+ d +:+ "}").
  assert (Htake : take (String.length (W +:+ q) - String.length q) (W +:+ q) = W).
  { rewrite slength_app.
    replace (String.length W + String.length q - String.length q)%nat
      with (String.length W) by lia.
    apply take_app_length. }
  replace (run n unityRefPattern (W +:+ q) [])
    with (run (R := string) n unityRefPattern
            ("{fileID:" +:+ ws +:+ sign +:+ d +:+ "}" +:+ q) [])
    by (unfold W; rewrite !sapp_assoc; reflexivity).
  unfold unityRefPattern. cbn [cat foldr].
  rewrite run_Seq, run_Lit_app, run_Seq.
  apply run_Star_all; [exact Hws|apply stops_space_number; assumption|].
  rewrite run_Seq.
  assert (Hrest : run (R := string) n
                    (Seq (Plus digit)
                       (Seq (Opt (Seq (Lit ",") (Seq (Star space) (Seq (Lit "guid:")
                              (Seq (Star space) (Seq (Plus hexlow) (Seq (Lit ",")
                              (Seq (Star space) (Seq (Lit "type:") (Seq (Star space)
                              (Seq (Plus digit) Eps))))))))))) (Seq (Lit "}") Eps)))
                    (d +:+ "}" +:+ q) []
                    (fun s' _ => Some (take (String.length (W +:+ q) - String.length s') (W +:+ q)))
                  = Some W).
  { rewrite run_Seq. apply run_Plus_all; [exact Hne|exact Hd|reflexivity|].
    rewrite run_Seq, run_Opt_skip by (rewrite run_Seq; apply run_Lit_miss; reflexivity).
    rewrite run_Seq, run_Lit_app. cbn [run]. rewrite Htake. reflexivity. }
  apply run_sign; assumption.
Qed.

Lemma unityRefPattern_literal :
  exists r, unityRefPattern = Seq (Lit "{fileID:") r.
Proof. eexists. reflexivity. Qed.

(** X23.  The first substitution of the bulk read: a cross-reference
    object with a file id only, [{fileID:<blanks><number>}], becomes
    [null].  In front of the first one (a text without an opening brace)
    nothing changes, and the substitution carries on behind it. *)
Theorem cross_references_become_null (p ws sign d q : string) :
  ~ mem "{"%char p -> all_of space ws = true -> sign = EmptyString \/ sign = "-" ->
  d <> EmptyString -> all_of digit d = true ->
  ReplaceAllString unityRefPattern
    (p +:+ ("{fileID:" +:+ ws +:+ sign +:+ d +:+ "}") +:+ q) "null"
  = p +:+ "null" +:+ ReplaceAllString unityRefPattern q "null"
  /\ (strs.Contains q "{fileID:" = false ->
      ReplaceAllString unityRefPattern
        (p +:+ ("{fileID:" +:+ ws +:+ sign +:+ d +:+ "}") +:+ q) "null"
      = p +:+ "null" +:+ q).
Proof.
  intros Hp Hws Hsign Hne Hd.
  assert (Heq : ReplaceAllString unityRefPattern
                  (p +:+ ("{fileID:" +:+ ws +:+ sign +:+ d +:+ "}") +:+ q) "null"
                = p +:+ "null" +:+ ReplaceAllString unityRefPattern q "null").
  { apply ReplaceAll_first; [reflexivity|discriminate| |].
    - intros n p1 c p2 Hsplit. rewrite sapp_cons. apply ref_no_match.
      exact (first_not_in _ _ _ _ _ Hp Hsplit).
    - intros n. apply ref_match; assumption. }
  split; [exact Heq|].
  intros Hno. rewrite Heq. do 2 f_equal.
  destruct unityRefPattern_literal as [r ->].
  apply ReplaceAll_needs_literal. exact Hno.
Qed.

Lemma cross_references_become_null_witness :
  ReplaceAllString unityRefPattern
    ("  m_Father: " +:+ ("{fileID:" +:+ " " +:+ "-" +:+ "42" +:+ "}") +:+ nl) "null"
  = "  m_Father: null" +:+ nl.
Proof.
  assert (Hm : ~ mem "{"%char "  m_Father: ") by (unfold mem; simpl; intuition discriminate).
  assert (Hne : "42" <> EmptyString) by discriminate.
  exact (proj2 (cross_references_become_null "  m_Father: " " " "-" "42" nl
                  Hm eq_refl (or_intror eq_refl) Hne eq_refl) eq_refl).
Defined.

Lemma hexlow_not_space (c : ascii) : hexlow c = true -> space c = false.
Proof.
  unfold hexlow, space, digit.
  intros [[?%N.leb_le ?%N.leb_le]%andb_true_iff|[?%N.leb_le ?%N.leb_le]%andb_true_iff]%orb_true_iff;
    repeat (apply orb_false_iff; split); apply N.eqb_neq; lia.
Qed.

Lemma stops_space_first (p : ascii -> bool) (d s : string) :
  (forall c, p c = true -> space c = false) ->
  d <> EmptyString -> all_of p d = true -> stops space (d +:+ s) = true.
Proof.
  intros Hp Hne Hall. destruct d as [|c d]; [contradiction|]. rewrite sapp_cons.
  unfold all_of in Hall. cbn in Hall. apply andb_true_iff in Hall as [Hc _].
  apply stops_first, Hp, Hc.
Qed.

Lemma asset_ref_match (n : nat) (ws sign d ws1 ws2 h ws3 ws4 t q : string) :
  all_of space ws = true -> sign = EmptyString \/ sign = "-" ->
  d <> EmptyString -> all_of digit d = true ->
  all_of space ws1 = true -> all_of space ws2 = true ->
  h <> EmptyString -> all_of hexlow h = true ->
  all_of space ws3 = true -> all_of space ws4 = true ->
  t <> EmptyString -> all_of digit t = true ->
  option_map whole
    (match_here n unityRefPattern
       (("{fileID:" +:+ ws +:+ sign +:+ d +:+ "," +:+ ws1 +:+ "guid:" +:+ ws2 +:+ h
         +:+ "," +:+ ws3 +:+ "type:" +:+ ws4 +:+ t +:+ "}") +:+ q))
  = Some ("{fileID:" +:+ ws +:+ sign +:+ d +:+ "," +:+ ws1 +:+ "guid:" +:+ ws2 +:+ h
          +:+ "," +:+ ws3 +:+ "type:" +:+ ws4 +:+ t +:+ "}").
Proof.
  intros Hws Hsign Hne Hd Hws1 Hws2 Hh Hhex Hws3 Hws4 Ht Htd.
  unfold match_here. rewrite <- (run_map whole). cbn [option_map whole].
  set (W := "{fileID:" +:+ ws +:+ sign +:+ d +:+ "," +:+ ws1 +:+ "guid:" +:+ ws2 +:+ h
            +:+ "," +:+ ws3 +:+ "type:" +:+ ws4 +:+ t +:+ "}").
  assert (Htake : take (String.length (W +:+ q) - String.length q) (W +:+ q) = W).
  { rewrite slength_app.
    replace (String.length W + String.length q - String.length q)%nat
      with (String.length W) by lia.
    apply take_app_length. }
  replace (run n unityRefPattern (W +:+ q) [])
    with (run (R := string) n unityRefPattern
            ("{fileID:" +:+ ws +:+ sign +:+ d +:+ "," +:+ ws1 +:+ "guid:" +:+ ws2 +:+ h
             +:+ "," +:+ ws3 +:+ "type:" +:+ ws4 +:+ t +:+ "}" +:+ q) [])
    by (unfold W; rewrite !sapp_assoc; reflexivity).
  unfold unityRefPattern. cbn [cat foldr].
  rewrite run_Seq, run_Lit_app, run_Seq.
  apply run_Star_all; [exact Hws|apply stops_space_number; assumption|].
  rewrite run_Seq. apply run_sign; try assumption.
  rewrite run_Seq. apply run_Plus_all; [exact Hne|exact Hd|reflexivity|].
  rewrite run_Seq. apply run_Opt_take.
  rewrite run_Seq, run_Lit_app, run_Seq.
  apply run_Star_all; [exact Hws1|reflexivity|].
  rewrite run_Seq, run_Lit_app, run_Seq.
  apply run_Star_all; [exact Hws2|apply (stops_space_first hexlow); auto using hexlow_not_space|].
  rewrite run_Seq. apply run_Plus_all; [exact Hh|exact Hhex|reflexivity|].
  rewrite run_Seq, run_Lit_app, run_Seq.
  apply run_Star_all; [exact Hws3|reflexivity|].
  rewrite run_Seq, run_Lit_app, run_Seq.
  apply run_Star_all; [exact Hws4|apply (stops_space_first digit); auto using digit_not_space|].
  rewrite run_Seq. apply run_Plus_all; [exact Ht|exact Htd|reflexivity|].
  cbn [run]. rewrite HasPrefix_app, drop_app_length. rewrite Htake. reflexivity.
Qed.

(** X24.  A cross-reference object into another asset, with file id,
    guid and type, [{fileID: <number>, guid: <hex digits>, type:
    <number>}], becomes [null] as a whole: the guid and the type go with
    the file id. *)
Theorem asset_references_become_null (p ws sign d ws1 ws2 h ws3 ws4 t q : string) :
  ~ mem "{"%char p ->
  all_of space ws = true -> sign = EmptyString \/ sign = "-" ->
  d <> EmptyString -> all_of digit d = true ->
  all_of space ws1 = true -> all_of space ws2 = true ->
  h <> EmptyString -> all_of hexlow h = true ->
  all_of space ws3 = true -> all_of space ws4 = true ->
  t <> EmptyString -> all_of digit t = true ->
  ReplaceAllString unityRefPattern
    (p +:+ ("{fileID:" +:+ ws +:+ sign +:+ d +:+ "," +:+ ws1 +:+ "guid:" +:+ ws2 +:+ h
            +:+ "," +:+ ws3 +:+ "type:" +:+ ws4 +:+ t +:+ "}") +:+ q) "null"
  = p +:+ "null" +:+ ReplaceAllString unityRefPattern q "null".
Proof.
  intros Hp Hws Hsign Hne Hd Hws1 Hws2 Hh Hhex Hws3 Hws4 Ht Htd.
  apply ReplaceAll_first; [reflexivity|discriminate| |].
  - intros n p1 c p2 Hsplit. rewrite sapp_cons. apply ref_no_match.
    exact (first_not_in _ _ _ _ _ Hp Hsplit).
  - intros n. apply asset_ref_match; assumption.
Qed.

Lemma asset_references_become_null_witness :
  ReplaceAllString unityRefPattern
    ("  m_Script: "
     +:+ ("{fileID:" +:+ " " +:+ EmptyString +:+ "11500000" +:+ "," +:+ " " +:+ "guid:"
          +:+ " " +:+ "0a1b2c3d4e5f" +:+ "," +:+ " " +:+ "type:" +:+ " " +:+ "3" +:+ "}")
     +:+ nl) "null"
  = "  m_Script: null" +:+ nl.
Proof.
  assert (Hm : ~ mem "{"%char "  m_Script: ") by (unfold mem; simpl; intuition discriminate).
  assert (H1 : "11500000" <> EmptyString) by discriminate.
  assert (H2 : "0a1b2c3d4e5f" <> EmptyString) by discriminate.
  assert (H3 : "3" <> EmptyString) by discriminate.
  exact (asset_references_become_null "  m_Script: " " " EmptyString "11500000" " " " "
           "0a1b2c3d4e5f" " " " " "3" nl
           Hm eq_refl (or_introl eq_refl) H1 eq_refl eq_refl eq_refl H2 eq_refl
           eq_refl eq_refl H3 eq_refl).
Defined.

(** ** A Unity asset file, from the top *)

Lemma yaml_peeks :
  first_is_LF "%YAM" = false
  /\ MatchString tagDirectiveLineRegEx "%YAM" = false
  /\ String.eqb "%YAM" "--- " = false
  /\ String.eqb "%YAM" ("---" +:+ nl) = false
  /\ MatchString commentLineRegEx "%YAM" = false
  /\ MatchString yamlDirectiveLineRegEx "%YAM" = true.
Proof. repeat split; vm_compute; reflexivity. Qed.

(** The YAML directive is copied to the stream and to the leading
    content, whatever the mode. *)
Lemma step_yaml_directive (st : scan) (c rest : string) (f : error) :
  ~ mem LF c ->
  step st (bufio.mkReader ("%YAML" +:+ c +:+ nl +:+ rest) f)
  = Next (write_content ("%YAML" +:+ c +:+ nl) (write_sb ("%YAML" +:+ c +:+ nl) st))
         (bufio.mkReader rest f).
Proof.
  intros Hm. destruct yaml_peeks as (H1 & H2 & H3 & H4 & H5 & H6).
  unfold step, bufio.Peek. cbn [bufio.unread bufio.fault].
  change (take 4 ("%YAML" +:+ c +:+ nl +:+ rest)) with "%YAM".
  change (4 <=? String.length ("%YAML" +:+ c +:+ nl +:+ rest))%nat with true. cbv iota.
  rewrite H1, H2, H3, H4, H5, H6. cbn [orb].
  unfold bufio.ReadString. cbn [bufio.unread bufio.fault].
  assert (Hcut : bufio.cut LF ("%YAML" +:+ c +:+ nl +:+ rest)
                 = Some ("%YAML" +:+ c +:+ nl, rest)).
  { replace ("%YAML" +:+ c +:+ nl +:+ rest) with (("%YAML" +:+ c) +:+ nl +:+ rest)
      by (rewrite !sapp_assoc; reflexivity).
    rewrite cut_line.
    - rewrite !sapp_assoc. reflexivity.
    - rewrite mem_app. intros [H|H]; [|exact (Hm H)].
      unfold mem in H. cbn in H. intuition discriminate. }
  rewrite Hcut. reflexivity.
Qed.

Lemma plain_id_without (c0 : ascii) (a : string) :
  digit c0 || Ascii.eqb c0 "-" = false -> plain_id a = true -> ~ mem c0 a.
Proof.
  intros Hc0 Hplain Hin. unfold plain_id in Hplain. rewrite forallb_forall in Hplain.
  rewrite (Hplain c0 Hin) in Hc0. discriminate.
Qed.

(** X25.  The head of a Unity asset file, normalized.  After the YAML
    directive, Unity's tag directive and the first typed separator, the
    stream holds the YAML directive, the separator as [--- &<id>], and
    the rest of the file with both substitutions applied; the leading
    content holds the three header lines as they were; nothing is left
    unread and there is no error. *)
Theorem unity_asset_head_is_normalized (c T tag id body : string) :
  ~ mem LF c ->
  strs.HasPrefix T "%TAG" = true -> strs.Contains T unityNamespace = true -> ~ mem LF T ->
  ~ mem "&"%char tag -> ~ mem LF tag ->
  plain_id id = true -> id <> EmptyString ->
  (4 <= String.length body)%nat -> structural (take 4 body) = false ->
  processReadStream
    (bufio.NewReader ("%YAML" +:+ c +:+ nl +:+ T +:+ nl
                      +:+ "--- " +:+ tag +:+ "&" +:+ id +:+ nl +:+ body))
  = Some (Normalized
            ("%YAML" +:+ c +:+ nl +:+ "--- &" +:+ id +:+ nl
             +:+ ReplaceAllString unityTagPattern
                   (ReplaceAllString unityRefPattern body "null") EmptyString)
            ("%YAML" +:+ c +:+ nl +:+ T +:+ nl +:+ "--- " +:+ tag +:+ "&" +:+ id +:+ nl)
            None,
          bufio.mkReader EmptyString EOF).
Proof.
  intros Hc HT Hns HTLF Htag HtagLF Hid Hne Hlen Hstr.
  set (Y := "%YAML" +:+ c +:+ nl).
  set (sep := "--- " +:+ tag +:+ "&" +:+ id +:+ nl).
  assert (HidAmp : ~ mem "&"%char id) by (apply plain_id_without; [reflexivity|exact Hid]).
  assert (HidLF : ~ mem LF id) by (apply plain_id_without; [reflexivity|exact Hid]).
  assert (Hrest : ~ mem LF (tag +:+ "&" +:+ id)).
  { rewrite mem_app. change ("&" +:+ id) with (String "&"%char id). rewrite mem_cons.
    intros [H|[H|H]]; [tauto|discriminate|tauto]. }
  (* the YAML directive *)
  pose proof (step_yaml_directive scan0 c (T +:+ nl +:+ sep +:+ body) EOF Hc) as H1.
  change (write_content ("%YAML" +:+ c +:+ nl) (write_sb ("%YAML" +:+ c +:+ nl) scan0))
    with (Scan false Y Y) in H1.
  (* the tag directive *)
  pose proof (step_unity_tag (Scan false Y Y) T (sep +:+ body) EOF HT Hns HTLF) as H2.
  cbn [sb contentBuffer] in H2.
  (* the typed separator *)
  pose proof (step_unity_separator (Y +:+ T +:+ nl) Y (tag +:+ "&" +:+ id) body EOF Hrest)
    as H3.
  replace ((tag +:+ "&" +:+ id) +:+ nl) with (tag +:+ "&" +:+ id +:+ nl) in H3
    by (rewrite !sapp_assoc; reflexivity).
  rewrite anchor_of_line in H3 by assumption.
  rewrite (TrimSpace_line id Hne (fun x => plain_id_graphic id x Hid)) in H3.
  replace ("--- " +:+ (tag +:+ "&" +:+ id) +:+ nl +:+ body) with (sep +:+ body) in H3
    by (unfold sep; rewrite !sapp_assoc; reflexivity).
  pose proof (reaches_next _ _ _ _ _ _
                (reaches_next _ _ _ _ _ _
                   (reaches_next _ _ _ _ _ _ (reaches_start scan0 _) H1) H2) H3) as Hreach.
  replace ("%YAML" +:+ c +:+ nl +:+ T +:+ nl +:+ "--- " +:+ tag +:+ "&" +:+ id +:+ nl +:+ body)
    with ("%YAML" +:+ c +:+ nl +:+ T +:+ nl +:+ sep +:+ body)
    by (unfold sep; rewrite !sapp_assoc; reflexivity).
  apply (reaches_result _ _ _ 1 _ Hreach).
  cbn [loop]. rewrite step_unity_bulk by (reflexivity || assumption).
  cbn [contentBuffer sb]. unfold Y, sep. rewrite !sapp_assoc. reflexivity.
Qed.

Lemma unity_asset_head_is_normalized_witness :
  processReadStream
    (bufio.NewReader
       ("%YAML" +:+ " 1.1" +:+ nl +:+ "%TAG !u! tag:unity3d.com,2011:" +:+ nl
        +:+ "--- " +:+ "!u!114 " +:+ "&" +:+ "11400000" +:+ nl
        +:+ ("MonoBehaviour:" +:+ nl
             +:+ "  m_Script: {fileID: 11500000, guid: 0a1b2c, type: 3}" +:+ nl
             +:+ "--- !u!1 &5" +:+ nl +:+ "GameObject:" +:+ nl)))
  = Some (Normalized
            ("%YAML 1.1" +:+ nl +:+ "--- &11400000" +:+ nl +:+ "MonoBehaviour:" +:+ nl
             +:+ "  m_Script: null" +:+ nl +:+ "---  &5" +:+ nl +:+ "GameObject:" +:+ nl)
            ("%YAML 1.1" +:+ nl +:+ "%TAG !u! tag:unity3d.com,2011:" +:+ nl
             +:+ "--- !u!114 &11400000" +:+ nl)
            None,
          bufio.mkReader EmptyString EOF).
Proof.
  assert (H1 : ~ mem LF " 1.1") by (unfold mem; simpl; intuition discriminate).
  assert (H2 : ~ mem LF "%TAG !u! tag:unity3d.com,2011:")
    by (unfold mem; simpl; intuition discriminate).
  assert (H3 : ~ mem "&"%char "!u!114 ") by (unfold mem; simpl; intuition discriminate).
  assert (H4 : ~ mem LF "!u!114 ") by (unfold mem; simpl; intuition discriminate).
  assert (H5 : "11400000" <> EmptyString) by discriminate.
  refine (eq_trans
            (unity_asset_head_is_normalized " 1.1" "%TAG !u! tag:unity3d.com,2011:"
               "!u!114 " "11400000" _ H1 eq_refl eq_refl H2 H3 H4 eq_refl H5 _ _) _).
  - simpl. lia.
  - vm_compute. reflexivity.
  - vm_compute. reflexivity.
Defined.

(** ** The operators *)

Section OperatorProperties.
Variable Out : Type.
Variable createScalarNode : string -> string -> Out.
Variable mapNode : list Out -> Out.
Variable fs : FileSystem.
Variable ToLower : string -> string.

Lemma content_readable (candidate : ops.Candidate) :
  ops.readable fs candidate ->
  ops.content fs candidate = inl (ops.text fs candidate).
Proof.
  unfold ops.readable, ops.text, ops.content. intros Hread.
  destruct (nonempty (ops.filename candidate)); [|reflexivity].
  destruct (Hread eq_refl) as [t ->]. reflexivity.
Qed.

Lemma each_readable (build : string -> Out) (matching : list ops.Candidate) :
  forall results,
    Forall (ops.readable fs) matching ->
    ops.each fs (fun t => inl (build t)) matching results
    = inl (results ++ map (fun c => build (ops.text fs c)) matching).
Proof.
  induction matching as [|c rest IH]; intros results Hall; cbn [ops.each map].
  - rewrite List.app_nil_r. reflexivity.
  - apply Forall_cons in Hall as [Hc Hrest].
    rewrite (content_readable c Hc), (IH _ Hrest), <- List.app_assoc. reflexivity.
Qed.

Lemma each_unreadable (build : string -> Out) (before after : list ops.Candidate)
    (c : ops.Candidate) (err : error) :
  forall results,
    Forall (ops.readable fs) before ->
    nonempty (ops.filename c) = true -> fs (ops.filename c) = inr err ->
    ops.each fs (fun t => inl (build t)) (before ++ c :: after) results
    = inr (Errorf ("failed to read unity file: " +:+ message err)).
Proof.
  induction before as [|b before IH]; intros results Hall Hname Hfs; cbn [ops.each app].
  - unfold ops.content. rewrite Hname, Hfs. reflexivity.
  - apply Forall_cons in Hall as [Hb Hrest].
    rewrite (content_readable b Hb). apply IH; assumption.
Qed.

Lemma graphNodesMap_total (t : string) :
  ops.graphNodesMap createScalarNode mapNode t
  = inl (mapNode (flat_map (ops.nodeEntry createScalarNode mapNode)
                    (fst (ParseUnityGraphNodes t)))).
Proof. reflexivity. Qed.

Lemma spawnerDistancesMap_total (t : string) :
  ops.spawnerDistancesMap createScalarNode mapNode ToLower t
  = inl (mapNode (flat_map (ops.spawnerEntry createScalarNode mapNode)
                    (map_to_list (ExtractSpawnerDistances ToLower
                                    (fst (ParseUnityGraphNodes t)))))).
Proof. reflexivity. Qed.

Lemma each_ext (f g : string -> Out + error) (matching : list ops.Candidate) :
  (forall t, f t = g t) ->
  forall results, ops.each fs f matching results = ops.each fs g matching results.
Proof.
  intros H. induction matching as [|c rest IH]; intros results; cbn [ops.each]; [reflexivity|].
  destruct (ops.content fs c); [|reflexivity]. rewrite H.
  destruct (g s); [apply IH|reflexivity].
Qed.

(** X26.  When the file of every file-backed matching node can be read,
    both operators succeed and return one mapping per matching node, in
    order: the mapping of the graph nodes, or of the spawner distances,
    of the node's text.  The text is the file's content, or the value of
    a scalar without a file, or empty for any other node without a file,
    which thus gets an empty mapping.  Parsing adds no failure of its
    own. *)
Theorem operators_map_every_candidate (matching : list ops.Candidate) :
  Forall (ops.readable fs) matching ->
  ops.unityGraphNodesOperator createScalarNode mapNode fs matching
  = inl (map (fun c =>
                mapNode (flat_map (ops.nodeEntry createScalarNode mapNode)
                           (fst (ParseUnityGraphNodes (ops.text fs c)))))
             matching)
  /\ ops.unitySpawnerDistancesOperator createScalarNode mapNode fs ToLower matching
     = inl (map (fun c =>
                   mapNode (flat_map (ops.spawnerEntry createScalarNode mapNode)
                              (map_to_list
                                 (ExtractSpawnerDistances ToLower
                                    (fst (ParseUnityGraphNodes (ops.text fs c)))))))
                matching)
  /\ (forall k v, k <> ScalarNode ->
        ops.text fs (ops.mkCandidate EmptyString k v) = EmptyString
        /\ ops.unityGraphNodesOperator createScalarNode mapNode fs
             [ops.mkCandidate EmptyString k v]
           = inl [mapNode []]).
Proof.
  intros Hall. split; [|split].
  - unfold ops.unityGraphNodesOperator.
    rewrite (each_ext _ _ matching graphNodesMap_total).
    rewrite (each_readable
               (fun t => mapNode (flat_map (ops.nodeEntry createScalarNode mapNode)
                                    (fst (ParseUnityGraphNodes t)))) matching [] Hall).
    reflexivity.
  - unfold ops.unitySpawnerDistancesOperator.
    rewrite (each_ext _ _ matching spawnerDistancesMap_total).
    rewrite (each_readable
               (fun t => mapNode (flat_map (ops.spawnerEntry createScalarNode mapNode)
                                    (map_to_list (ExtractSpawnerDistances ToLower
                                                    (fst (ParseUnityGraphNodes t))))))
               matching [] Hall).
    reflexivity.
  - intros k v Hk.
    assert (Htext : ops.text fs (ops.mkCandidate EmptyString k v) = EmptyString).
    { unfold ops.text, ops.content. cbn. destruct k; try reflexivity. contradiction. }
    split; [exact Htext|].
    unfold ops.unityGraphNodesOperator. cbn [ops.each].
    unfold ops.content. cbn [ops.filename nonempty ops.kind ops.Value].
    destruct k; try reflexivity. contradiction.
Qed.

(** X27.  The first matching node whose file cannot be read ends an
    operator: it returns the error of the read, wrapped, and none of the
    mappings built for the nodes before it. *)
Theorem operators_fail_on_first_unreadable_file (before after : list ops.Candidate)
    (c : ops.Candidate) (err : error) :
  Forall (ops.readable fs) before ->
  nonempty (ops.filename c) = true ->
  fs (ops.filename c) = inr err ->
  ops.unityGraphNodesOperator createScalarNode mapNode fs (before ++ c :: after)
  = inr (Errorf ("failed to read unity file: " +:+ message err))
  /\ ops.unitySpawnerDistancesOperator createScalarNode mapNode fs ToLower
       (before ++ c :: after)
     = inr (Errorf ("failed to read unity file: " +:+ message err)).
Proof.
  intros Hall Hname Hfs. split.
  - unfold ops.unityGraphNodesOperator.
    rewrite (each_ext _ _ _ graphNodesMap_total).
    apply (each_unreadable
             (fun t => mapNode (flat_map (ops.nodeEntry createScalarNode mapNode)
                                  (fst (ParseUnityGraphNodes t))))); assumption.
  - unfold ops.unitySpawnerDistancesOperator.
    rewrite (each_ext _ _ _ spawnerDistancesMap_total).
    apply (each_unreadable
             (fun t => mapNode (flat_map (ops.spawnerEntry createScalarNode mapNode)
                                  (map_to_list (ExtractSpawnerDistances ToLower
                                                  (fst (ParseUnityGraphNodes t)))))));
      assumption.
Qed.

End OperatorProperties.

Lemma operators_map_every_candidate_witness :
  let fs := one_file "a.asset" ("--- !u!114 &7" +:+ nl +:+ "  m_Name: Grid" +:+ nl) in
  let matching := [ops.mkCandidate "a.asset" NoKind EmptyString;
                   ops.mkCandidate EmptyString ScalarNode "m_Name: Rock";
                   ops.mkCandidate EmptyString MappingNode "m_Name: Lost"] in
  Forall (ops.readable fs) matching
  /\ ops.unityGraphNodesOperator (fun value _ => value)
       (fun content => "{" +:+ strs.Join content "," +:+ "}") fs matching
     = inl ["{Grid,{FileID,7}}"; "{Rock,{}}"; "{}"].
Proof.
  intros fs matching.
  assert (Hall : Forall (ops.readable fs) matching).
  { repeat constructor; intros H; try discriminate H. eexists. reflexivity. }
  split; [exact Hall|].
  refine (eq_trans
            (proj1 (operators_map_every_candidate string (fun value _ => value)
                      (fun content => "{" +:+ strs.Join content "," +:+ "}") fs
                      strs.ToLowerASCII matching Hall)) _).
  vm_compute. reflexivity.
Defined.

Lemma operators_fail_on_first_unreadable_file_witness :
  let fs := one_file "a.asset" ("--- !u!114 &7" +:+ nl +:+ "  m_Name: Grid" +:+ nl) in
  ops.unityGraphNodesOperator (fun value _ => value)
    (fun content => "{" +:+ strs.Join content "," +:+ "}") fs
    ([ops.mkCandidate "a.asset" NoKind EmptyString]
     ++ ops.mkCandidate "b.asset" NoKind EmptyString
     :: [ops.mkCandidate EmptyString ScalarNode "m_Name: Rock"])
  = inr (Errorf "failed to read unity file: open b.asset: no such file or directory").
Proof.
  intros fs.
  assert (Hall : Forall (ops.readable fs) [ops.mkCandidate "a.asset" NoKind EmptyString]).
  { repeat constructor. intros _. eexists. reflexivity. }
  exact (proj1 (operators_fail_on_first_unreadable_file string (fun value _ => value)
                  (fun content => "{" +:+ strs.Join content "," +:+ "}") fs
                  strs.ToLowerASCII [ops.mkCandidate "a.asset" NoKind EmptyString]
                  [ops.mkCandidate EmptyString ScalarNode "m_Name: Rock"]
                  (ops.mkCandidate "b.asset" NoKind EmptyString) _ Hall eq_refl eq_refl)).
Defined.

(** ** The command and the helper, side by side *)

Section Incomparable.
Variable ToLower : string -> string.

(** X28.  The command lists spawners the helper does not.  The command
    asks for [Spawner] anywhere in the segment, the helper for a name that
    matches its pattern.  So for a one-segment text that has [Spawner]
    in it, a name the pattern does not match and one of the five
    properties, [extractSpawners] prints a block with that name and
    counts one spawner, while [ExtractSpawnerDistances] of the parsed
    nodes is empty: the selection of the command does not lie within
    the selection of the helper. *)
Theorem command_lists_what_helper_skips (doc name : string) :
  strs.Contains doc "---" = false ->
  strs.Contains doc "Spawner" = true ->
  listedName doc = Some name ->
  collect spawnerPatterns doc <> ∅ ->
  MatchString spawnerPattern name = false ->
  fst (extractSpawners doc)
  = [Printf "%s:\n" [str name]] ++ print_properties (collect spawnerPatterns doc)
    ++ [Println []; Printf "Total spawners found: %d\n" [int 1]]
  /\ ExtractSpawnerDistances ToLower (fst (ParseUnityGraphNodes doc)) = ∅.
Proof.
  intros Hsep Hsp Hname Hprops Hmatch. split.
  - unfold extractSpawners. rewrite spawners_loop, (Split_none _ _ Hsep).
    rewrite omap_step. unfold spawnerBlock. rewrite Hsp, Hname.
    rewrite bool_decide_eq_false_2 by exact Hprops.
    cbn. rewrite List.app_nil_r, <- List.app_assoc. reflexivity.
  - rewrite Parse_segments, (Split_none _ _ Hsep), omap_step, parseDocument_name.
    assert (Hseg : segmentName doc = name).
    { unfold segmentName. unfold listedName in Hname.
      destruct (FindStringSubmatch namePattern doc) as [|w [|g rest]]; congruence. }
    rewrite Hseg. unfold ExtractSpawnerDistances. rewrite FilterNodesByType_filter.
    destruct (nonempty name); cbn [omap List.filter Name]; [|reflexivity].
    rewrite Hmatch. reflexivity.
Qed.

End Incomparable.

Lemma command_lists_what_helper_skips_witness :
  let doc := "  m_Name: Rock" +:+ nl +:+ "  source: Spawner" +:+ nl +:+ "  Extents: 3" +:+ nl in
  fst (extractSpawners doc)
  = [Printf "%s:\n" [str "Rock"]] ++ print_properties (collect spawnerPatterns doc)
    ++ [Println []; Printf "Total spawners found: %d\n" [int 1]]
  /\ ExtractSpawnerDistances strs.ToLowerASCII (fst (ParseUnityGraphNodes doc)) = ∅.
Proof.
  intros doc.
  apply (command_lists_what_helper_skips strs.ToLowerASCII doc "Rock");
    [vm_compute; reflexivity | vm_compute; reflexivity | vm_compute; reflexivity
     | vm_compute; discriminate | vm_compute; reflexivity].
Defined.
